(** * Vault PDF audit: overlay-redaction detector and risk scorer

    A shallow embedding of
    - [pdf_overlay_audit.py] (colour classification, rectangle overlap,
      fill and span extraction, overlap counting, page / document /
      directory audit), and
    - [pdf_security_audit_advanced.py] ([check_ocr_layer] and
      [calculate_risk_score]).

    Conventions.  A Python float is read as the rational it denotes
    ([Q]); comparisons are exact, equalities between floats are stated
    with [==], and the float subtraction [1.0 - threshold] of
    [is_color_black] is rounded to the nearest binary64 number
    ([float_sub]).  Python integers are [Z].  A Python [str] that the
    code strips is the list of its code points ([text]).  A Python
    exception is a value of [exn] carried by the [exc] result type.  The
    PyMuPDF and [pathlib] objects the code consumes (rectangles, pages,
    documents, paths) are records holding what each accessor returns. *)

From Stdlib Require Import QArith Qabs Qround Qpower ZArith List String Ascii Bool.
From Stdlib Require Import Lia Lqa.
From Stdlib Require Import Permutation Sorted.
Import ListNotations.
Open Scope Q_scope.

(** ** Exceptions *)

Inductive exn_kind :=
| FileNotFoundError
| FileDataError
| PermissionError
| ZeroDivisionError
| OtherException (type_name : string).

Record exn := mkExn { exn_type : exn_kind; exn_message : string }.

Inductive exc (A : Type) :=
| Ok (a : A)
| Raise (e : exn).
Arguments Ok {A} a.
Arguments Raise {A} e.

Definition bind {A B} (m : exc A) (k : A -> exc B) : exc B :=
  match m with
  | Ok a => k a
  | Raise e => Raise e
  end.

Notation "x <- m ;; k" := (bind m (fun x => k))
  (at level 61, m at next level, right associativity).

(** [type(e).__name__] *)
Definition exn_type_name (e : exn) : string :=
  match exn_type e with
  | FileNotFoundError => "FileNotFoundError"
  | FileDataError => "FileDataError"
  | PermissionError => "PermissionError"
  | ZeroDivisionError => "ZeroDivisionError"
  | OtherException n => n
  end%string.

(** ** Float comparisons *)

Definition Qleb (a b : Q) : bool := Qle_bool a b.
Definition Qltb (a b : Q) : bool := negb (Qle_bool b a).
Definition Qgeb (a b : Q) : bool := Qle_bool b a.
Definition Qgtb (a b : Q) : bool := negb (Qle_bool a b).

(** ** Float subtraction *)

(** A Python float is an IEEE 754 binary64 number: a significand of 53
    bits scaled by a power of two, the least exponent of the last
    significand bit being -1074.  [a - b] is the exact difference
    rounded to the nearest such number, a tie going to the even
    significand. *)

Definition pow2 (e : Z) : Q := 2 ^ e.

(** Nearest integer, ties to even. *)
Definition round_half_even (x : Q) : Z :=
  let f := Qfloor x in
  match Qcompare (x - inject_Z f) (1 # 2) with
  | Lt => f
  | Gt => (f + 1)%Z
  | Eq => if Z.even f then f else (f + 1)%Z
  end.

(** The integer part of the binary logarithm of [m > 0]. *)
Definition floor_log2 (m : Q) : Z :=
  let l := (Z.log2 (Qnum m) - Z.log2 (Zpos (Qden m)))%Z in
  if Qle_bool (pow2 l) m then l else (l - 1)%Z.

(** The exponent of the last significand bit of the floats around [x]. *)
Definition ulp_exponent (x : Q) : Z :=
  Z.max (floor_log2 (Qabs x) - 52) (-1074).

Definition round_to (e : Z) (x : Q) : Q :=
  inject_Z (round_half_even (x / pow2 e)) * pow2 e.

Definition round_float (x : Q) : Q := round_to (ulp_exponent x) x.

(** [a - b] on floats.  The largest float is (2^53 - 1) * 2^971; for a
    float [b], [1.0 - b] never rounds beyond it, so the subtraction of
    [is_color_black] does not overflow. *)
Definition float_sub (a b : Q) : Q := round_float (a - b).

(** ** fitz.Rect *)

Record Rect := mkRect { x0 : Q; y0 : Q; x1 : Q; y1 : Q }.

(** Modelled from the spec: the [fitz.Rect] class (PyMuPDF) is not part
    of the repository.  The spec's Rectangle is four bounds
    (x0,y0,x1,y1); the overlap region of two rectangles has the larger
    of the two lower bounds and the smaller of the two upper bounds on
    each axis. *)
Definition rect_and (a b : Rect) : Rect :=
  {| x0 := if Qltb (x0 a) (x0 b) then x0 b else x0 a;
     y0 := if Qltb (y0 a) (y0 b) then y0 b else y0 a;
     x1 := if Qgtb (x1 a) (x1 b) then x1 b else x1 a;
     y1 := if Qgtb (y1 a) (y1 b) then y1 b else y1 a |}.

(** Modelled from the spec: [Rect.is_empty], a rectangle enclosing no
    area (degenerate rectangles contribute zero overlap). *)
Definition is_empty (r : Rect) : bool :=
  Qgeb (x0 r) (x1 r) || Qgeb (y0 r) (y1 r).

(** Modelled from the spec: [Rect.is_valid], the data-model invariant
    x0 <= x1 and y0 <= y1. *)
Definition is_valid (r : Rect) : bool :=
  Qleb (x0 r) (x1 r) && Qleb (y0 r) (y1 r).

(** Modelled from the spec: [Rect.width] and [Rect.height], the extent
    along each axis, never negative. *)
Definition width (r : Rect) : Q :=
  if Qltb (x1 r - x0 r) 0 then 0 else x1 r - x0 r.
Definition height (r : Rect) : Q :=
  if Qltb (y1 r - y0 r) 0 then 0 else y1 r - y0 r.

(** Modelled from the spec: [Rect.get_area], width times height. *)
Definition get_area (r : Rect) : Q := width r * height r.

(** ** Colour classification *)

Definition is_color_black (color : option (list Q)) (threshold : Q) : bool :=
  match color with
  | None => false
  | Some [] => false
  | Some [v] => Qleb v threshold
  | Some [r; g; b] => Qleb r threshold && Qleb g threshold && Qleb b threshold
  | Some [c; m; y; k] =>
      Qgeb k (float_sub 1.0 threshold) && Qleb c threshold && Qleb m threshold
      && Qleb y threshold
  | Some cs => forallb (fun c => Qleb c threshold) cs
  end.

(** ** Rectangle overlap *)

Definition compute_overlap_area (rect1 rect2 : Rect) : Q :=
  let intersection := rect_and rect1 rect2 in
  if is_empty intersection || negb (is_valid intersection) then 0.0
  else get_area intersection.

(** ** Overlap counting *)

(** The inner [for text_rect in text_rects] loop: [true] when the loop
    leaves through [break]. *)
Fixpoint overlaps_some_text (black_rect : Rect) (text_rects : list Rect)
    (min_overlap_area : Q) : bool :=
  match text_rects with
  | [] => false
  | text_rect :: rest =>
      if Qgeb (compute_overlap_area black_rect text_rect) min_overlap_area
      then true
      else overlaps_some_text black_rect rest min_overlap_area
  end.

(** The outer [for black_rect in black_rects] loop, started with the
    running [overlap_count]. *)
Fixpoint detect_overlaps_from (overlap_count : Z) (black_rects text_rects : list Rect)
    (min_overlap_area : Q) (stop_after : option Z) : Z :=
  match black_rects with
  | [] => overlap_count
  | black_rect :: rest =>
      let overlap_count :=
        if overlaps_some_text black_rect text_rects min_overlap_area
        then (overlap_count + 1)%Z else overlap_count in
      match stop_after with
      | Some k =>
          if (overlap_count >=? k)%Z then overlap_count
          else detect_overlaps_from overlap_count rest text_rects
                 min_overlap_area stop_after
      | None =>
          detect_overlaps_from overlap_count rest text_rects
            min_overlap_area stop_after
      end
  end.

Definition detect_overlaps (black_rects text_rects : list Rect)
    (min_overlap_area : Q) (stop_after : option Z) : Z :=
  detect_overlaps_from 0 black_rects text_rects min_overlap_area stop_after.

(** ** Text *)

(** A Python [str] as the sequence of its code points. *)
Definition text := list Z.

(** The text of a literal, one code point per character. *)
Fixpoint text_of (s : string) : text :=
  match s with
  | EmptyString => []
  | String c rest => Z.of_nat (nat_of_ascii c) :: text_of rest
  end.

(** The characters [str.strip()] removes, those for which
    [str.isspace()] holds: U+0009..U+000D, U+001C..U+0020, U+0085,
    U+00A0, U+1680, U+2000..U+200A, U+2028, U+2029, U+202F, U+205F and
    U+3000. *)
Definition is_space (c : Z) : bool :=
  ((9 <=? c) && (c <=? 13) || (28 <=? c) && (c <=? 32)
   || (c =? 133) || (c =? 160) || (c =? 5760)
   || (8192 <=? c) && (c <=? 8202)
   || (c =? 8232) || (c =? 8233) || (c =? 8239) || (c =? 8287)
   || (c =? 12288))%Z.

Fixpoint lstrip (s : text) : text :=
  match s with
  | [] => []
  | c :: rest => if is_space c then lstrip rest else s
  end.

Definition rstrip (s : text) : text := rev (lstrip (rev s)).

Definition strip (s : text) : text := rstrip (lstrip s).

(** ** Ordering of sequences *)

(** [<] on Python sequences ([str], [list]): the first position where
    they differ decides, and a proper prefix is smaller. *)
Fixpoint lex_compare {A} (cmp : A -> A -> comparison) (l1 l2 : list A)
  : comparison :=
  match l1, l2 with
  | [], [] => Eq
  | [], _ :: _ => Lt
  | _ :: _, [] => Gt
  | a :: r1, b :: r2 =>
      match cmp a b with
      | Eq => lex_compare cmp r1 r2
      | c => c
      end
  end.

(** Strings compare by code point. *)
Definition text_compare : text -> text -> comparison := lex_compare Z.compare.

(** [not (b < a)] from the comparison of [a] with [b]. *)
Definition not_gt (c : comparison) : bool :=
  match c with Gt => false | _ => true end.

(** [sorted(...)]: a stable sort; an element goes before the first one
    that is not smaller than it. *)
Fixpoint insert_by {A} (le : A -> A -> bool) (x : A) (l : list A) : list A :=
  match l with
  | [] => [x]
  | y :: rest => if le x y then x :: l else y :: insert_by le x rest
  end.

Definition sort_by {A} (le : A -> A -> bool) (l : list A) : list A :=
  fold_right (insert_by le) [] l.

(** ** fitz.Page and what its accessors return *)

(** One element of a path item tuple such as [("re", Rect, 1)] or
    [("l", Point, Point)]. *)
Inductive item_value :=
| ItemOp (op : string)
| ItemRect (r : Rect)
| ItemPoint (x y : Q)
| ItemNumber (v : Q).

(** One dictionary of [page.get_drawings()]; a key that is absent, [None]
    or (for "rect") not a [fitz.Rect] is [None]. *)
Record drawing := mkDrawing {
  drawing_fill : option (list Q);
  drawing_rect : option Rect;
  drawing_items : option (list (list item_value)) }.

(** [page.get_text("rawdict")]: blocks, lines, spans and characters. *)
Record raw_char := mkChar { char_c : string; char_bbox : list Q }.

Record span := mkSpan {
  span_bbox : option (list Q);
  span_font : string;
  span_size : Q;
  span_chars : list raw_char }.

Record line := mkLine { line_spans : option (list span) }.

Record block := mkBlock {
  block_type : option Z;
  block_lines : option (list line) }.

Record raw_dict := mkRawDict { blocks : option (list block) }.

(** The dictionary [doc.extract_image(xref)] returns; an absent key is
    [None]. *)
Record image_dict := mkImageDict {
  image_width : option Z;
  image_height : option Z }.

(** One tuple of [page.get_images()]; its first component is the xref. *)
Record image_info := mkImageInfo { image_xref : Z; image_name : string }.

Record Page := mkPage {
  page_rect : Rect;
  get_drawings : exc (list drawing);
  get_text_rawdict : exc raw_dict;
  get_images : exc (list image_info);
  get_text : exc text }.

(** ** Opaque fill extraction *)

Definition division_by_zero : exn :=
  mkExn ZeroDivisionError "float division by zero".

(** Rectangle paths among the items: [len(item) >= 2] and [item[1]] is
    a [fitz.Rect]. *)
Fixpoint item_rects (items : list (list item_value)) : list Rect :=
  match items with
  | [] => []
  | (_ :: ItemRect r :: _) :: rest => r :: item_rects rest
  | _ :: rest => item_rects rest
  end.

Definition drawing_candidates (d : drawing) : list Rect :=
  (match drawing_rect d with Some rect => [rect] | None => [] end)
  ++ item_rects (match drawing_items d with Some items => items | None => [] end).

(** The body of [for rect in candidates]: the two [continue] filters,
    then the append. *)
Fixpoint filter_candidates (page_area min_dimension max_coverage_ratio : Q)
    (candidates black_rects : list Rect) : exc (list Rect) :=
  match candidates with
  | [] => Ok black_rects
  | rect :: rest =>
      if Qltb (width rect) min_dimension || Qltb (height rect) min_dimension
      then filter_candidates page_area min_dimension max_coverage_ratio rest black_rects
      else
        let rect_area := get_area rect in
        if Qgtb rect_area 0 then
          if Qeq_bool page_area 0 then Raise division_by_zero
          else if Qgtb (rect_area / page_area) max_coverage_ratio
          then filter_candidates page_area min_dimension max_coverage_ratio rest black_rects
          else filter_candidates page_area min_dimension max_coverage_ratio rest
                 (black_rects ++ [rect])
        else filter_candidates page_area min_dimension max_coverage_ratio rest
               (black_rects ++ [rect])
  end.

(** The body of [for drawing in drawings]. *)
Fixpoint scan_drawings (page_area black_threshold min_dimension max_coverage_ratio : Q)
    (drawings : list drawing) (black_rects : list Rect) : exc (list Rect) :=
  match drawings with
  | [] => Ok black_rects
  | d :: rest =>
      match drawing_fill d with
      | None | Some [] =>
          scan_drawings page_area black_threshold min_dimension max_coverage_ratio
            rest black_rects
      | Some fill_color =>
          if negb (is_color_black (Some fill_color) black_threshold)
          then scan_drawings page_area black_threshold min_dimension
                 max_coverage_ratio rest black_rects
          else
            black_rects <- filter_candidates page_area min_dimension
                             max_coverage_ratio (drawing_candidates d) black_rects ;;
            scan_drawings page_area black_threshold min_dimension
              max_coverage_ratio rest black_rects
      end
  end.

Definition near_identical (r u : Rect) : bool :=
  Qltb (Qabs (x0 r - x0 u)) 0.5 && Qltb (Qabs (y0 r - y0 u)) 0.5
  && Qltb (Qabs (x1 r - x1 u)) 0.5 && Qltb (Qabs (y1 r - y1 u)) 0.5.

Fixpoint dedup_from (unique black_rects : list Rect) : list Rect :=
  match black_rects with
  | [] => unique
  | r :: rest =>
      if negb (existsb (near_identical r) unique)
      then dedup_from (unique ++ [r]) rest
      else dedup_from unique rest
  end.

Definition extract_black_rectangles (page : Page)
    (black_threshold min_dimension max_coverage_ratio : Q) : exc (list Rect) :=
  let page_area := get_area (page_rect page) in
  match get_drawings page with
  | Raise _ => Ok []
  | Ok drawings =>
      black_rects <- scan_drawings page_area black_threshold min_dimension
                       max_coverage_ratio drawings [] ;;
      Ok (dedup_from [] black_rects)
  end.

(** ** Text span bounds *)

Definition span_rects (s : span) : list Rect :=
  match span_bbox s with
  | Some [a; b; c; d] => [mkRect a b c d]
  | _ => []
  end.

Definition line_rects (l : line) : list Rect :=
  flat_map span_rects (match line_spans l with Some ss => ss | None => [] end).

Definition block_rects (b : block) : list Rect :=
  match block_type b with
  | Some 0%Z =>
      flat_map line_rects (match block_lines b with Some ls => ls | None => [] end)
  | _ => []
  end.

Definition get_text_rectangles (page : Page) : list Rect :=
  match get_text_rawdict page with
  | Raise _ => []
  | Ok raw =>
      flat_map block_rects (match blocks raw with Some bs => bs | None => [] end)
  end.

(** ** Page audit *)

Record PageRisk := mkPageRisk {
  page_number : Z;
  black_rect_count : Z;
  overlap_count : Z;
  confidence_score : Z;
  heuristic : string }.

Definition len {A} (l : list A) : Z := Z.of_nat (List.length l).

Definition redaction_like (black_rects : list Rect) : Z :=
  len (filter (fun r => Qgtb (width r) (height r * 3)) black_rects).

Definition audit_page (page : Page) (page_num : Z)
    (black_threshold min_overlap_area : Q) (min_hits : Z) : exc (option PageRisk) :=
  black_rects <- extract_black_rectangles page black_threshold 2.0 0.95 ;;
  match black_rects with
  | [] => Ok None
  | _ =>
    let text_rects := get_text_rectangles page in
    match text_rects with
    | [] => Ok None
    | _ =>
      let overlap_count :=
        detect_overlaps black_rects text_rects min_overlap_area (Some min_hits) in
      let score := 0%Z in
      let score := if (len black_rects >? 0)%Z then (score + 3)%Z else score in
      let score := if (overlap_count >=? min_hits)%Z then (score + 3)%Z else score in
      let score := if (redaction_like black_rects >? 0)%Z then (score + 1)%Z else score in
      let score := if (len black_rects >=? 3)%Z then (score + 1)%Z else score in
      if (overlap_count >=? min_hits)%Z
      then Ok (Some {| page_number := page_num;
                       black_rect_count := len black_rects;
                       overlap_count := overlap_count;
                       confidence_score := score;
                       heuristic := "black_fill_rect_overlap_text" |})
      else Ok None
    end
  end.

(** ** fitz.Document, paths and the file system *)

Record Document := mkDocument {
  doc_pages : list Page;
  is_encrypted : bool;
  authenticate : string -> Z;
  extract_image : Z -> exc image_dict }.

(** A [pathlib.Path]: [str(p)], [p.name] and the list of components
    that [pathlib] compares when two paths are ordered (the parts of the
    path, case-folded on Windows). *)
Record Path := mkPath {
  path_str : string;
  path_name : string;
  path_cparts : list text }.

(** What the file system answers: [fitz.open(s)], [p.exists()],
    [p.is_dir()], [p.is_file()] and [p.glob(pattern)], each of which may
    raise. *)
Record FileSystem := mkFS {
  fitz_open : string -> exc Document;
  path_exists : string -> exc bool;
  path_is_dir : string -> exc bool;
  path_is_file : string -> exc bool;
  path_glob : string -> string -> exc (list Path) }.

(** Calls made on the PDF library while one document is audited, in the
    order they are made. *)
Inductive event :=
| EvOpen (path : string)
| EvPageCount
| EvIsEncrypted
| EvAuthenticate (password : string)
| EvLoadPage (page_idx : Z)
| EvClose.

(** ** Document audit *)

Record PDFRiskReport := mkReport {
  filename : string;
  total_pages : Z;
  flagged_pages : list PageRisk;
  error : option string }.

(** The [except] clauses of [audit_pdf], first match wins. *)
Definition error_of_exception (pdf_path : Path) (e : exn) : string :=
  match exn_type e with
  | FileNotFoundError => "File not found: " ++ path_str pdf_path
  | FileDataError => "Invalid or corrupt PDF: " ++ exn_message e
  | PermissionError => "Permission denied: " ++ path_str pdf_path
  | _ => "Unexpected error: " ++ exn_type_name e ++ ": " ++ exn_message e
  end%string.

(** The [for page_idx in range(total_pages)] loop.  Returns the flagged
    pages appended so far, the exception that left the loop (if any) and
    the calls made. *)
Fixpoint audit_pages (pages : list Page) (page_idx : Z)
    (black_threshold min_overlap_area : Q) (min_hits : Z)
    (flagged_pages : list PageRisk) (trace : list event)
  : list PageRisk * option exn * list event :=
  match pages with
  | [] => (flagged_pages, None, trace)
  | page :: rest =>
      let trace := trace ++ [EvLoadPage page_idx] in
      let page_num := (page_idx + 1)%Z in
      match audit_page page page_num black_threshold min_overlap_area min_hits with
      | Raise e => (flagged_pages, Some e, trace)
      | Ok risk =>
          audit_pages rest (page_idx + 1)%Z black_threshold min_overlap_area min_hits
            (match risk with
             | Some r => flagged_pages ++ [r]
             | None => flagged_pages
             end)
            trace
      end
  end.

Definition audit_pdf (fs : FileSystem) (pdf_path : Path)
    (black_threshold min_overlap_area : Q) (min_hits : Z)
  : PDFRiskReport * list event :=
  match fitz_open fs (path_str pdf_path) with
  | Raise e =>
      ({| filename := path_name pdf_path;
          total_pages := 0;
          flagged_pages := [];
          error := Some (error_of_exception pdf_path e) |},
       [EvOpen (path_str pdf_path)])
  | Ok doc =>
      let total_pages := len (doc_pages doc) in
      let trace := [EvOpen (path_str pdf_path); EvPageCount; EvIsEncrypted] in
      let trace := if is_encrypted doc then trace ++ [EvAuthenticate ""] else trace in
      if is_encrypted doc && (authenticate doc "" =? 0)%Z then
        let error := "PDF is encrypted and requires a password"%string in
        ({| filename := path_name pdf_path;
            total_pages := 0;
            flagged_pages := [];
            error := Some error |},
         trace ++ [EvClose])
      else
        match audit_pages (doc_pages doc) 0 black_threshold min_overlap_area
                min_hits [] trace with
        | (flagged_pages, Some e, trace) =>
            ({| filename := path_name pdf_path;
                total_pages := total_pages;
                flagged_pages := flagged_pages;
                error := Some (error_of_exception pdf_path e) |},
             trace)
        | (flagged_pages, None, trace) =>
            ({| filename := path_name pdf_path;
                total_pages := total_pages;
                flagged_pages := flagged_pages;
                error := None |},
             trace ++ [EvClose])
        end
  end.

(** ** Directory audit *)

(** [not (q < p)] on paths: [pathlib] orders two paths as the lists of
    their components. *)
Definition path_leb (p q : Path) : bool :=
  not_gt (lex_compare text_compare (path_cparts p) (path_cparts q)).

(** [sorted(...)] on paths. *)
Definition sorted (l : list Path) : list Path := sort_by path_leb l.

(** The [for pdf_file in pdf_files] loop inside the [try]; a
    [PermissionError] ends it with the reports gathered so far. *)
Fixpoint audit_files (fs : FileSystem) (pdf_files : list Path)
    (black_threshold min_overlap_area : Q) (min_hits : Z)
    (reports : list PDFRiskReport) : exc (list PDFRiskReport) :=
  match pdf_files with
  | [] => Ok reports
  | pdf_file :: rest =>
      match path_is_file fs (path_str pdf_file) with
      | Raise e =>
          match exn_type e with
          | PermissionError => Ok reports
          | _ => Raise e
          end
      | Ok true =>
          let report :=
            fst (audit_pdf fs pdf_file black_threshold min_overlap_area min_hits) in
          audit_files fs rest black_threshold min_overlap_area min_hits
            (reports ++ [report])
      | Ok false =>
          audit_files fs rest black_threshold min_overlap_area min_hits reports
      end
  end.

(** The two directory checks come before the [try]: what they raise
    leaves the function.  Inside the [try], a [PermissionError] of the
    listing or of the loop is caught and the reports gathered so far are
    returned. *)
Definition audit_directory (fs : FileSystem) (dir_path : Path) (recursive : bool)
    (black_threshold min_overlap_area : Q) (min_hits : Z)
  : exc (list PDFRiskReport) :=
  let reports := [] in
  dir_exists <- path_exists fs (path_str dir_path) ;;
  if negb dir_exists then Ok reports
  else
    dir_is_dir <- path_is_dir fs (path_str dir_path) ;;
    if negb dir_is_dir then Ok reports
    else
      let pattern := (if recursive then "**/*.pdf" else "*.pdf")%string in
      match path_glob fs (path_str dir_path) pattern with
      | Raise e =>
          match exn_type e with
          | PermissionError => Ok reports
          | _ => Raise e
          end
      | Ok found =>
          let pdf_files := sorted found in
          audit_files fs pdf_files black_threshold min_overlap_area min_hits reports
      end.

(** ** OCR layer heuristic ([pdf_security_audit_advanced.py]) *)

(** [img.get(key, 0)] *)
Definition get_or_zero (v : option Z) : Z :=
  match v with Some n => n | None => 0%Z end.

(** The body of [if has_images:] after the counter is incremented; the
    inner bare [except] swallows a failing [doc.extract_image]. *)
Definition note_large_image (doc : Document) (images : list image_info)
    (has_text : bool) (page_num : Z) (ocr_pages : list Z) : list Z :=
  match images with
  | [] => ocr_pages
  | img_info :: _ =>
      let xref := image_xref img_info in
      match extract_image doc xref with
      | Raise _ => ocr_pages
      | Ok img =>
          let width := get_or_zero (image_width img) in
          let height := get_or_zero (image_height img) in
          if (width >? 1000)%Z && (height >? 1000)%Z && has_text
          then ocr_pages ++ [page_num]
          else ocr_pages
      end
  end.

(** The [for page_num, page in enumerate(doc, 1)] loop. *)
Fixpoint scan_ocr_pages (doc : Document) (pages : list Page) (page_num : Z)
    (ocr_pages : list Z) (total_image_pages total_text_pages : Z)
  : exc (list Z * Z * Z) :=
  match pages with
  | [] => Ok (ocr_pages, total_image_pages, total_text_pages)
  | page :: rest =>
      images <- get_images page ;;
      raw_text <- get_text page ;;
      let text := strip raw_text in
      let has_images := (len images >? 0)%Z in
      let has_text := (len text >? 0)%Z in
      let total_image_pages :=
        if has_images then (total_image_pages + 1)%Z else total_image_pages in
      let ocr_pages :=
        if has_images then note_large_image doc images has_text page_num ocr_pages
        else ocr_pages in
      let total_text_pages :=
        if has_text then (total_text_pages + 1)%Z else total_text_pages in
      scan_ocr_pages doc rest (page_num + 1)%Z ocr_pages
        total_image_pages total_text_pages
  end.

Definition check_ocr_layer (doc : Document) : bool * list Z * bool :=
  let is_scanned := false in
  match scan_ocr_pages doc (doc_pages doc) 1 [] 0 0 with
  | Raise _ => (false, [], false)
  | Ok (ocr_pages, total_image_pages, total_text_pages) =>
      let doc_len := len (doc_pages doc) in
      let is_scanned :=
        if Qgtb (inject_Z (len ocr_pages)) (inject_Z doc_len * 0.3)
        then true else is_scanned in
      let is_scanned :=
        if (total_image_pages =? doc_len)%Z && (total_text_pages =? doc_len)%Z
        then true else is_scanned in
      let has_ocr := (len ocr_pages >? 0)%Z in
      (has_ocr, ocr_pages, is_scanned)
  end.

(** ** Risk score ([pdf_security_audit_advanced.py]) *)

(** The fields of [AdvancedSecurityFindings] that [calculate_risk_score]
    reads. *)
Record AdvancedSecurityFindings := mkFindings {
  has_metadata : bool;
  has_hidden_text : bool;
  overlay_risk : string;
  has_attachments : bool;
  has_forms : bool;
  reviewer_names : list string;
  has_ocr_layer : bool;
  has_javascript : bool;
  has_external_links : bool;
  has_remote_resources : bool;
  has_signatures : bool;
  incremental_updates : bool;
  has_structure_tags : bool;
  has_thumbnails : bool }.

(** Truth value of a list: non-empty. *)
Definition truthy {A} (l : list A) : bool :=
  match l with [] => false | _ => true end.

Open Scope Z_scope.

Definition calculate_risk_score (findings : AdvancedSecurityFindings) : Z :=
  let score := 0 in
  let score := if has_hidden_text findings then score + 15 else score in
  let score :=
    if (overlay_risk findings =? "YES")%string
       || (overlay_risk findings =? "MAYBE")%string
    then score + (if (overlay_risk findings =? "YES")%string then 20 else 10)
    else score in
  let score := if has_signatures findings then score + 10 else score in
  let score := if has_javascript findings then score + 15 else score in
  let score :=
    if has_external_links findings || has_remote_resources findings
    then score + 10 else score in
  let score := if has_metadata findings then score + 5 else score in
  let score := if has_attachments findings then score + 5 else score in
  let score := if truthy (reviewer_names findings) then score + 5 else score in
  let score := if has_ocr_layer findings then score + 3 else score in
  let score := if incremental_updates findings then score + 5 else score in
  let score := if has_forms findings then score + 2 else score in
  let score := if has_thumbnails findings then score + 2 else score in
  let score := if has_structure_tags findings then score + 1 else score in
  Z.min score 100.

Close Scope Z_scope.

(** ** A concrete page *)

Definition text_span (a b c d : Q) (s : string) : span :=
  mkSpan (Some [a; b; c; d]) "Helvetica" 11 [mkChar s [a; b; c; d]].

Definition black_fill (r : Rect) : drawing :=
  mkDrawing (Some [0; 0; 0]) (Some r)
    (Some [[ItemOp "re"; ItemRect r; ItemNumber 1]]).

Definition text_block (spans : list span) : raw_dict :=
  mkRawDict (Some [mkBlock (Some 0%Z) (Some [mkLine (Some spans)])]).

(** A US-letter page with one black fill (0,0,20,20) and three spans. *)
Definition scenario_page : Page :=
  {| page_rect := mkRect 0 0 612 792;
     get_drawings := Ok [black_fill (mkRect 0 0 20 20)];
     get_text_rawdict :=
       Ok (text_block [text_span 5 5 10 10 "ab"; text_span 15 15 20 20 "cd";
                       text_span 100 100 110 110 "ef"]);
     get_images := Ok [];
     get_text := Ok (text_of "abcdef") |}.

(** ** Vocabulary of the statements *)

(** *** Rectangles and colours *)

(** Separated along one axis (a shared edge counts as separated). *)
Definition rects_disjoint (a b : Rect) : Prop :=
  x1 a <= x0 b \/ x1 b <= x0 a \/ y1 a <= y0 b \/ y1 b <= y0 a.

(** [a] lies fully inside [b]. *)
Definition rect_inside (a b : Rect) : Prop :=
  x0 b <= x0 a /\ y0 b <= y0 a /\ x1 a <= x1 b /\ y1 a <= y1 b.

(** Zero area. *)
Definition rect_degenerate (a : Rect) : Prop := get_area a == 0.

(** The per-space rule in the spec's words, with the code's fallback
    for the remaining arities; the difference 1 - threshold of the CMYK
    rule is the float difference. *)
Definition black_like_rule (color : option (list Q)) (threshold : Q) : Prop :=
  match color with
  | None => False
  | Some cs =>
      match cs with
      | [] => False
      | [v] => v <= threshold
      | [r; g; b] => r <= threshold /\ g <= threshold /\ b <= threshold
      | [c; m; y; k] =>
          k >= float_sub 1 threshold
          /\ c <= threshold /\ m <= threshold /\ y <= threshold
      | _ => Forall (fun c => c <= threshold) cs
      end
  end.

(** The floats written [0.15], [0.85], [0.1], [0.2] and [0.9] in
    Python. *)
Definition float_0_15 : Q := 5404319552844595 # (2 ^ 55).
Definition float_0_85 : Q := 7656119366529843 # (2 ^ 53).
Definition float_0_1 : Q := 3602879701896397 # (2 ^ 55).
Definition float_0_2 : Q := 3602879701896397 # (2 ^ 54).
Definition float_0_9 : Q := 8106479329266893 # (2 ^ 53).

(** *** Confidence score *)

(** The two optional bonuses of the confidence score. *)
Definition shape_bonus (black_rects : list Rect) : Z :=
  if (redaction_like black_rects >? 0)%Z then 1%Z else 0%Z.

Definition multiple_bonus (black_rects : list Rect) : Z :=
  if (len black_rects >=? 3)%Z then 1%Z else 0%Z.

(** *** Risk score table *)

Open Scope Z_scope.

(** The scoring table in the spec's words: each signal with whether it
    applies and its fixed weight. *)
Definition signals (f : AdvancedSecurityFindings) : list (bool * Z) :=
  [ (has_hidden_text f, 15);
    ((overlay_risk f =? "YES")%string || (overlay_risk f =? "MAYBE")%string,
     if (overlay_risk f =? "YES")%string then 20 else 10);
    (has_signatures f, 10);
    (has_javascript f, 15);
    (has_external_links f || has_remote_resources f, 10);
    (has_metadata f, 5);
    (has_attachments f, 5);
    (truthy (reviewer_names f), 5);
    (has_ocr_layer f, 3);
    (incremental_updates f, 5);
    (has_forms f, 2);
    (has_thumbnails f, 2);
    (has_structure_tags f, 1) ].

(** Sum of the weights of exactly the applicable signals. *)
Definition sum_applicable (l : list (bool * Z)) : Z :=
  fold_right Z.add 0 (map snd (filter fst l)).

(** One [if ...: score += w] statement. *)
Definition apply_signal (score : Z) (s : bool * Z) : Z :=
  if fst s then score + snd s else score.

(** Hidden text, overlay risk "YES" and JavaScript, nothing else. *)
Definition hidden_overlay_javascript_only (f : AdvancedSecurityFindings) : Prop :=
  has_hidden_text f = true /\ overlay_risk f = "YES"%string
  /\ has_javascript f = true
  /\ has_signatures f = false /\ has_external_links f = false
  /\ has_remote_resources f = false /\ has_metadata f = false
  /\ has_attachments f = false /\ reviewer_names f = []
  /\ has_ocr_layer f = false /\ incremental_updates f = false
  /\ has_forms f = false /\ has_thumbnails f = false
  /\ has_structure_tags f = false.

Definition example_findings : AdvancedSecurityFindings :=
  {| has_metadata := false; has_hidden_text := true; overlay_risk := "YES";
     has_attachments := false; has_forms := false; reviewer_names := [];
     has_ocr_layer := false; has_javascript := true;
     has_external_links := false; has_remote_resources := false;
     has_signatures := false; incremental_updates := false;
     has_structure_tags := false; has_thumbnails := false |}.

Close Scope Z_scope.

(** *** Documents and directories *)



(** [pdf_file.is_file()] answered [True]. *)
Definition is_regular_file (fs : FileSystem) (p : Path) : bool :=
  match path_is_file fs (path_str p) with Ok true => true | _ => false end.

Definition glob_pattern (recursive : bool) : string :=
  if recursive then "**/*.pdf"%string else "*.pdf"%string.

Definition no_image : Z -> exc image_dict :=
  fun _ => Raise (mkExn (OtherException "ValueError") "bad xref").

Definition plain_doc : Document :=
  {| doc_pages := [scenario_page]; is_encrypted := false;
     authenticate := fun _ => 1%Z; extract_image := no_image |}.

Definition locked_doc : Document :=
  {| doc_pages := [scenario_page]; is_encrypted := true;
     authenticate := fun _ => 0%Z; extract_image := no_image |}.

(** The reports of the regular files among [files], in that order. *)
Definition reports_of (fs : FileSystem) (black_threshold min_overlap_area : Q)
    (min_hits : Z) (files : list Path) : list PDFRiskReport :=
  map (fun p => fst (audit_pdf fs p black_threshold min_overlap_area min_hits))
    (filter (is_regular_file fs) files).

(** The POSIX path with the given components. *)
Definition posix_path (parts : list string) : Path :=
  {| path_str := String.concat "/" parts;
     path_name := last parts EmptyString;
     path_cparts := map text_of parts |}.

Definition docs_dir : Path := posix_path ["docs"]%string.
Definition path_a : Path := posix_path ["docs"; "a.pdf"]%string.
Definition path_b : Path := posix_path ["docs"; "b.pdf"]%string.
Definition path_c : Path := posix_path ["docs"; "c.pdf"]%string.

(** A directory [docs] holding a plain, an encrypted and a corrupt PDF. *)
Definition example_fs : FileSystem :=
  {| fitz_open := fun p =>
       if (p =? "docs/a.pdf")%string then Ok plain_doc
       else if (p =? "docs/b.pdf")%string then Ok locked_doc
       else Raise (mkExn FileDataError "cannot open broken document");
     path_exists := fun p => Ok (p =? "docs")%string;
     path_is_dir := fun p => Ok (p =? "docs")%string;
     path_is_file := fun _ => Ok true;
     path_glob := fun d _ =>
       if (d =? "docs")%string then Ok [path_c; path_b; path_a] else Ok [] |}.

Definition permission_denied : exn := mkExn PermissionError "Permission denied".

Definition path_sub_b : Path := posix_path ["docs"; "sub"; "b.pdf"]%string.
Definition path_z : Path := posix_path ["docs"; "z.pdf"]%string.

(** A directory [docs] holding an encrypted [a.pdf], a plain [z.pdf]
    and a subdirectory [sub] that can be listed but not searched, so
    that [is_file] on [sub/b.pdf] is refused; a directory [private]
    that cannot be listed; and a path [sealed/inner] that cannot even
    be examined. *)
Definition guarded_fs : FileSystem :=
  {| fitz_open := fun p =>
       if (p =? "docs/a.pdf")%string then Ok locked_doc else Ok plain_doc;
     path_exists := fun p =>
       if (p =? "sealed/inner")%string then Raise permission_denied
       else Ok ((p =? "docs") || (p =? "private"))%string;
     path_is_dir := fun p => Ok ((p =? "docs") || (p =? "private"))%string;
     path_is_file := fun p =>
       if (p =? "docs/sub/b.pdf")%string then Raise permission_denied else Ok true;
     path_glob := fun d _ =>
       if (d =? "docs")%string then Ok [path_z; path_sub_b; path_a]
       else Raise permission_denied |}.

(** *** Pages that differ only in their text *)

Definition option_rel {A} (R : A -> A -> Prop) (o1 o2 : option A) : Prop :=
  match o1, o2 with
  | Some a, Some b => R a b
  | None, None => True
  | _, _ => False
  end.

(** Two spans with the same bounding box; font, size and characters are
    unconstrained. *)
Definition same_span_geometry (s1 s2 : span) : Prop :=
  span_bbox s1 = span_bbox s2.

Definition same_line_geometry (l1 l2 : line) : Prop :=
  option_rel (Forall2 same_span_geometry) (line_spans l1) (line_spans l2).

Definition same_block_geometry (b1 b2 : block) : Prop :=
  block_type b1 = block_type b2
  /\ option_rel (Forall2 same_line_geometry) (block_lines b1) (block_lines b2).

(** The raw text dictionaries of two pages agree on block types, on the
    line and span structure and on every span bounding box. *)
Definition same_text_geometry (p1 p2 : Page) : Prop :=
  match get_text_rawdict p1, get_text_rawdict p2 with
  | Ok r1, Ok r2 => option_rel (Forall2 same_block_geometry) (blocks r1) (blocks r2)
  | Raise _, Raise _ => True
  | _, _ => False
  end.

(** The page with every character, font name and font size removed
    from its raw text dictionary. *)
Definition redact_span (s : span) : span :=
  {| span_bbox := span_bbox s; span_font := ""; span_size := 0; span_chars := [] |}.

Definition redact_line (l : line) : line :=
  {| line_spans := option_map (map redact_span) (line_spans l) |}.

Definition redact_block (b : block) : block :=
  {| block_type := block_type b;
     block_lines := option_map (map redact_line) (block_lines b) |}.

Definition redact_text (p : Page) : Page :=
  {| page_rect := page_rect p;
     get_drawings := get_drawings p;
     get_text_rawdict :=
       match get_text_rawdict p with
       | Ok r => Ok {| blocks := option_map (map redact_block) (blocks r) |}
       | Raise e => Raise e
       end;
     get_images := get_images p;
     get_text := Ok (text_of "") |}.

(** The scenario page with other words at the same places. *)
Definition scenario_page_other_text : Page :=
  {| page_rect := mkRect 0 0 612 792;
     get_drawings := Ok [black_fill (mkRect 0 0 20 20)];
     get_text_rawdict :=
       Ok (text_block [text_span 5 5 10 10 "SECRET"; text_span 15 15 20 20 "name";
                       text_span 100 100 110 110 "123-45-6789"]);
     get_images := Ok [];
     get_text := Ok (text_of "SECRET name 123-45-6789") |}.

(** *** OCR-layer pages *)

(** What the page accessors give when they do not raise. *)
Definition images_of (p : Page) : list image_info :=
  match get_images p with Ok images => images | Raise _ => [] end.

Definition stripped_text_of (p : Page) : text :=
  match get_text p with Ok text => strip text | Raise _ => [] end.

Definition page_has_images (p : Page) : bool := (len (images_of p) >? 0)%Z.

Definition page_has_text (p : Page) : bool := (len (stripped_text_of p) >? 0)%Z.

(** The first image of the page can be extracted and is strictly larger
    than 1000 in both dimensions. *)
Definition first_image_large (doc : Document) (p : Page) : bool :=
  match images_of p with
  | [] => false
  | img_info :: _ =>
      match extract_image doc (image_xref img_info) with
      | Ok img =>
          (get_or_zero (image_width img) >? 1000)%Z
          && (get_or_zero (image_height img) >? 1000)%Z
      | Raise _ => false
      end
  end.

Definition ocr_layer_page (doc : Document) (p : Page) : bool :=
  first_image_large doc p && page_has_text p.

(** 1-based numbers, counted from [page_num], of the pages satisfying
    [pred]. *)
Fixpoint page_numbers_where (pred : Page -> bool) (pages : list Page)
    (page_num : Z) : list Z :=
  match pages with
  | [] => []
  | p :: rest =>
      (if pred p then [page_num] else [])
      ++ page_numbers_where pred rest (page_num + 1)%Z
  end.

Definition accessors_succeed (p : Page) : Prop :=
  (exists images, get_images p = Ok images) /\ (exists text, get_text p = Ok text).

Definition image_1000 : Z -> exc image_dict :=
  fun _ => Ok {| image_width := Some 1000%Z; image_height := Some 1000%Z |}.

Definition image_2000 : Z -> exc image_dict :=
  fun _ => Ok {| image_width := Some 2000%Z; image_height := Some 2000%Z |}.

Definition scanned_page : Page :=
  {| page_rect := mkRect 0 0 612 792;
     get_drawings := Ok [];
     get_text_rawdict := Ok (text_block [text_span 72 72 200 84 "recognised"]);
     get_images := Ok [mkImageInfo 7 "Im0"];
     get_text := Ok (text_of "  recognised  ") |}.

Definition text_only_page : Page :=
  {| page_rect := mkRect 0 0 612 792;
     get_drawings := Ok [];
     get_text_rawdict := Ok (text_block [text_span 72 72 200 84 "typed"]);
     get_images := Ok [];
     get_text := Ok (text_of "typed") |}.

Definition document_of (pages : list Page) (images : Z -> exc image_dict) : Document :=
  {| doc_pages := pages; is_encrypted := false;
     authenticate := fun _ => 1%Z; extract_image := images |}.

(** One page with a 1000x1000 image and text, one page with text only. *)
Definition boundary_image_doc : Document :=
  document_of [scanned_page; text_only_page] image_1000.

(** A page whose first image (xref 3) is 100x100 and whose second image
    (xref 7) is 2000x2000, with text. *)
Definition small_then_large_page : Page :=
  {| page_rect := mkRect 0 0 612 792;
     get_drawings := Ok [];
     get_text_rawdict := Ok (text_block [text_span 72 72 200 84 "recognised"]);
     get_images := Ok [mkImageInfo 3 "Im0"; mkImageInfo 7 "Im1"];
     get_text := Ok (text_of "recognised") |}.

Definition image_by_xref : Z -> exc image_dict :=
  fun xref =>
    if (xref =? 7)%Z
    then Ok {| image_width := Some 2000%Z; image_height := Some 2000%Z |}
    else Ok {| image_width := Some 100%Z; image_height := Some 100%Z |}.

Definition second_image_doc : Document :=
  document_of [small_then_large_page; text_only_page] image_by_xref.

(** A scanned page whose text layer holds only white space: a no-break
    space (U+00A0), an em space (U+2003) and a line feed. *)
Definition blank_scan_page : Page :=
  {| page_rect := mkRect 0 0 612 792;
     get_drawings := Ok [];
     get_text_rawdict := Ok (text_block []);
     get_images := Ok [mkImageInfo 7 "Im0"];
     get_text := Ok [160; 8195; 10]%Z |}.

Definition blank_scan_doc : Document :=
  document_of [blank_scan_page; text_only_page] image_2000.

(** Ten pages, exactly three of them with a 2000x2000 image and text. *)
Definition thirty_percent_doc : Document :=
  document_of (repeat scanned_page 3 ++ repeat text_only_page 7) image_2000.

Fixpoint count_pages (pred : Page -> bool) (pages : list Page) : Z :=
  match pages with
  | [] => 0%Z
  | p :: rest => ((if pred p then 1 else 0) + count_pages pred rest)%Z
  end.

(** ** Further definitions: structural checks and statement vocabulary *)

(** *** When a page is flagged *)

(** A page whose only fill covers no text. *)
Definition far_text_page : Page :=
  {| page_rect := mkRect 0 0 612 792;
     get_drawings := Ok [black_fill (mkRect 0 0 20 20)];
     get_text_rawdict := Ok (text_block [text_span 100 100 110 110 "ef"]);
     get_images := Ok [];
     get_text := Ok (text_of "ef") |}.

(** *** Opaque fill extraction *)

(** The two size filters of the candidate loop. *)
Definition passes_filters (page_area min_dimension max_coverage_ratio : Q)
    (rect : Rect) : Prop :=
  min_dimension <= width rect /\ min_dimension <= height rect
  /\ (0 < get_area rect -> get_area rect / page_area <= max_coverage_ratio).

(** A page of zero area carrying one black fill. *)
Definition zero_area_page : Page :=
  {| page_rect := mkRect 0 0 0 0;
     get_drawings := Ok [black_fill (mkRect 0 0 20 20)];
     get_text_rawdict := Ok (text_block [text_span 5 5 10 10 "ab"]);
     get_images := Ok [];
     get_text := Ok (text_of "ab") |}.

(** *** Document audit *)

Definition extraction_succeeds (black_threshold : Q) (p : Page) : Prop :=
  exists fills, extract_black_rectangles p black_threshold 2.0 0.95 = Ok fills.

(** The PageRisks of the pages that are flagged, page [page_idx + 1]
    first. *)
Fixpoint flagged_from (pages : list Page) (page_idx : Z)
    (black_threshold min_overlap_area : Q) (min_hits : Z) : list PageRisk :=
  match pages with
  | [] => []
  | p :: rest =>
      match audit_page p (page_idx + 1) black_threshold min_overlap_area min_hits with
      | Ok (Some r) => [r]
      | _ => []
      end
      ++ flagged_from rest (page_idx + 1) black_threshold min_overlap_area min_hits
  end.

(** [n] consecutive page loads starting at index [page_idx]. *)
Fixpoint loads_from (n : nat) (page_idx : Z) : list event :=
  match n with
  | O => []
  | S n' => EvLoadPage page_idx :: loads_from n' (page_idx + 1)
  end.

(** The calls [audit_pdf] makes before it looks at any page. *)
Definition opening_calls (pdf_path : Path) (doc : Document) : list event :=
  [EvOpen (path_str pdf_path); EvPageCount; EvIsEncrypted]
  ++ (if is_encrypted doc then [EvAuthenticate ""] else []).

Definition failing_doc : Document :=
  document_of [scenario_page; zero_area_page; scenario_page] no_image.

(** A file system in which every path opens as [doc]. *)
Definition single_document_fs (doc : Document) : FileSystem :=
  {| fitz_open := fun _ => Ok doc;
     path_exists := fun _ => Ok true;
     path_is_dir := fun _ => Ok false;
     path_is_file := fun _ => Ok true;
     path_glob := fun _ _ => Ok [] |}.

(** *** Directory audit *)

(** Paths in the order of [pathlib]: component by component. *)
Definition path_le (p q : Path) : Prop := path_leb p q = true.

Definition path_a_x : Path := posix_path ["docs"; "a"; "x.pdf"]%string.
Definition path_a_b_x : Path := posix_path ["docs"; "a-b"; "x.pdf"]%string.

(** A directory [docs] with the subdirectories [a] and [a-b]: as
    strings, [docs/a-b/x.pdf] comes before [docs/a/x.pdf]; as paths,
    after it. *)
Definition nested_fs : FileSystem :=
  {| fitz_open := fun _ => Ok plain_doc;
     path_exists := fun _ => Ok true;
     path_is_dir := fun p => Ok (p =? "docs")%string;
     path_is_file := fun _ => Ok true;
     path_glob := fun _ pattern =>
       if (pattern =? "**/*.pdf")%string then Ok [path_a_b_x; path_a_x] else Ok [] |}.

(** *** Risk score *)

Open Scope Z_scope.

(** [f'] shows at least the evidence of [f]: every signal that applies
    in [f] applies in [f'] with at least the same weight. *)
Definition no_less_evidence (f f' : AdvancedSecurityFindings) : Prop :=
  Forall2 (fun s s' => fst s = true -> fst s' = true /\ snd s <= snd s')
    (signals f) (signals f').

(** The example findings with overlay risk "MAYBE" instead of "YES". *)
Definition example_findings_maybe : AdvancedSecurityFindings :=
  {| has_metadata := false; has_hidden_text := true; overlay_risk := "MAYBE";
     has_attachments := false; has_forms := false; reviewer_names := [];
     has_ocr_layer := false; has_javascript := true;
     has_external_links := false; has_remote_resources := false;
     has_signatures := false; incremental_updates := false;
     has_structure_tags := false; has_thumbnails := false |}.

Close Scope Z_scope.

(** *** OCR layer heuristic *)

(** [page.get_images()] or [page.get_text()] raises. *)
Definition accessor_raises (p : Page) : Prop :=
  (exists e, get_images p = Raise e) \/ (exists e, get_text p = Raise e).

(** A page whose text cannot be read. *)
Definition unreadable_page : Page :=
  {| page_rect := mkRect 0 0 612 792;
     get_drawings := Ok [];
     get_text_rawdict := Raise (mkExn (OtherException "RuntimeError") "bad page");
     get_images := Ok [mkImageInfo 7 "Im0"];
     get_text := Raise (mkExn (OtherException "RuntimeError") "bad page") |}.

(** *** Accessors used by the structural checks *)

(** A loop whose body may raise. *)
Fixpoint fold_exc {A S} (f : S -> A -> exc S) (l : list A) (st : S) : exc S :=
  match l with
  | [] => Ok st
  | a :: rest => st' <- f st a ;; fold_exc f rest st'
  end.

(** [page.get_text("dict")]: a span carries its text, an integer sRGB
    colour and a bounding box; an absent key is [None]. *)
Record dict_span := mkDictSpan {
  dspan_text : string;
  dspan_color : option Z;
  dspan_bbox : option (list Q) }.

Record dict_line := mkDictLine { dline_spans : option (list dict_span) }.

Record dict_block := mkDictBlock {
  dblock_type : option Z;
  dblock_lines : option (list dict_line) }.

Record text_dict := mkTextDict { dict_blocks : option (list dict_block) }.

(** One dictionary of [page.get_links()]. *)
Record link := mkLink { link_uri : option string }.

(** One form widget of [page.widgets()]. *)
Record widget := mkWidget { field_type : Z; field_name : option string }.

(** [annot.info]; reading it may raise. *)
Record annot_info := mkAnnotInfo {
  info_title : option text;
  info_subject : option text }.

Record annot := mkAnnot { annot_get_info : exc annot_info }.

(** A page as the structural checks of
    [pdf_security_audit_advanced.py] see it. *)
Record AuditPage := mkAuditPage {
  apage_rect : Rect;
  get_text_dict : exc text_dict;
  get_links : exc (list link);
  get_widgets : exc (list widget);
  get_annots : exc (list annot) }.

(** The document as those checks see it: its pages and [doc.metadata]
    (a dictionary in iteration order, [None] when there is none). *)
Record AuditDocument := mkAuditDocument {
  adoc_pages : list AuditPage;
  adoc_metadata : exc (option (list (string * option string))) }.

(** *** Hidden text scan *)

Definition white_label : string := "white-on-white text".
Definition off_label : string := "off-page text".

Definition str_in (s : string) (l : list string) : bool :=
  existsb (String.eqb s) l.

Definition index_error : exn :=
  mkExn (OtherException "IndexError") "list index out of range".

(** [bbox[i]] *)
Definition bbox_item (bbox : list Q) (i : nat) : exc Q :=
  match nth_error bbox i with
  | Some v => Ok v
  | None => Raise index_error
  end.

(** The off-page test, with the left-to-right short circuit of [or]. *)
Definition bbox_off_page (bbox : list Q) (page_rect : Rect) : exc bool :=
  b0 <- bbox_item bbox 0 ;;
  if Qltb b0 (x0 page_rect - 100) then Ok true else
  b1 <- bbox_item bbox 1 ;;
  if Qltb b1 (y0 page_rect - 100) then Ok true else
  b2 <- bbox_item bbox 2 ;;
  if Qgtb b2 (x1 page_rect + 100) then Ok true else
  b3 <- bbox_item bbox 3 ;;
  Ok (Qgtb b3 (y1 page_rect + 100)).

(** The variables of [check_hidden_text]: the three result lists and
    the two per-page flags. *)
Record hidden_scan := mkScan {
  hidden_types : list string;
  white_on_white_pages : list Z;
  offpage_pages : list Z;
  white_on_white_found : bool;
  offpage_found : bool }.

(** The body of [for span in line.get("spans", [])]. *)
Definition span_step (page_rect : Rect) (page_num : Z) (st : hidden_scan)
    (s : dict_span) : exc hidden_scan :=
  let color := match dspan_color s with Some c => c | None => 0%Z end in
  let st :=
    if (color >? 16710886)%Z then
      {| hidden_types :=
           if negb (str_in white_label (hidden_types st))
           then hidden_types st ++ [white_label] else hidden_types st;
         white_on_white_pages :=
           if negb (white_on_white_found st)
           then white_on_white_pages st ++ [page_num] else white_on_white_pages st;
         offpage_pages := offpage_pages st;
         white_on_white_found := true;
         offpage_found := offpage_found st |}
    else st in
  let bbox := match dspan_bbox s with Some b => b | None => [0; 0; 0; 0] end in
  off <- bbox_off_page bbox page_rect ;;
  if off then
    Ok {| hidden_types :=
            if negb (str_in off_label (hidden_types st))
            then hidden_types st ++ [off_label] else hidden_types st;
          white_on_white_pages := white_on_white_pages st;
          offpage_pages :=
            if negb (offpage_found st)
            then offpage_pages st ++ [page_num] else offpage_pages st;
          white_on_white_found := white_on_white_found st;
          offpage_found := true |}
  else Ok st.

Definition line_step (page_rect : Rect) (page_num : Z) (st : hidden_scan)
    (l : dict_line) : exc hidden_scan :=
  fold_exc (span_step page_rect page_num)
    (match dline_spans l with Some ss => ss | None => [] end) st.

Definition block_step (page_rect : Rect) (page_num : Z) (st : hidden_scan)
    (b : dict_block) : exc hidden_scan :=
  match dblock_type b with
  | Some 0%Z =>
      fold_exc (line_step page_rect page_num)
        (match dblock_lines b with Some ls => ls | None => [] end) st
  | _ => Ok st
  end.

(** The body of [for page_num, page in enumerate(doc, 1)]; the progress
    lines written to stderr are not represented. *)
Definition page_step (page_num : Z) (st : hidden_scan) (page : AuditPage)
  : exc hidden_scan :=
  let page_rect := apage_rect page in
  text_dict <- get_text_dict page ;;
  let st :=
    {| hidden_types := hidden_types st;
       white_on_white_pages := white_on_white_pages st;
       offpage_pages := offpage_pages st;
       white_on_white_found := false;
       offpage_found := false |} in
  fold_exc (block_step page_rect page_num)
    (match dict_blocks text_dict with Some bs => bs | None => [] end) st.

Fixpoint scan_hidden_pages (pages : list AuditPage) (page_num : Z)
    (st : hidden_scan) : exc hidden_scan :=
  match pages with
  | [] => Ok st
  | page :: rest =>
      st' <- page_step page_num st page ;;
      scan_hidden_pages rest (page_num + 1)%Z st'
  end.

Definition check_hidden_text (doc : AuditDocument)
  : bool * list string * list Z * list Z :=
  match scan_hidden_pages (adoc_pages doc) 1
          {| hidden_types := []; white_on_white_pages := []; offpage_pages := [];
             white_on_white_found := false; offpage_found := false |} with
  | Raise _ => (false, [], [], [])
  | Ok st =>
      let has_hidden := (len (hidden_types st) >? 0)%Z in
      (has_hidden, hidden_types st, white_on_white_pages st, offpage_pages st)
  end.

(** The spans the scan visits on a page: those of the lines of the
    text blocks (type 0), in order. *)
Definition dict_line_spans (l : dict_line) : list dict_span :=
  match dline_spans l with Some ss => ss | None => [] end.

Definition dict_block_spans (b : dict_block) : list dict_span :=
  match dblock_type b with
  | Some 0%Z =>
      flat_map dict_line_spans
        (match dblock_lines b with Some ls => ls | None => [] end)
  | _ => []
  end.

Definition text_dict_spans (td : text_dict) : list dict_span :=
  flat_map dict_block_spans
    (match dict_blocks td with Some bs => bs | None => [] end).

Definition span_is_white (s : dict_span) : bool :=
  (match dspan_color s with Some c => c | None => 0%Z end >? 16710886)%Z.

Definition span_bbox_or_default (s : dict_span) : list Q :=
  match dspan_bbox s with Some b => b | None => [0; 0; 0; 0] end.

Definition span_is_off_page (page_rect : Rect) (s : dict_span) : bool :=
  match bbox_off_page (span_bbox_or_default s) page_rect with
  | Ok b => b
  | Raise _ => false
  end.

(** The page can be scanned: its text dictionary is available and no
    visited span has a bounding box too short for the off-page test. *)
Definition page_scannable (p : AuditPage) : Prop :=
  exists td,
    get_text_dict p = Ok td
    /\ Forall (fun s => exists b,
                 bbox_off_page (span_bbox_or_default s) (apage_rect p) = Ok b)
         (text_dict_spans td).

Definition page_unscannable (p : AuditPage) : Prop :=
  (exists e, get_text_dict p = Raise e)
  \/ exists td s e,
       get_text_dict p = Ok td /\ In s (text_dict_spans td)
       /\ bbox_off_page (span_bbox_or_default s) (apage_rect p) = Raise e.

Definition page_has_white_text (p : AuditPage) : bool :=
  match get_text_dict p with
  | Ok td => existsb span_is_white (text_dict_spans td)
  | Raise _ => false
  end.

Definition page_has_off_page_text (p : AuditPage) : bool :=
  match get_text_dict p with
  | Ok td => existsb (span_is_off_page (apage_rect p)) (text_dict_spans td)
  | Raise _ => false
  end.

(** Numbers, counted from [n], of the elements satisfying [pred]. *)
Fixpoint numbers_where {A} (pred : A -> bool) (l : list A) (n : Z) : list Z :=
  match l with
  | [] => []
  | a :: rest => (if pred a then [n] else []) ++ numbers_where pred rest (n + 1)%Z
  end.

(** The labels of the kinds of hidden text found, white first. *)
Definition labels_of (white off : bool) : list string :=
  (if white then [white_label] else []) ++ (if off then [off_label] else []).

(** How a run of span steps on page [n] changes the scan state, given
    whether a white span ([w]) and an off-page span ([o]) were met. *)
Definition scan_rel (n : Z) (w o : bool) (st st' : hidden_scan) : Prop :=
  white_on_white_found st' = white_on_white_found st || w
  /\ offpage_found st' = offpage_found st || o
  /\ white_on_white_pages st'
     = (if negb (white_on_white_found st) && w
        then white_on_white_pages st ++ [n] else white_on_white_pages st)
  /\ offpage_pages st'
     = (if negb (offpage_found st) && o
        then offpage_pages st ++ [n] else offpage_pages st)
  /\ (forall l, In l (hidden_types st')
                <-> In l (hidden_types st) \/ In l (labels_of w o))
  /\ (NoDup (hidden_types st) -> NoDup (hidden_types st')).

Definition initial_scan : hidden_scan :=
  {| hidden_types := []; white_on_white_pages := []; offpage_pages := [];
     white_on_white_found := false; offpage_found := false |}.

(** A US-letter page with one text block holding the given spans. *)
Definition dict_page (spans : list dict_span) : AuditPage :=
  {| apage_rect := mkRect 0 0 612 792;
     get_text_dict :=
       Ok (mkTextDict (Some [mkDictBlock (Some 0%Z) (Some [mkDictLine (Some spans)])]));
     get_links := Ok [];
     get_widgets := Ok [];
     get_annots := Ok [] |}.

Definition plain_span : dict_span :=
  mkDictSpan "visible" (Some 0%Z) (Some [72; 72; 200; 84]).
Definition white_span : dict_span :=
  mkDictSpan "hidden" (Some 16777215%Z) (Some [72; 100; 200; 112]).
Definition far_span : dict_span :=
  mkDictSpan "outside" (Some 0%Z) (Some [72; 2000; 200; 2012]).
Definition short_box_span : dict_span :=
  mkDictSpan "odd" (Some 16777215%Z) (Some [72]).

Definition hidden_text_doc : AuditDocument :=
  {| adoc_pages := [dict_page [plain_span]; dict_page [far_span; white_span];
                    dict_page [plain_span; white_span]];
     adoc_metadata := Ok None |}.

Definition short_box_doc : AuditDocument :=
  {| adoc_pages := [dict_page [white_span]; dict_page [short_box_span]];
     adoc_metadata := Ok None |}.

(** *** External links *)

Definition default_string (v : option string) : string :=
  match v with Some s => s | None => EmptyString end.

(** Truth value of a string: non-empty. *)
Definition str_truthy (s : string) : bool := negb (s =? "")%string.

Definition is_http (uri : string) : bool :=
  String.prefix "http://" uri || String.prefix "https://" uri.

(** [set.add]: the set is kept as the list of its distinct elements. *)
Definition set_add (s : string) (set : list string) : list string :=
  if str_in s set then set else set ++ [s].

(** [sorted(list(...))] on distinct strings. *)
Fixpoint insert_string (s : string) (l : list string) : list string :=
  match l with
  | [] => [s]
  | t :: rest =>
      if String.leb s t then s :: l else t :: insert_string s rest
  end.

Definition sort_strings (l : list string) : list string :=
  fold_right insert_string [] l.

(** The body of [for link in links]. *)
Definition link_step (urls : list string) (l : link) : list string :=
  let uri := default_string (link_uri l) in
  if str_truthy uri && is_http uri then set_add uri urls else urls.

Fixpoint scan_links (pages : list AuditPage) (urls : list string)
  : exc (list string) :=
  match pages with
  | [] => Ok urls
  | page :: rest =>
      links <- get_links page ;;
      scan_links rest (fold_left link_step links urls)
  end.

Definition check_external_links (doc : AuditDocument) : bool * list string :=
  match scan_links (adoc_pages doc) [] with
  | Raise _ => (false, [])
  | Ok urls =>
      let url_list := sort_strings urls in
      ((len url_list >? 0)%Z, url_list)
  end.

Definition str_lt (s t : string) : Prop := String.ltb s t = true.
Definition str_le (s t : string) : Prop := String.leb s t = true.

(** The URI of some link of some page whose links can be read. *)
Definition linked_uri (doc : AuditDocument) (u : string) : Prop :=
  exists page links l,
    In page (adoc_pages doc) /\ get_links page = Ok links /\ In l links
    /\ link_uri l = Some u.

Definition links_page (uris : list (option string)) : AuditPage :=
  {| apage_rect := mkRect 0 0 612 792;
     get_text_dict := Ok (mkTextDict (Some []));
     get_links := Ok (map mkLink uris);
     get_widgets := Ok [];
     get_annots := Ok [] |}.

Definition links_doc : AuditDocument :=
  {| adoc_pages :=
       [links_page [Some "https://example.org/b"; None; Some "mailto:someone"];
        links_page [Some "http://example.org/a"; Some "https://example.org/b"]]%string;
     adoc_metadata := Ok None |}.

(** *** Digital signatures *)

(** The body of [for widget in widgets]. *)
Definition widget_step (st : Z * list string) (w : widget) : Z * list string :=
  let '(signature_count, signer_names) := st in
  if (field_type w =? 7)%Z then
    ((signature_count + 1)%Z,
     match field_name w with
     | Some name => if str_truthy name then signer_names ++ [name] else signer_names
     | None => signer_names
     end)
  else st.

Fixpoint scan_widgets (pages : list AuditPage) (st : Z * list string)
  : exc (Z * list string) :=
  match pages with
  | [] => Ok st
  | page :: rest =>
      widgets <- get_widgets page ;;
      scan_widgets rest (fold_left widget_step widgets st)
  end.

Definition check_signatures (doc : AuditDocument) : bool * Z * list string :=
  match scan_widgets (adoc_pages doc) (0%Z, []) with
  | Raise _ => (false, 0%Z, [])
  | Ok (signature_count, signer_names) =>
      ((signature_count >? 0)%Z, signature_count, signer_names)
  end.

Definition widgets_of (p : AuditPage) : list widget :=
  match get_widgets p with Ok ws => ws | Raise _ => [] end.

Definition is_signature_field (w : widget) : bool := (field_type w =? 7)%Z.

(** The name of a signature field, when it has a non-empty one. *)
Definition signer_name_of (w : widget) : list string :=
  match field_name w with
  | Some name => if str_truthy name then [name] else []
  | None => []
  end.

Definition widgets_page (ws : list widget) : AuditPage :=
  {| apage_rect := mkRect 0 0 612 792;
     get_text_dict := Ok (mkTextDict (Some []));
     get_links := Ok [];
     get_widgets := Ok ws;
     get_annots := Ok [] |}.

Definition signed_doc : AuditDocument :=
  {| adoc_pages :=
       [widgets_page [mkWidget 2 (Some "agree"); mkWidget 7 (Some "Signature1")];
        widgets_page [mkWidget 7 None; mkWidget 7 (Some "")]]%string;
     adoc_metadata := Ok None |}.

(** *** Metadata *)

(** [details[k] = v] on a dictionary kept in insertion order. *)
Fixpoint dict_set (k v : string) (d : list (string * string))
  : list (string * string) :=
  match d with
  | [] => [(k, v)]
  | (k', v') :: rest =>
      if (k =? k')%string then (k, v) :: rest else (k', v') :: dict_set k v rest
  end.

(** Truth value of a metadata value: a non-empty string. *)
Definition value_truthy (v : option string) : bool :=
  match v with Some s => str_truthy s | None => false end.

(** The body of [for k, v in metadata.items()]. *)
Definition metadata_step (st : list string * list (string * string))
    (kv : string * option string) : list string * list (string * string) :=
  let '(keys, details) := st in
  let '(k, v) := kv in
  if value_truthy v
  then (keys ++ [k], dict_set k (String.substring 0 100 (default_string v)) details)
  else st.

Definition check_metadata_detailed (doc : AuditDocument)
  : bool * list string * list (string * string) :=
  match adoc_metadata doc with
  | Raise _ => (false, [], [])
  | Ok None => (false, [], [])
  | Ok (Some []) => (false, [], [])
  | Ok (Some metadata) =>
      let '(keys, details) := fold_left metadata_step metadata ([], []) in
      ((len keys >? 0)%Z, keys, details)
  end.

(** The entries with a non-empty value, values cut to 100 characters. *)
Definition truncated_entries (metadata : list (string * option string))
  : list (string * string) :=
  map (fun kv => (fst kv, String.substring 0 100 (default_string (snd kv))))
    (filter (fun kv => value_truthy (snd kv)) metadata).

Definition metadata_doc : AuditDocument :=
  {| adoc_pages := [];
     adoc_metadata :=
       Ok (Some [("title", Some "Report"); ("author", None);
                 ("subject", Some ""); ("producer", Some "Scanner 1.0")]%string) |}.

(** *** Reviewer names *)

(** [info.get(key, "")] *)
Definition default_text (v : option text) : text :=
  match v with Some s => s | None => [] end.

Definition text_eqb (s t : text) : bool :=
  match text_compare s t with Eq => true | _ => false end.

Definition text_in (s : text) (l : list text) : bool := existsb (text_eqb s) l.

(** Truth value of a string: non-empty. *)
Definition text_truthy (s : text) : bool :=
  match s with [] => false | _ :: _ => true end.

(** [x and x not in ["", "None"]] *)
Definition is_reviewer_name (s : text) : bool :=
  text_truthy s && negb (text_in s [text_of ""; text_of "None"]).

(** [set.add]: the set is kept as the list of its distinct elements. *)
Definition set_add_text (s : text) (set : list text) : list text :=
  if text_in s set then set else set ++ [s].

Definition text_leb (s t : text) : bool := not_gt (text_compare s t).

(** The body of [for annot in annots]; the inner bare [except] skips an
    annotation whose info cannot be read. *)
Definition annot_step (reviewers : list text) (a : annot) : list text :=
  match annot_get_info a with
  | Raise _ => reviewers
  | Ok info =>
      let author := strip (default_text (info_title info)) in
      let reviewers :=
        if is_reviewer_name author then set_add_text author reviewers
        else reviewers in
      let subject := strip (default_text (info_subject info)) in
      if is_reviewer_name subject then set_add_text subject reviewers
      else reviewers
  end.

Fixpoint scan_annots (pages : list AuditPage) (reviewers : list text)
  : exc (list text) :=
  match pages with
  | [] => Ok reviewers
  | page :: rest =>
      annots <- get_annots page ;;
      scan_annots rest (fold_left annot_step annots reviewers)
  end.

Definition check_reviewer_info (doc : AuditDocument) : list text :=
  match scan_annots (adoc_pages doc) [] with
  | Raise _ => []
  | Ok reviewers => sort_by text_leb reviewers
  end.

(** Strictly smaller, as strings compare. *)
Definition text_lt (s t : text) : Prop := text_compare s t = Lt.

(** [r] is the stripped title or subject of an annotation whose info
    can be read, on some page of [pages]. *)
Definition annotated_name (pages : list AuditPage) (r : text) : Prop :=
  exists page annots a info,
    In page pages /\ get_annots page = Ok annots /\ In a annots
    /\ annot_get_info a = Ok info
    /\ (r = strip (default_text (info_title info))
        \/ r = strip (default_text (info_subject info))).

Definition annots_page (infos : list (exc annot_info)) : AuditPage :=
  {| apage_rect := mkRect 0 0 612 792;
     get_text_dict := Ok (mkTextDict (Some []));
     get_links := Ok [];
     get_widgets := Ok [];
     get_annots := Ok (map mkAnnot infos) |}.

(** Titles padded with a space, with no-break spaces (U+00A0) and with
    an em space (U+2003). *)
Definition reviewed_doc : AuditDocument :=
  {| adoc_pages :=
       [annots_page [Ok (mkAnnotInfo (Some (text_of " J. Smith "))
                           (Some (text_of "None")));
                     Raise (mkExn (OtherException "RuntimeError") "bad annot")];
        annots_page [Ok (mkAnnotInfo (Some (160 :: text_of "A. Jones" ++ [160])%Z)
                           None);
                     Ok (mkAnnotInfo (Some (text_of "J. Smith" ++ [8195])%Z)
                           (Some (text_of "  ")))]];
     adoc_metadata := Ok None |}.

(** *** Incremental updates ([pdf_security_audit.py]) *)

(** [data.count(sub)]: occurrences found scanning left to right, the
    scan resuming after each occurrence; [skip] characters are still
    to be passed over. *)
Fixpoint count_from (sub data : string) (skip : nat) : nat :=
  match data with
  | EmptyString => 0
  | String _ rest =>
      match skip with
      | S k => count_from sub rest k
      | O =>
          if String.prefix sub data
          then S (count_from sub rest (String.length sub - 1))
          else count_from sub rest 0
      end
  end.

Definition bytes_count (sub data : string) : nat := count_from sub data 0.

(** [f.seek(offset); f.read()]: the bytes from [offset] on. *)
Fixpoint bytes_from (offset : nat) (data : string) : string :=
  match offset, data with
  | O, _ => data
  | S k, EmptyString => EmptyString
  | S k, String _ rest => bytes_from k rest
  end.

(** [file] is the content of the file, or the exception [open] raises. *)
Definition check_incremental_updates (file : exc string) : bool :=
  match file with
  | Raise _ => false
  | Ok bytes =>
      let size := Z.of_nat (String.length bytes) in
      let chunk_size := Z.min 65536 size in
      let data := bytes_from (Z.to_nat (Z.max 0 (size - chunk_size))) bytes in
      let count := Z.of_nat (bytes_count "startxref" data) in
      (count >? 1)%Z
  end.

(** The tail of a file that was saved twice. *)
Definition twice_saved : string :=
  "trailer startxref 116 %%EOF trailer startxref 942 %%EOF".

(** * Properties *)

(** ** Comparisons on rationals *)

Lemma Qleb_true a b : Qleb a b = true <-> a <= b.
Proof. apply Qle_bool_iff. Qed.

Lemma Qleb_false a b : Qleb a b = false <-> b < a.
Proof.
  unfold Qleb. rewrite <- not_true_iff_false, Qle_bool_iff.
  split; [apply Qnot_le_lt | apply Qlt_not_le].
Qed.


Lemma Qgtb_true a b : Qgtb a b = true <-> b < a.
Proof. unfold Qgtb. rewrite negb_true_iff. apply Qleb_false. Qed.

Lemma Qgeb_true a b : Qgeb a b = true <-> b <= a.
Proof. apply Qle_bool_iff. Qed.

(** Case split on every rational comparison in the goal, innermost
    first, leaving the outcome as an order fact among the hypotheses. *)
Ltac split_comparisons :=
  unfold Qleb, Qltb, Qgeb, Qgtb in *;
  repeat match goal with
  | |- context [Qle_bool ?a ?b] =>
      lazymatch a with context [Qle_bool _ _] => fail | _ => idtac end;
      lazymatch b with context [Qle_bool _ _] => fail | _ => idtac end;
      let H := fresh "Hcmp" in
      destruct (Qle_bool a b) eqn:H;
      [ apply Qle_bool_iff in H
      | apply (proj1 (Qleb_false a b)) in H ];
      cbn [negb andb orb]
  end.

(** ** Rectangle overlap *)

Lemma overlap_area_is_area_of_intersection a b :
  compute_overlap_area a b == get_area (rect_and a b).
Proof.
  unfold compute_overlap_area, get_area, is_empty, is_valid, width, height.
  generalize (rect_and a b). intros [X0 Y0 X1 Y1]. cbn [x0 y0 x1 y1].
  split_comparisons; try reflexivity; nra.
Qed.

Lemma width_rect_and_comm a b : width (rect_and a b) == width (rect_and b a).
Proof.
  unfold width, rect_and. cbn [x0 x1].
  split_comparisons; lra.
Qed.

Lemma height_rect_and_comm a b : height (rect_and a b) == height (rect_and b a).
Proof.
  unfold height, rect_and. cbn [y0 y1].
  split_comparisons; lra.
Qed.

Lemma rect_and_self a : rect_and a a = a.
Proof.
  destruct a as [X0 Y0 X1 Y1]. unfold rect_and. cbn [x0 y0 x1 y1].
  split_comparisons; reflexivity.
Qed.

Lemma width_nonneg r : 0 <= width r.
Proof. unfold width. split_comparisons; lra. Qed.

Lemma height_nonneg r : 0 <= height r.
Proof. unfold height. split_comparisons; lra. Qed.

Lemma degenerate_iff_empty r : rect_degenerate r <-> is_empty r = true.
Proof.
  unfold rect_degenerate, get_area, is_empty, width, height.
  destruct r as [X0 Y0 X1 Y1]. cbn [x0 y0 x1 y1].
  split_comparisons; split; intros H; try reflexivity; try discriminate; try nra.
Qed.

Lemma width_rect_and_le_l a b : width (rect_and a b) <= width a.
Proof.
  unfold width, rect_and. cbn [x0 x1].
  split_comparisons; lra.
Qed.

Lemma height_rect_and_le_l a b : height (rect_and a b) <= height a.
Proof.
  unfold height, rect_and. cbn [y0 y1].
  split_comparisons; lra.
Qed.

Lemma overlap_area_le_l a b : compute_overlap_area a b <= get_area a.
Proof.
  rewrite overlap_area_is_area_of_intersection. unfold get_area.
  pose proof (width_rect_and_le_l a b). pose proof (height_rect_and_le_l a b).
  pose proof (width_nonneg (rect_and a b)). pose proof (height_nonneg (rect_and a b)).
  nra.
Qed.

Lemma overlap_area_nonneg a b : 0 <= compute_overlap_area a b.
Proof.
  rewrite overlap_area_is_area_of_intersection. unfold get_area.
  pose proof (width_nonneg (rect_and a b)). pose proof (height_nonneg (rect_and a b)).
  nra.
Qed.

Lemma overlap_area_comm a b :
  compute_overlap_area a b == compute_overlap_area b a.
Proof.
  rewrite !overlap_area_is_area_of_intersection. unfold get_area.
  rewrite width_rect_and_comm, height_rect_and_comm. reflexivity.
Qed.

Lemma overlap_area_disjoint a b :
  rects_disjoint a b -> compute_overlap_area a b == 0.
Proof.
  intros Hd. rewrite overlap_area_is_area_of_intersection.
  unfold get_area, width, height, rect_and, rects_disjoint in *.
  cbn [x0 y0 x1 y1].
  split_comparisons; nra.
Qed.

Lemma overlap_area_inside a b :
  rect_inside a b -> compute_overlap_area a b == get_area a.
Proof.
  intros (Hx0 & Hy0 & Hx1 & Hy1).
  rewrite overlap_area_is_area_of_intersection.
  assert (Hw : width (rect_and a b) == width a).
  { unfold width, rect_and. cbn [x0 x1]. split_comparisons; lra. }
  assert (Hh : height (rect_and a b) == height a).
  { unfold height, rect_and. cbn [y0 y1]. split_comparisons; lra. }
  unfold get_area. rewrite Hw, Hh. reflexivity.
Qed.

(** C5.  [compute_overlap_area] is commutative, is 0 on disjoint
    rectangles and whenever either rectangle has zero area, gives a
    rectangle's own area when it is intersected with itself, and gives
    area(a) when a lies fully inside b. *)
Theorem compute_overlap_area_algebra (a b : Rect) :
  compute_overlap_area a b == compute_overlap_area b a
  /\ (rects_disjoint a b -> compute_overlap_area a b == 0)
  /\ (rect_degenerate a \/ rect_degenerate b -> compute_overlap_area a b == 0)
  /\ compute_overlap_area a a == get_area a
  /\ (rect_inside a b -> compute_overlap_area a b == get_area a).
Proof.
  split; [apply overlap_area_comm|].
  split; [apply overlap_area_disjoint|].
  split.
  - intros [Ha | Hb].
    + pose proof (overlap_area_le_l a b) as Hle.
      pose proof (overlap_area_nonneg a b) as Hge.
      unfold rect_degenerate in Ha. lra.
    + pose proof (overlap_area_le_l b a) as Hle.
      pose proof (overlap_area_nonneg b a) as Hge.
      rewrite (overlap_area_comm a b).
      unfold rect_degenerate in Hb. lra.
  - split; [|apply overlap_area_inside].
    rewrite overlap_area_is_area_of_intersection, rect_and_self. reflexivity.
Qed.

Lemma compute_overlap_area_algebra_witness :
  compute_overlap_area (mkRect 5 5 10 10) (mkRect 0 0 20 20) == 25
  /\ compute_overlap_area (mkRect 0 0 10 10) (mkRect 10 0 20 10) == 0
  /\ compute_overlap_area (mkRect 3 3 3 9) (mkRect 0 0 20 20) == 0.
Proof.
  split; [|split].
  - destruct (compute_overlap_area_algebra (mkRect 5 5 10 10) (mkRect 0 0 20 20))
      as (_ & _ & _ & _ & Hin).
    rewrite Hin; [reflexivity|].
    unfold rect_inside; cbn; repeat split; discriminate.
  - destruct (compute_overlap_area_algebra (mkRect 0 0 10 10) (mkRect 10 0 20 10))
      as (_ & Hdis & _).
    apply Hdis. left. cbn. discriminate.
  - destruct (compute_overlap_area_algebra (mkRect 3 3 3 9) (mkRect 0 0 20 20))
      as (_ & _ & Hdeg & _).
    apply Hdeg. left. reflexivity.
Defined.

(** ** Float subtraction *)

Lemma pow2_pos e : 0 < pow2 e.
Proof. apply Qpower_0_lt. reflexivity. Qed.

Lemma pow2_add a b : pow2 (a + b) == pow2 a * pow2 b.
Proof. apply Qpower_plus. discriminate. Qed.

Lemma pow2_le a b : (a <= b)%Z -> pow2 a <= pow2 b.
Proof. intros H. apply Qpower_le_compat_l; [exact H | discriminate]. Qed.

Lemma pow2_Z n : (0 <= n)%Z -> pow2 n == inject_Z (2 ^ n).
Proof. intros H. symmetry. apply (Zpower_Qpower 2 n H). Qed.

Lemma round_half_even_bounds x :
  (Qfloor x <= round_half_even x <= Qfloor x + 1)%Z.
Proof.
  unfold round_half_even.
  destruct (Qcompare (x - inject_Z (Qfloor x)) (1 # 2)); [destruct (Z.even _) | |]; lia.
Qed.

Lemma Qcompare_cases a b :
  match Qcompare a b with Eq => a == b | Lt => a < b | Gt => b < a end.
Proof.
  destruct (Qcompare a b) eqn:C.
  - apply Qeq_alt. exact C.
  - apply Qlt_alt. exact C.
  - apply Qgt_alt. exact C.
Qed.

Lemma round_half_even_le x y : x <= y -> (round_half_even x <= round_half_even y)%Z.
Proof.
  intros Hxy.
  pose proof (Qfloor_resp_le _ _ Hxy) as Hf.
  destruct (Z.eq_dec (Qfloor x) (Qfloor y)) as [E | N].
  - unfold round_half_even. rewrite <- E.
    pose proof (Qcompare_cases (x - inject_Z (Qfloor x)) (1 # 2)) as Cx.
    pose proof (Qcompare_cases (y - inject_Z (Qfloor x)) (1 # 2)) as Cy.
    destruct (Qcompare (x - inject_Z (Qfloor x)) (1 # 2));
      destruct (Qcompare (y - inject_Z (Qfloor x)) (1 # 2));
      try (destruct (Z.even (Qfloor x))); try lia; exfalso; lra.
  - pose proof (round_half_even_bounds x). pose proof (round_half_even_bounds y). lia.
Qed.

Lemma round_half_even_Z n : round_half_even (inject_Z n) = n.
Proof.
  unfold round_half_even. rewrite Qfloor_Z.
  pose proof (Qcompare_cases (inject_Z n - inject_Z n) (1 # 2)) as C.
  destruct (Qcompare (inject_Z n - inject_Z n) (1 # 2)); try reflexivity; exfalso; lra.
Qed.

Lemma round_half_even_eq x n : x == inject_Z n -> round_half_even x = n.
Proof.
  intros E.
  assert (H1 : x <= inject_Z n) by lra.
  assert (H2 : inject_Z n <= x) by lra.
  apply round_half_even_le in H1. apply round_half_even_le in H2.
  rewrite round_half_even_Z in *. lia.
Qed.

Lemma round_to_le e x y : x <= y -> round_to e x <= round_to e y.
Proof.
  intros Hxy. unfold round_to.
  pose proof (pow2_pos e) as Hp.
  apply Qmult_le_compat_r; [| lra].
  rewrite <- Zle_Qle. apply round_half_even_le.
  apply Qmult_le_compat_r; [exact Hxy |].
  apply Qlt_le_weak, Qinv_lt_0_compat, Hp.
Qed.

Lemma round_to_point e n : round_to e (inject_Z n * pow2 e) == inject_Z n * pow2 e.
Proof.
  unfold round_to. pose proof (pow2_pos e) as Hp.
  rewrite (round_half_even_eq (inject_Z n * pow2 e / pow2 e) n); [reflexivity |].
  field. lra.
Qed.

Lemma round_to_upper e n x : x <= inject_Z n * pow2 e -> round_to e x <= inject_Z n * pow2 e.
Proof.
  intros H. apply (round_to_le e) in H. rewrite round_to_point in H. exact H.
Qed.

Lemma round_to_lower e n x : inject_Z n * pow2 e <= x -> inject_Z n * pow2 e <= round_to e x.
Proof.
  intros H. apply (round_to_le e) in H. rewrite round_to_point in H. exact H.
Qed.

Lemma floor_log2_spec m :
  0 < m -> pow2 (floor_log2 m) <= m /\ m < pow2 (floor_log2 m + 1).
Proof.
  intros Hm. unfold floor_log2.
  destruct m as [n d]. cbn [Qnum Qden].
  assert (Hn : (0 < n)%Z).
  { unfold Qlt in Hm. cbn in Hm. lia. }
  set (a := Z.log2 n). set (b := Z.log2 (Z.pos d)).
  assert (Ha : (0 <= a)%Z) by apply Z.log2_nonneg.
  assert (Hb : (0 <= b)%Z) by apply Z.log2_nonneg.
  destruct (Z.log2_spec n Hn) as [Ha1 Ha2]. fold a in Ha1, Ha2.
  destruct (Z.log2_spec (Z.pos d) (Pos2Z.is_pos d)) as [Hb1 Hb2]. fold b in Hb1, Hb2.
  rewrite Zle_Qle in Ha1, Hb1. rewrite Zlt_Qlt in Ha2, Hb2.
  replace (Z.succ a) with (a + 1)%Z in Ha2 by lia.
  replace (Z.succ b) with (b + 1)%Z in Hb2 by lia.
  rewrite <- pow2_Z in Ha1, Ha2, Hb1, Hb2 by lia.
  rewrite pow2_add in Ha2, Hb2.
  change (pow2 1) with 2 in Ha2, Hb2.
  pose proof (pow2_pos a) as Pa. pose proof (pow2_pos b) as Pb.
  assert (Hl : pow2 (a - b) * pow2 b == pow2 a).
  { rewrite <- pow2_add. replace (a - b + b)%Z with a by lia. reflexivity. }
  assert (Hl1 : pow2 (a - b - 1) * 2 == pow2 (a - b)).
  { transitivity (pow2 (a - b - 1) * pow2 1); [reflexivity |].
    rewrite <- pow2_add.
    replace (a - b - 1 + 1)%Z with (a - b)%Z by lia. reflexivity. }
  assert (Hl2 : pow2 (a - b + 1) == pow2 (a - b) * 2).
  { rewrite pow2_add. reflexivity. }
  assert (Hnd : (n # d) * inject_Z (Z.pos d) == inject_Z n).
  { unfold Qeq, Qmult, inject_Z. cbn. lia. }
  pose proof (pow2_pos (a - b)) as Pl. pose proof (pow2_pos (a - b - 1)) as Pl1.
  assert (Pd : 0 < inject_Z (Z.pos d)) by (unfold Qlt; cbn; lia).
  set (D := inject_Z (Z.pos d)) in *. set (N := inject_Z n) in *.
  set (A := pow2 a) in *. set (B := pow2 b) in *.
  set (L := pow2 (a - b)) in *. set (L1 := pow2 (a - b - 1)) in *.
  set (m := n # d) in *.
  destruct (Qle_bool L m) eqn:T.
  - apply Qle_bool_iff in T. split; [exact T |].
    rewrite Hl2.
    (* m * D = N < 2 A = 2 L B <= 2 L D *)
    apply Qnot_le_lt. intros C.
    assert (L * 2 * D <= m * D) by (apply Qmult_le_compat_r; lra).
    assert (L * B <= L * D) by (apply Qmult_le_l; lra).
    nra.
  - assert (T' : m < L).
    { apply Qnot_le_lt. intros C. apply Qle_bool_iff in C. congruence. }
    replace (a - b - 1 + 1)%Z with (a - b)%Z by lia. fold L. split; [| exact T'].
    apply Qnot_lt_le. intros C. fold L1 in C.
    assert (m * D < L1 * D) by (apply Qmult_lt_compat_r; lra).
    assert (L1 * D < L1 * (B * 2)) by (apply Qmult_lt_l; lra).
    nra.
Qed.

Lemma ulp_exponent_spec x :
  ~ x == 0 ->
  Qabs x < pow2 (ulp_exponent x + 53)
  /\ (ulp_exponent x = (-1074)%Z \/ pow2 (ulp_exponent x + 52) <= Qabs x)
  /\ (-1074 <= ulp_exponent x)%Z.
Proof.
  intros Hx.
  assert (Hm : 0 < Qabs x).
  { apply Qabs_case; intros H; apply Qnot_le_lt; intros C; apply Hx; lra. }
  destruct (floor_log2_spec _ Hm) as [Hlo Hhi].
  unfold ulp_exponent.
  destruct (Z.max_spec (floor_log2 (Qabs x) - 52) (-1074)) as [[Hc ->] | [Hc ->]].
  - split; [| split; [left; reflexivity | lia]].
    eapply Qlt_le_trans; [exact Hhi |]. apply pow2_le. lia.
  - split; [| split; [right | lia]].
    + replace (floor_log2 (Qabs x) - 52 + 53)%Z with (floor_log2 (Qabs x) + 1)%Z by lia.
      exact Hhi.
    + replace (floor_log2 (Qabs x) - 52 + 52)%Z with (floor_log2 (Qabs x)) by lia.
      exact Hlo.
Qed.

Lemma pow2_53 e : pow2 (e + 53) == inject_Z (2 ^ 53) * pow2 e.
Proof. rewrite Z.add_comm, pow2_add. rewrite (pow2_Z 53) by lia. reflexivity. Qed.

Lemma pow2_52 e : pow2 (e + 52) == inject_Z (2 ^ 52) * pow2 e.
Proof. rewrite Z.add_comm, pow2_add. rewrite (pow2_Z 52) by lia. reflexivity. Qed.

Lemma round_float_le_pos x y : 0 < x -> x <= y -> round_float x <= round_float y.
Proof.
  intros Hx Hxy.
  destruct (ulp_exponent_spec x) as (Hxhi & Hxlo & Hxe); [lra |].
  destruct (ulp_exponent_spec y) as (Hyhi & Hylo & Hye); [lra |].
  rewrite Qabs_pos in Hxhi, Hxlo, Hyhi, Hylo by lra.
  unfold round_float.
  set (ex := ulp_exponent x) in *. set (ey := ulp_exponent y) in *.
  destruct (Z.lt_trichotomy ex ey) as [Hlt | [Heq | Hgt]].
  - destruct Hylo as [Hylo | Hylo]; [lia |].
    rewrite pow2_53 in Hxhi. rewrite pow2_52 in Hylo.
    apply Qle_trans with (inject_Z (2 ^ 53) * pow2 ex);
      [apply round_to_upper; lra |].
    apply Qle_trans with (inject_Z (2 ^ 52) * pow2 ey);
      [| apply round_to_lower; exact Hylo].
    rewrite <- pow2_53, <- pow2_52. apply pow2_le. lia.
  - rewrite Heq. apply round_to_le. exact Hxy.
  - exfalso. destruct Hxlo as [Hxlo | Hxlo]; [lia |].
    assert (pow2 (ey + 53) <= pow2 (ex + 52)) by (apply pow2_le; lia).
    lra.
Qed.

Lemma round_float_le_neg x y : y < 0 -> x <= y -> round_float x <= round_float y.
Proof.
  intros Hy Hxy.
  destruct (ulp_exponent_spec x) as (Hxhi & Hxlo & Hxe); [lra |].
  destruct (ulp_exponent_spec y) as (Hyhi & Hylo & Hye); [lra |].
  rewrite Qabs_neg in Hxhi, Hxlo, Hyhi, Hylo by lra.
  unfold round_float.
  set (ex := ulp_exponent x) in *. set (ey := ulp_exponent y) in *.
  destruct (Z.lt_trichotomy ex ey) as [Hlt | [Heq | Hgt]].
  - exfalso. destruct Hylo as [Hylo | Hylo]; [lia |].
    assert (pow2 (ex + 53) <= pow2 (ey + 52)) by (apply pow2_le; lia).
    lra.
  - rewrite Heq. apply round_to_le. exact Hxy.
  - destruct Hxlo as [Hxlo | Hxlo]; [lia |].
    rewrite pow2_53 in Hyhi. rewrite pow2_52 in Hxlo.
    assert (Hp : pow2 (ey + 53) <= pow2 (ex + 52)) by (apply pow2_le; lia).
    rewrite pow2_53, pow2_52 in Hp.
    apply Qle_trans with (inject_Z (- 2 ^ 52) * pow2 ex).
    { apply round_to_upper. rewrite inject_Z_opp. lra. }
    apply Qle_trans with (inject_Z (- 2 ^ 53) * pow2 ey).
    { rewrite !inject_Z_opp. lra. }
    apply round_to_lower. rewrite inject_Z_opp. lra.
Qed.

Lemma round_float_nonneg x : 0 <= x -> 0 <= round_float x.
Proof.
  intros H. unfold round_float.
  assert (E : inject_Z 0 * pow2 (ulp_exponent x) == 0) by ring.
  rewrite <- E. apply round_to_lower. lra.
Qed.

Lemma round_float_nonpos x : x <= 0 -> round_float x <= 0.
Proof.
  intros H. unfold round_float.
  assert (E : inject_Z 0 * pow2 (ulp_exponent x) == 0) by ring.
  rewrite <- E. apply round_to_upper. lra.
Qed.

Lemma round_float_le x y : x <= y -> round_float x <= round_float y.
Proof.
  intros Hxy.
  destruct (Qlt_le_dec 0 x) as [Hx | Hx].
  - apply round_float_le_pos; assumption.
  - destruct (Qlt_le_dec y 0) as [Hy | Hy].
    + apply round_float_le_neg; assumption.
    + apply Qle_trans with 0; [apply round_float_nonpos | apply round_float_nonneg];
        assumption.
Qed.

Lemma float_sub_antitone a t t' : t <= t' -> float_sub a t' <= float_sub a t.
Proof. intros H. apply round_float_le. lra. Qed.

(** A float [k] that is at least the exact difference passes the float
    test as well. *)
Lemma float_sub_exact_suffices a t k :
  round_float k == k -> a - t <= k -> float_sub a t <= k.
Proof.
  intros Hk H. apply round_float_le in H. unfold float_sub. lra.
Qed.

(** The rounding on familiar cases: [0.1 + 0.2] is a tie and goes to
    the even significand ([0.30000000000000004]); [1.0 - 0.9] is exact
    ([0.09999999999999998]); [1.0 - 0.15] is rounded down to [0.85];
    2^53 + 1 is a tie and goes down, 2^53 + 3 goes up; half the least
    positive float goes to 0; and the largest float plus 1 is the
    largest float. *)
Lemma round_float_examples :
  round_float (float_0_1 + float_0_2) == 5404319552844596 # (2 ^ 54)
  /\ float_sub 1 float_0_9 == 900719925474099 # (2 ^ 53)
  /\ float_sub 1 float_0_15 == float_0_85
  /\ round_float (inject_Z (2 ^ 53 + 1)) == inject_Z (2 ^ 53)
  /\ round_float (inject_Z (2 ^ 53 + 3)) == inject_Z (2 ^ 53 + 4)
  /\ round_float (pow2 (-1075)) == 0
  /\ round_float (inject_Z ((2 ^ 53 - 1) * 2 ^ 971) + 1)
     == inject_Z ((2 ^ 53 - 1) * 2 ^ 971).
Proof. vm_compute. repeat split. Qed.

(** ** Colour classification *)

Lemma forallb_Qleb cs threshold :
  forallb (fun c => Qleb c threshold) cs = true
  <-> Forall (fun c => c <= threshold) cs.
Proof.
  rewrite forallb_forall, Forall_forall.
  split; intros H c Hc; apply Qleb_true, H, Hc.
Qed.

(** C4 (amended).  [is_color_black] follows the per-space rule for one,
    three and four components, the K component of a four-component
    colour being compared with the float difference [1.0 - threshold],
    and is false for a missing or empty colour; a colour of any other
    arity is black exactly when every component is at most the
    threshold. *)
Theorem is_color_black_rule (color : option (list Q)) (threshold : Q) :
  is_color_black color threshold = true <-> black_like_rule color threshold.
Proof.
  destruct color as [cs|]; cbn [is_color_black black_like_rule];
    [|split; [discriminate | tauto]].
  destruct cs as [|c1 [|c2 [|c3 [|c4 [|c5 rest]]]]].
  - split; [discriminate | tauto].
  - apply Qleb_true.
  - apply (forallb_Qleb [c1; c2]).
  - rewrite !andb_true_iff, !Qleb_true. tauto.
  - rewrite !andb_true_iff, !Qleb_true, Qgeb_true.
    assert (E : float_sub 1.0 threshold == float_sub 1 threshold).
    { apply Qle_antisym; apply round_float_le; lra. }
    intuition lra.
  - apply (forallb_Qleb (c1 :: c2 :: c3 :: c4 :: c5 :: rest)).
Qed.

(** C4 as stated fails twice.  A two-component colour is none of
    grayscale, RGB or CMYK, yet it is classified black.  And with the
    floats [0.15] and [0.85], K is below the exact difference
    1 - threshold, yet the colour (0, 0, 0, 0.85) is classified black:
    the float difference [1.0 - 0.15] is rounded down to [0.85]. *)
Lemma is_color_black_other_arity_counterexample :
  (0 <= 0.15 <= 1 /\ List.length [0; 0] = 2%nat
   /\ is_color_black (Some [0; 0]) 0.15 = true)
  /\ (0 <= float_0_15 <= 1 /\ float_0_85 < 1 - float_0_15
      /\ is_color_black (Some [0; 0; 0; float_0_85]) float_0_15 = true).
Proof. vm_compute. repeat split; discriminate. Qed.

(** ** Overlap counting *)

Lemma detect_overlaps_from_ge acc black_rects text_rects min_overlap_area :
  (acc <= detect_overlaps_from acc black_rects text_rects min_overlap_area None)%Z.
Proof.
  revert acc. induction black_rects as [|b rest IH]; intros acc; cbn; [lia|].
  destruct (overlaps_some_text b text_rects min_overlap_area).
  - specialize (IH (acc + 1)%Z). lia.
  - apply IH.
Qed.

Lemma detect_overlaps_from_stop acc black_rects text_rects min_overlap_area k :
  (acc < k)%Z ->
  detect_overlaps_from acc black_rects text_rects min_overlap_area (Some k)
  = Z.min (detect_overlaps_from acc black_rects text_rects min_overlap_area None) k.
Proof.
  revert acc. induction black_rects as [|b rest IH]; intros acc Hlt; cbn; [lia|].
  destruct (overlaps_some_text b text_rects min_overlap_area).
  - destruct (Z.geb_spec (acc + 1) k) as [Hge | Hnge].
    + pose proof (detect_overlaps_from_ge (acc + 1) rest text_rects min_overlap_area).
      lia.
    + apply IH. lia.
  - destruct (Z.geb_spec acc k) as [Hge | Hnge]; [lia|].
    apply IH. exact Hlt.
Qed.

(** C3.  With [stop_after = k >= 1], [detect_overlaps] returns
    [min(c, k)] where [c] is the count without early exit, so comparing
    the result with [k] gives the same answer as comparing [c] with [k]. *)
Theorem detect_overlaps_stop_after
    (black_rects text_rects : list Rect) (min_overlap_area : Q) (k : Z) :
  (1 <= k)%Z ->
  detect_overlaps black_rects text_rects min_overlap_area (Some k)
  = Z.min (detect_overlaps black_rects text_rects min_overlap_area None) k
  /\ ((detect_overlaps black_rects text_rects min_overlap_area (Some k) >=? k)%Z
      = (detect_overlaps black_rects text_rects min_overlap_area None >=? k)%Z).
Proof.
  intros Hk. unfold detect_overlaps.
  rewrite detect_overlaps_from_stop by lia.
  split; [reflexivity|].
  set (c := detect_overlaps_from 0 black_rects text_rects min_overlap_area None).
  destruct (Z.geb_spec (Z.min c k) k), (Z.geb_spec c k); try reflexivity; lia.
Qed.

Lemma detect_overlaps_stop_after_witness :
  detect_overlaps [mkRect 0 0 20 20; mkRect 30 0 50 20; mkRect 60 0 80 20]
    [mkRect 5 5 10 10; mkRect 35 5 45 10; mkRect 65 5 75 15] 4.0 (Some 2%Z)
  = 2%Z.
Proof.
  refine (eq_trans
    (proj1 (detect_overlaps_stop_after
       [mkRect 0 0 20 20; mkRect 30 0 50 20; mkRect 60 0 80 20]
       [mkRect 5 5 10 10; mkRect 35 5 45 10; mkRect 65 5 75 15] 4.0 2%Z _)) _).
  - lia.
  - reflexivity.
Defined.

(** ** Page audit *)

(** What a flagged page looks like: both extractions are non-empty, the
    overlap count computed with early exit reaches [min_hits], and the
    score is 3 + 3 plus the two optional bonuses. *)
Lemma audit_page_flagged page page_num black_threshold min_overlap_area min_hits r :
  audit_page page page_num black_threshold min_overlap_area min_hits = Ok (Some r) ->
  exists black_rects,
    extract_black_rectangles page black_threshold 2.0 0.95 = Ok black_rects
    /\ black_rects <> []
    /\ get_text_rectangles page <> []
    /\ (min_hits <= detect_overlaps black_rects (get_text_rectangles page)
                      min_overlap_area (Some min_hits))%Z
    /\ r = {| page_number := page_num;
              black_rect_count := len black_rects;
              overlap_count :=
                detect_overlaps black_rects (get_text_rectangles page)
                  min_overlap_area (Some min_hits);
              confidence_score :=
                (6 + shape_bonus black_rects + multiple_bonus black_rects)%Z;
              heuristic := "black_fill_rect_overlap_text" |}.
Proof.
  unfold audit_page.
  destruct (extract_black_rectangles page black_threshold 2.0 0.95)
    as [black_rects | e]; cbn [bind]; [|discriminate].
  destruct black_rects as [|b0 bs]; [discriminate|].
  destruct (get_text_rectangles page) as [|t0 ts] eqn:Htext; [discriminate|].
  set (black_rects := b0 :: bs). set (text_rects := t0 :: ts).
  set (c := detect_overlaps black_rects text_rects min_overlap_area (Some min_hits)).
  destruct (Z.geb_spec c min_hits) as [Hge | Hlt]; [|discriminate].
  intros H. injection H as <-.
  exists black_rects. repeat split; try discriminate; try lia.
  unfold shape_bonus, multiple_bonus.
  destruct (redaction_like black_rects >? 0)%Z, (len black_rects >=? 3)%Z;
    reflexivity.
Qed.

(** C1 (amended).  On a page whose opaque fills are exactly (0,0,20,20)
    and whose spans are (5,5,10,10), (15,15,20,20), (100,100,110,110),
    [audit_page] with [min_overlap_area = 4.0] and [min_hits = 1] flags the
    page with [overlap_count = 1] (one fill, counted once) and
    [confidence_score = 6]. *)
Theorem audit_page_scenario (page : Page) (page_num : Z) (black_threshold : Q) :
  extract_black_rectangles page black_threshold 2.0 0.95 = Ok [mkRect 0 0 20 20] ->
  get_text_rectangles page
  = [mkRect 5 5 10 10; mkRect 15 15 20 20; mkRect 100 100 110 110] ->
  audit_page page page_num black_threshold 4.0 1
  = Ok (Some {| page_number := page_num;
                black_rect_count := 1;
                overlap_count := 1;
                confidence_score := 6;
                heuristic := "black_fill_rect_overlap_text" |}).
Proof.
  intros Hfills Hspans. unfold audit_page.
  rewrite Hfills. cbn [bind]. rewrite Hspans. reflexivity.
Qed.

Lemma audit_page_scenario_witness :
  audit_page scenario_page 1 0.15 4.0 1
  = Ok (Some {| page_number := 1;
                black_rect_count := 1;
                overlap_count := 1;
                confidence_score := 6;
                heuristic := "black_fill_rect_overlap_text" |}).
Proof.
  apply (audit_page_scenario scenario_page 1 0.15); reflexivity.
Defined.

(** C1 as stated fails: on the scenario page the reported
    [overlap_count] is not 2. *)
Lemma audit_page_scenario_counterexample :
  extract_black_rectangles scenario_page 0.15 2.0 0.95 = Ok [mkRect 0 0 20 20]
  /\ get_text_rectangles scenario_page
     = [mkRect 5 5 10 10; mkRect 15 15 20 20; mkRect 100 100 110 110]
  /\ ~ (exists r, audit_page scenario_page 1 0.15 4.0 1 = Ok (Some r)
                  /\ overlap_count r = 2%Z /\ (6 <= confidence_score r)%Z).
Proof.
  split; [reflexivity|]. split; [reflexivity|].
  intros (r & Hr & Hcount & _).
  vm_compute in Hr. injection Hr as <-. discriminate Hcount.
Qed.

(** C2.  With [min_hits >= 1], a returned PageRisk reports
    [overlap_count = min_hits] exactly. *)
Theorem audit_page_overlap_count_is_min_hits
    (page : Page) (page_num : Z) (black_threshold min_overlap_area : Q)
    (min_hits : Z) (r : PageRisk) :
  (1 <= min_hits)%Z ->
  audit_page page page_num black_threshold min_overlap_area min_hits = Ok (Some r) ->
  overlap_count r = min_hits.
Proof.
  intros Hk Hr.
  destruct (audit_page_flagged _ _ _ _ _ _ Hr) as (black_rects & _ & _ & _ & Hge & ->).
  cbn [overlap_count]. unfold detect_overlaps in *.
  rewrite detect_overlaps_from_stop in * by lia.
  lia.
Qed.

Lemma audit_page_overlap_count_is_min_hits_witness :
  exists r, audit_page scenario_page 1 0.15 4.0 1 = Ok (Some r)
            /\ overlap_count r = 1%Z.
Proof.
  eexists. split; [reflexivity|].
  apply (audit_page_overlap_count_is_min_hits scenario_page 1 0.15 4.0 1);
    [lia | reflexivity].
Defined.

(** C10.  A returned PageRisk has a confidence score between 6 and 8:
    the two +3 bonuses always apply on a flagged page, and the
    redaction-shape and three-or-more-fills bonuses add at most 1 each. *)
Theorem audit_page_confidence_range
    (page : Page) (page_num : Z) (black_threshold min_overlap_area : Q)
    (min_hits : Z) (r : PageRisk) :
  audit_page page page_num black_threshold min_overlap_area min_hits = Ok (Some r) ->
  (6 <= confidence_score r <= 8)%Z
  /\ exists black_rects,
       extract_black_rectangles page black_threshold 2.0 0.95 = Ok black_rects
       /\ confidence_score r
          = (3 + 3 + shape_bonus black_rects + multiple_bonus black_rects)%Z
       /\ (0 <= shape_bonus black_rects <= 1)%Z
       /\ (0 <= multiple_bonus black_rects <= 1)%Z.
Proof.
  intros Hr.
  destruct (audit_page_flagged _ _ _ _ _ _ Hr) as (black_rects & Hex & _ & _ & _ & ->).
  cbn [confidence_score].
  assert (Hs : (0 <= shape_bonus black_rects <= 1)%Z).
  { unfold shape_bonus. destruct (redaction_like black_rects >? 0)%Z; lia. }
  assert (Hm : (0 <= multiple_bonus black_rects <= 1)%Z).
  { unfold multiple_bonus. destruct (len black_rects >=? 3)%Z; lia. }
  split; [lia|].
  exists black_rects. repeat split; try assumption; lia.
Qed.

Lemma audit_page_confidence_range_witness :
  exists r, audit_page scenario_page 1 0.15 4.0 1 = Ok (Some r)
            /\ (6 <= confidence_score r <= 8)%Z.
Proof.
  eexists. split; [reflexivity|].
  apply (audit_page_confidence_range scenario_page 1 0.15 4.0 1). reflexivity.
Defined.

(** ** Risk score *)

Open Scope Z_scope.

Lemma calculate_risk_score_fold f :
  calculate_risk_score f = Z.min (fold_left apply_signal (signals f) 0) 100.
Proof. reflexivity. Qed.

Lemma fold_apply_signal l score :
  fold_left apply_signal l score = score + sum_applicable l.
Proof.
  revert score. induction l as [|[b w] l IH]; intros score.
  - cbn. lia.
  - cbn [fold_left]. rewrite IH. unfold apply_signal, sum_applicable.
    cbn [fst snd filter]. destruct b; cbn [map fold_right fst snd]; lia.
Qed.

Lemma sum_applicable_perm l l' :
  Permutation l l' -> sum_applicable l = sum_applicable l'.
Proof.
  unfold sum_applicable.
  induction 1 as [|[b w] l l' _ IH|[b1 w1] [b2 w2] l|l l' l'' _ IH1 _ IH2].
  - reflexivity.
  - cbn [filter fst]. destruct b; cbn [map fold_right snd]; lia.
  - cbn [filter fst]. destruct b1, b2; cbn [map fold_right snd]; lia.
  - congruence.
Qed.

Lemma sum_applicable_nonneg l :
  Forall (fun s => 0 <= snd s) l -> 0 <= sum_applicable l.
Proof.
  unfold sum_applicable. induction 1 as [|[b w] l Hw _ IH]; cbn; [lia|].
  destruct b; cbn in *; lia.
Qed.

Lemma signals_weights_nonneg f : Forall (fun s => 0 <= snd s) (signals f).
Proof.
  unfold signals. repeat constructor; cbn [snd]; try lia.
  destruct (overlay_risk f =? "YES")%string; lia.
Qed.

(** C6.  [calculate_risk_score] is the sum of the fixed weights of
    exactly the applicable signals, clamped to [0,100], whatever the
    order in which the signals are taken; hidden text + overlay "YES" +
    JavaScript alone score 15+20+15 = 50. *)
Theorem calculate_risk_score_additive
    (f : AdvancedSecurityFindings) (order : list (bool * Z)) :
  Permutation (signals f) order ->
  calculate_risk_score f = Z.min (sum_applicable order) 100
  /\ calculate_risk_score f = Z.min (fold_left apply_signal order 0) 100
  /\ 0 <= calculate_risk_score f <= 100
  /\ (hidden_overlay_javascript_only f -> calculate_risk_score f = 15 + 20 + 15).
Proof.
  intros Hperm.
  assert (Hsum : calculate_risk_score f = Z.min (sum_applicable order) 100).
  { rewrite calculate_risk_score_fold, fold_apply_signal.
    rewrite (sum_applicable_perm _ _ Hperm). reflexivity. }
  split; [exact Hsum|]. split; [|split].
  - rewrite fold_apply_signal. exact Hsum.
  - rewrite calculate_risk_score_fold, fold_apply_signal.
    pose proof (sum_applicable_nonneg _ (signals_weights_nonneg f)). lia.
  - intros (H1 & H2 & H3 & H4 & H5 & H6 & H7 & H8 & H9 & H10 & H11 & H12 & H13 & H14).
    unfold calculate_risk_score.
    rewrite H1, H2, H3, H4, H5, H6, H7, H8, H9, H10, H11, H12, H13, H14.
    reflexivity.
Qed.

Lemma calculate_risk_score_additive_witness :
  calculate_risk_score example_findings = 50
  /\ calculate_risk_score example_findings
     = Z.min (sum_applicable (rev (signals example_findings))) 100.
Proof.
  destruct (calculate_risk_score_additive example_findings
              (rev (signals example_findings)) (Permutation_rev _))
    as (Hsum & _ & _ & Hex).
  split; [|exact Hsum].
  apply Hex. unfold hidden_overlay_javascript_only. cbn.
  repeat split; reflexivity.
Defined.

Close Scope Z_scope.

(** ** Ordering of sequences *)

Section LexCompare.
Context {A : Type} (cmp : A -> A -> comparison).
Hypothesis cmp_refl : forall a, cmp a a = Eq.
Hypothesis cmp_eq : forall a b, cmp a b = Eq -> a = b.
Hypothesis cmp_antisym : forall a b, cmp b a = CompOpp (cmp a b).
Hypothesis cmp_trans : forall a b c, cmp a b = Lt -> cmp b c = Lt -> cmp a c = Lt.

Lemma lex_compare_refl l : lex_compare cmp l l = Eq.
Proof. induction l as [|a l IH]; cbn; [reflexivity|]. now rewrite cmp_refl. Qed.

Lemma lex_compare_eq l1 l2 : lex_compare cmp l1 l2 = Eq -> l1 = l2.
Proof.
  revert l2. induction l1 as [|a l1 IH]; intros [|b l2]; cbn; try discriminate;
    [reflexivity|].
  destruct (cmp a b) eqn:Hab; try discriminate.
  intros H. apply cmp_eq in Hab. apply IH in H. congruence.
Qed.

Lemma lex_compare_antisym l1 l2 :
  lex_compare cmp l2 l1 = CompOpp (lex_compare cmp l1 l2).
Proof.
  revert l2. induction l1 as [|a l1 IH]; intros [|b l2]; cbn; try reflexivity.
  rewrite (cmp_antisym a b). destruct (cmp a b); cbn; [apply IH | reflexivity..].
Qed.

Lemma lex_compare_trans l1 l2 l3 :
  lex_compare cmp l1 l2 = Lt -> lex_compare cmp l2 l3 = Lt ->
  lex_compare cmp l1 l3 = Lt.
Proof.
  revert l2 l3. induction l1 as [|a l1 IH]; intros [|b l2] [|c l3]; cbn;
    try discriminate; try reflexivity.
  destruct (cmp a b) eqn:Hab; try discriminate.
  - apply cmp_eq in Hab. subst b.
    destruct (cmp a c); try discriminate; [apply IH | reflexivity].
  - intros _. destruct (cmp b c) eqn:Hbc; try discriminate.
    + apply cmp_eq in Hbc. subst c. now rewrite Hab.
    + intros _. now rewrite (cmp_trans a b c Hab Hbc).
Qed.

Lemma not_gt_total a b : not_gt (cmp a b) = true \/ not_gt (cmp b a) = true.
Proof. rewrite (cmp_antisym a b). destruct (cmp a b); cbn; auto. Qed.

Lemma not_gt_trans a b c :
  not_gt (cmp a b) = true -> not_gt (cmp b c) = true -> not_gt (cmp a c) = true.
Proof.
  destruct (cmp a b) eqn:Hab; try discriminate; intros _.
  - apply cmp_eq in Hab. now subst b.
  - destruct (cmp b c) eqn:Hbc; try discriminate; intros _.
    + apply cmp_eq in Hbc. subst c. now rewrite Hab.
    + now rewrite (cmp_trans a b c Hab Hbc).
Qed.

Lemma not_gt_neq_lt a b : not_gt (cmp a b) = true -> a <> b -> cmp a b = Lt.
Proof.
  destruct (cmp a b) eqn:Hab; try discriminate; [|reflexivity].
  intros _ Hne. apply cmp_eq in Hab. contradiction.
Qed.

End LexCompare.

Lemma Z_compare_trans a b c :
  Z.compare a b = Lt -> Z.compare b c = Lt -> Z.compare a c = Lt.
Proof. rewrite !Z.compare_lt_iff. lia. Qed.

Lemma text_compare_refl s : text_compare s s = Eq.
Proof. apply lex_compare_refl, Z.compare_refl. Qed.

Lemma text_compare_eq s t : text_compare s t = Eq -> s = t.
Proof. apply lex_compare_eq, Z.compare_eq. Qed.

Lemma text_compare_antisym s t : text_compare t s = CompOpp (text_compare s t).
Proof. apply lex_compare_antisym, Z.compare_antisym. Qed.

Lemma text_compare_trans s t u :
  text_compare s t = Lt -> text_compare t u = Lt -> text_compare s u = Lt.
Proof. apply lex_compare_trans; [apply Z.compare_eq | apply Z_compare_trans]. Qed.

(** ** Sorting *)

Section SortBy.
Context {A : Type} (le : A -> A -> bool).

Lemma insert_by_perm x l : Permutation (insert_by le x l) (x :: l).
Proof.
  induction l as [|y rest IH]; cbn; [reflexivity|].
  destruct (le x y); [reflexivity|].
  rewrite IH. apply perm_swap.
Qed.

Lemma sort_by_perm l : Permutation (sort_by le l) l.
Proof.
  induction l as [|x rest IH]; cbn; [constructor|].
  rewrite insert_by_perm. now constructor.
Qed.

Lemma In_sort_by x l : In x (sort_by le l) <-> In x l.
Proof.
  split; apply Permutation_in; [|symmetry]; apply sort_by_perm.
Qed.

Hypothesis le_total : forall a b, le a b = true \/ le b a = true.
Hypothesis le_trans : forall a b c, le a b = true -> le b c = true -> le a c = true.

Lemma insert_by_sorted x l :
  StronglySorted (fun a b => le a b = true) l ->
  StronglySorted (fun a b => le a b = true) (insert_by le x l).
Proof.
  induction 1 as [|y rest Hs IH Hy]; cbn.
  - repeat constructor.
  - destruct (le x y) eqn:Hxy.
    + constructor; [constructor; assumption|].
      constructor; [exact Hxy|].
      eapply Forall_impl; [|exact Hy]. intros r Hr. cbn in *.
      eapply le_trans; eassumption.
    + constructor; [exact IH|].
      assert (Hyx : le y x = true).
      { destruct (le_total x y); congruence. }
      eapply Permutation_Forall; [symmetry; apply insert_by_perm|].
      constructor; assumption.
Qed.

Lemma sort_by_sorted l : StronglySorted (fun a b => le a b = true) (sort_by le l).
Proof.
  induction l as [|x rest IH]; cbn; [constructor|].
  now apply insert_by_sorted.
Qed.

End SortBy.

(** ** Document and directory audit *)

Lemma In_sorted q l : In q (sorted l) <-> In q l.
Proof. apply In_sort_by. Qed.

Lemma path_leb_total p q : path_leb p q = true \/ path_leb q p = true.
Proof.
  apply (not_gt_total (lex_compare text_compare)).
  apply lex_compare_antisym, text_compare_antisym.
Qed.

Lemma path_leb_trans p q r :
  path_leb p q = true -> path_leb q r = true -> path_leb p r = true.
Proof.
  apply (not_gt_trans (lex_compare text_compare)).
  - apply lex_compare_eq, text_compare_eq.
  - apply lex_compare_trans; [apply text_compare_eq | apply text_compare_trans].
Qed.

(** When [is_file] answers for every path, the loop audits every
    regular file, whatever the individual audits report. *)
Lemma audit_files_all fs pdf_files black_threshold min_overlap_area min_hits reports :
  (forall p, In p pdf_files -> exists b, path_is_file fs (path_str p) = Ok b) ->
  audit_files fs pdf_files black_threshold min_overlap_area min_hits reports
  = Ok (reports
        ++ reports_of fs black_threshold min_overlap_area min_hits pdf_files).
Proof.
  unfold reports_of.
  revert reports. induction pdf_files as [|p rest IH]; intros reports Hok.
  - cbn. now rewrite app_nil_r.
  - cbn [audit_files filter]. unfold is_regular_file at 1.
    destruct (Hok p (or_introl eq_refl)) as [b Hb]. rewrite Hb.
    destruct b.
    + rewrite IH by (intros q Hq; apply Hok; right; exact Hq).
      cbn [map]. now rewrite <- app_assoc.
    + apply IH. intros q Hq. apply Hok. right. exact Hq.
Qed.


Lemma audit_directory_listed fs dir_path recursive found black_threshold
    min_overlap_area min_hits :
  path_exists fs (path_str dir_path) = Ok true ->
  path_is_dir fs (path_str dir_path) = Ok true ->
  path_glob fs (path_str dir_path) (glob_pattern recursive) = Ok found ->
  audit_directory fs dir_path recursive black_threshold min_overlap_area min_hits
  = audit_files fs (sorted found) black_threshold min_overlap_area min_hits [].
Proof.
  intros Hex Hdir Hglob. unfold audit_directory. rewrite Hex. cbn [bind negb].
  rewrite Hdir. cbn [bind negb]. fold (glob_pattern recursive). now rewrite Hglob.
Qed.




(** ** Text span bounds carry no text *)

Lemma flat_map_Forall2 {A B} (R : A -> A -> Prop) (f : A -> list B) l1 l2 :
  (forall a b, R a b -> f a = f b) ->
  Forall2 R l1 l2 -> flat_map f l1 = flat_map f l2.
Proof.
  intros Hf. induction 1 as [|a b l1 l2 Hab _ IH]; cbn; [reflexivity|].
  now rewrite (Hf a b Hab), IH.
Qed.

Lemma flat_map_option_rel {A B} (R : A -> A -> Prop) (f : A -> list B) o1 o2 :
  (forall a b, R a b -> f a = f b) ->
  option_rel (Forall2 R) o1 o2 ->
  flat_map f (match o1 with Some l => l | None => [] end)
  = flat_map f (match o2 with Some l => l | None => [] end).
Proof.
  intros Hf. destruct o1, o2; cbn; try tauto.
  apply flat_map_Forall2, Hf.
Qed.

Lemma span_rects_geometry s1 s2 :
  same_span_geometry s1 s2 -> span_rects s1 = span_rects s2.
Proof. unfold same_span_geometry, span_rects. now intros ->. Qed.

Lemma line_rects_geometry l1 l2 :
  same_line_geometry l1 l2 -> line_rects l1 = line_rects l2.
Proof.
  unfold same_line_geometry, line_rects.
  apply flat_map_option_rel, span_rects_geometry.
Qed.

Lemma block_rects_geometry b1 b2 :
  same_block_geometry b1 b2 -> block_rects b1 = block_rects b2.
Proof.
  unfold same_block_geometry, block_rects. intros [-> Hlines].
  destruct (block_type b2) as [[| |]|]; try reflexivity.
  revert Hlines. apply flat_map_option_rel, line_rects_geometry.
Qed.

Lemma Forall2_map_r_refl {A} (R : A -> A -> Prop) (g : A -> A) l :
  (forall a, R a (g a)) -> Forall2 R l (map g l).
Proof. intros Hg. induction l; cbn; constructor; auto. Qed.

Lemma same_text_geometry_redact p : same_text_geometry p (redact_text p).
Proof.
  unfold same_text_geometry, redact_text. cbn.
  destruct (get_text_rawdict p) as [[[bs|]]|]; cbn; try exact I.
  apply Forall2_map_r_refl. intros b. split; [reflexivity|].
  cbn. destruct (block_lines b) as [ls|]; cbn; [|exact I].
  apply Forall2_map_r_refl. intros l. unfold same_line_geometry. cbn.
  destruct (line_spans l) as [ss|]; cbn; [|exact I].
  apply Forall2_map_r_refl. intros s. reflexivity.
Qed.

(** C9.  [get_text_rectangles] does not depend on span text: two pages
    whose raw text dictionaries agree on block types, line/span structure
    and span boxes yield the same list of rectangles, and that list is
    the one computed from the page with all text removed (a rectangle
    is four coordinates). *)
Theorem get_text_rectangles_ignores_text (p1 p2 : Page) :
  same_text_geometry p1 p2 ->
  get_text_rectangles p1 = get_text_rectangles p2
  /\ get_text_rectangles p1 = get_text_rectangles (redact_text p1).
Proof.
  assert (Hmain : forall q1 q2, same_text_geometry q1 q2 ->
                    get_text_rectangles q1 = get_text_rectangles q2).
  { intros q1 q2. unfold same_text_geometry, get_text_rectangles.
    destruct (get_text_rawdict q1) as [r1|], (get_text_rawdict q2) as [r2|];
      try tauto.
    apply flat_map_option_rel, block_rects_geometry. }
  intros H. split; [apply Hmain, H | apply Hmain, same_text_geometry_redact].
Qed.

Lemma get_text_rectangles_ignores_text_witness :
  get_text_rawdict scenario_page <> get_text_rawdict scenario_page_other_text
  /\ get_text_rectangles scenario_page
     = get_text_rectangles scenario_page_other_text.
Proof.
  split; [discriminate|].
  apply (get_text_rectangles_ignores_text scenario_page scenario_page_other_text).
  cbn. repeat constructor.
Defined.

(** ** OCR layer heuristic *)

Lemma scan_ocr_pages_spec doc pages page_num ocr_pages image_pages text_pages :
  Forall accessors_succeed pages ->
  scan_ocr_pages doc pages page_num ocr_pages image_pages text_pages
  = Ok (ocr_pages ++ page_numbers_where (ocr_layer_page doc) pages page_num,
        (image_pages + count_pages page_has_images pages)%Z,
        (text_pages + count_pages page_has_text pages)%Z).
Proof.
  intros Hok. revert page_num ocr_pages image_pages text_pages.
  induction Hok as [|p rest [[images Hi] [text Ht]] _ IH];
    intros page_num ocr_pages image_pages text_pages.
  - cbn. now rewrite app_nil_r, !Z.add_0_r.
  - cbn [scan_ocr_pages page_numbers_where count_pages].
    rewrite Hi, Ht. cbn [bind]. rewrite IH.
    unfold ocr_layer_page, first_image_large, page_has_images, page_has_text,
      images_of, stripped_text_of, note_large_image.
    rewrite Hi, Ht.
    destruct images as [|img_info more].
    + change (len (@nil image_info) >? 0)%Z with false.
      destruct (len (strip text) >? 0)%Z; cbn [andb app].
      all: rewrite ?app_nil_r; f_equal; rewrite !pair_equal_spec.
      all: repeat split; try reflexivity; lia.
    + assert (Hlen : (len (img_info :: more) >? 0)%Z = true).
      { unfold len. cbn [List.length]. apply Z.gtb_lt. lia. }
      rewrite Hlen.
      destruct (extract_image doc (image_xref img_info)) as [img|];
        [ destruct (get_or_zero (image_width img) >? 1000)%Z,
                   (get_or_zero (image_height img) >? 1000)%Z |];
        destruct (len (strip text) >? 0)%Z; cbn [andb app].
      all: rewrite <- ?app_assoc, ?app_nil_r; cbn [app].
      all: f_equal; rewrite !pair_equal_spec.
      all: repeat split; try reflexivity; lia.
Qed.

Lemma count_pages_bounds pred pages :
  (0 <= count_pages pred pages <= len pages)%Z.
Proof.
  unfold len. induction pages as [|p rest IH]; cbn [count_pages List.length]; [lia|].
  destruct (pred p); lia.
Qed.

Lemma count_pages_all pred pages :
  (count_pages pred pages =? len pages)%Z = forallb pred pages.
Proof.
  induction pages as [|p rest IH]; [reflexivity|].
  cbn [count_pages forallb]. pose proof (count_pages_bounds pred rest) as Hb.
  unfold len in *. cbn [List.length]. rewrite Nat2Z.inj_succ.
  destruct (pred p); cbn [andb].
  - rewrite <- IH. destruct (Z.eqb_spec (count_pages pred rest) (Z.of_nat (List.length rest)));
      [apply Z.eqb_eq | apply Z.eqb_neq]; lia.
  - apply Z.eqb_neq. lia.
Qed.

Lemma more_than_thirty_percent (c n : Z) :
  Qgtb (inject_Z c) (inject_Z n * 0.3) = true <-> inject_Z n * (3 # 10) < inject_Z c.
Proof.
  rewrite Qgtb_true. split; intros H; lra.
Qed.

Lemma In_page_numbers_where pred pages start n :
  In n (page_numbers_where pred pages start)
  <-> (start <= n)%Z
      /\ exists p, nth_error pages (Z.to_nat (n - start)) = Some p /\ pred p = true.
Proof.
  revert start. induction pages as [|p rest IH]; intros start.
  - cbn. split; [tauto|]. intros (_ & q & Hq & _).
    destruct (Z.to_nat (n - start)); discriminate Hq.
  - cbn [page_numbers_where]. rewrite in_app_iff, IH. split.
    + intros [Hhere | (Hle & q & Hq & Hpred)].
      * destruct (pred p) eqn:Hp; [|contradiction].
        destruct Hhere as [<- | []]. split; [lia|].
        exists p. rewrite Z.sub_diag. split; [reflexivity | exact Hp].
      * split; [lia|]. exists q. split; [|exact Hpred].
        replace (Z.to_nat (n - start)) with (S (Z.to_nat (n - (start + 1)))) by lia.
        exact Hq.
    + intros (Hle & q & Hq & Hpred).
      destruct (Z.eq_dec n start) as [-> | Hne].
      * left. rewrite Z.sub_diag in Hq. cbn in Hq. injection Hq as ->.
        rewrite Hpred. left. reflexivity.
      * right. split; [lia|]. exists q. split; [|exact Hpred].
        replace (Z.to_nat (n - start)) with (S (Z.to_nat (n - (start + 1)))) in Hq by lia.
        exact Hq.
Qed.

(** C8 (amended).  When the page accessors succeed, [check_ocr_layer]
    lists page n as an OCR-layer page exactly when the first image of
    page n can be extracted with width and height both strictly above
    1000 and the stripped page text is non-empty; it reports an OCR
    layer when that list is non-empty; and it flags the document as
    scanned exactly when the listed pages are strictly more than 30% of
    all pages, or every page has an image and every page has text. *)
Theorem check_ocr_layer_classification (doc : Document) :
  Forall accessors_succeed (doc_pages doc) ->
  exists ocr_pages is_scanned,
    check_ocr_layer doc = ((len ocr_pages >? 0)%Z, ocr_pages, is_scanned)
    /\ ocr_pages = page_numbers_where (ocr_layer_page doc) (doc_pages doc) 1
    /\ (forall n, In n ocr_pages <->
          (1 <= n)%Z
          /\ exists p, nth_error (doc_pages doc) (Z.to_nat (n - 1)) = Some p
                       /\ first_image_large doc p = true
                       /\ page_has_text p = true)
    /\ (is_scanned = true <->
          inject_Z (len (doc_pages doc)) * (3 # 10) < inject_Z (len ocr_pages)
          \/ (forallb page_has_images (doc_pages doc) = true
              /\ forallb page_has_text (doc_pages doc) = true)).
Proof.
  intros Hok. unfold check_ocr_layer.
  rewrite (scan_ocr_pages_spec doc _ 1 [] 0 0 Hok). cbn [app].
  rewrite !Z.add_0_l, !count_pages_all.
  set (ocr_pages := page_numbers_where (ocr_layer_page doc) (doc_pages doc) 1).
  eexists ocr_pages, _. split; [reflexivity|]. split; [reflexivity|]. split.
  - intros n. unfold ocr_pages. rewrite In_page_numbers_where.
    unfold ocr_layer_page. split.
    + intros (Hle & p & Hp & Hpred). apply andb_true_iff in Hpred.
      split; [exact Hle|]. exists p. tauto.
    + intros (Hle & p & Hp & H1 & H2). split; [exact Hle|].
      exists p. split; [exact Hp|]. now rewrite H1, H2.
  - rewrite <- more_than_thirty_percent, <- andb_true_iff.
    destruct (Qgtb (inject_Z (len ocr_pages)) (inject_Z (len (doc_pages doc)) * 0.3));
      destruct (forallb page_has_images (doc_pages doc)
                && forallb page_has_text (doc_pages doc));
      intuition discriminate.
Qed.

Lemma check_ocr_layer_classification_witness :
  (exists ocr_pages is_scanned,
     check_ocr_layer thirty_percent_doc = (true, ocr_pages, is_scanned)
     /\ ocr_pages = [1%Z; 2%Z; 3%Z])
  /\ (exists is_scanned, check_ocr_layer blank_scan_doc = (false, [], is_scanned)).
Proof.
  split.
  - destruct (check_ocr_layer_classification thirty_percent_doc)
      as (ocr_pages & is_scanned & Hrun & Hpages & _).
    + repeat constructor; eexists; reflexivity.
    + exists ocr_pages, is_scanned. rewrite Hrun, Hpages. split; reflexivity.
  - destruct (check_ocr_layer_classification blank_scan_doc)
      as (ocr_pages & is_scanned & Hrun & Hpages & _).
    + repeat constructor; eexists; reflexivity.
    + exists is_scanned. rewrite Hrun, Hpages. reflexivity.
Defined.

(** C8 as stated fails: a page whose image is exactly 1000x1000 and
    which has text is not listed; a page with text whose second image is
    2000x2000 but whose first image is small is not listed; and a
    document in which exactly 30% of the pages are OCR-layer pages is not
    flagged as scanned. *)
Lemma check_ocr_layer_threshold_counterexample :
  (nth_error (doc_pages boundary_image_doc) 0 = Some scanned_page
   /\ images_of scanned_page = [mkImageInfo 7 "Im0"]
   /\ extract_image boundary_image_doc 7
      = Ok {| image_width := Some 1000%Z; image_height := Some 1000%Z |}
   /\ page_has_text scanned_page = true
   /\ check_ocr_layer boundary_image_doc = (false, [], false))
  /\ (nth_error (doc_pages second_image_doc) 0 = Some small_then_large_page
      /\ images_of small_then_large_page = [mkImageInfo 3 "Im0"; mkImageInfo 7 "Im1"]
      /\ extract_image second_image_doc 7
         = Ok {| image_width := Some 2000%Z; image_height := Some 2000%Z |}
      /\ page_has_text small_then_large_page = true
      /\ check_ocr_layer second_image_doc = (false, [], false))
  /\ (len (doc_pages thirty_percent_doc) = 10%Z
      /\ check_ocr_layer thirty_percent_doc = (true, [1%Z; 2%Z; 3%Z], false)).
Proof. repeat split. Qed.

(** * Further properties of the overlay auditor *)

(** ** Colour classification is monotone in the threshold *)

(** X1.  A colour that is black at threshold [t] is black at every larger
    threshold, whatever its number of components. *)
Theorem is_color_black_monotone (color : option (list Q)) (t t' : Q) :
  t <= t' ->
  is_color_black color t = true -> is_color_black color t' = true.
Proof.
  intros Hle. destruct color as [cs|]; [|discriminate].
  assert (Hall : forallb (fun c => Qleb c t) cs = true ->
                 forallb (fun c => Qleb c t') cs = true).
  { rewrite !forallb_Qleb. intros H. eapply Forall_impl; [|exact H].
    cbn. intros c Hc. lra. }
  destruct cs as [|c1 [|c2 [|c3 [|c4 [|c5 rest]]]]]; cbn [is_color_black].
  - discriminate.
  - rewrite !Qleb_true. lra.
  - exact Hall.
  - rewrite !andb_true_iff, !Qleb_true. intuition lra.
  - rewrite !andb_true_iff, !Qleb_true, !Qgeb_true.
    pose proof (float_sub_antitone 1.0 t t' Hle). intuition lra.
  - exact Hall.
Qed.

Lemma is_color_black_monotone_witness :
  is_color_black (Some [0.1; 0.12; 0.05]) 0.5 = true.
Proof.
  apply (is_color_black_monotone (Some [0.1; 0.12; 0.05]) 0.15 0.5).
  - discriminate.
  - reflexivity.
Defined.

(** ** What [detect_overlaps] counts *)

Lemma overlaps_some_text_existsb black_rect text_rects min_overlap_area :
  overlaps_some_text black_rect text_rects min_overlap_area
  = existsb (fun t => Qgeb (compute_overlap_area black_rect t) min_overlap_area)
      text_rects.
Proof.
  induction text_rects as [|t rest IH]; cbn; [reflexivity|].
  rewrite IH. now destruct (Qgeb (compute_overlap_area black_rect t) min_overlap_area).
Qed.

Lemma detect_overlaps_from_count acc black_rects text_rects min_overlap_area :
  detect_overlaps_from acc black_rects text_rects min_overlap_area None
  = (acc + len (filter (fun b => overlaps_some_text b text_rects min_overlap_area)
                  black_rects))%Z.
Proof.
  revert acc. unfold len.
  induction black_rects as [|b rest IH]; intros acc; cbn [detect_overlaps_from filter].
  - cbn. lia.
  - destruct (overlaps_some_text b text_rects min_overlap_area); rewrite IH.
    + cbn [List.length]. lia.
    + reflexivity.
Qed.

Lemma detect_overlaps_from_bounds acc black_rects text_rects min_overlap_area stop_after :
  (acc <= detect_overlaps_from acc black_rects text_rects min_overlap_area stop_after
   <= acc + len black_rects)%Z.
Proof.
  revert acc. unfold len.
  induction black_rects as [|b rest IH]; intros acc;
    cbn [detect_overlaps_from List.length]; [lia|].
  rewrite Nat2Z.inj_succ.
  destruct (overlaps_some_text b text_rects min_overlap_area).
  - destruct stop_after as [k|].
    + destruct (acc + 1 >=? k)%Z; [lia|]. specialize (IH (acc + 1)%Z). lia.
    + specialize (IH (acc + 1)%Z). lia.
  - destruct stop_after as [k|].
    + destruct (acc >=? k)%Z; [lia|]. specialize (IH acc). lia.
    + specialize (IH acc). lia.
Qed.

(** X2.  Without early exit, [detect_overlaps] is the number of black
    rectangles that overlap at least one text rectangle by at least
    [min_overlap_area]; with or without early exit the result lies
    between 0 and the number of black rectangles. *)
Theorem detect_overlaps_counts_covering_rects
    (black_rects text_rects : list Rect) (min_overlap_area : Q)
    (stop_after : option Z) :
  detect_overlaps black_rects text_rects min_overlap_area None
  = len (filter
           (fun b => existsb
                       (fun t => Qgeb (compute_overlap_area b t) min_overlap_area)
                       text_rects)
           black_rects)
  /\ (0 <= detect_overlaps black_rects text_rects min_overlap_area stop_after
      <= len black_rects)%Z.
Proof.
  split.
  - unfold detect_overlaps. rewrite detect_overlaps_from_count, Z.add_0_l.
    f_equal. apply filter_ext. intros b. apply overlaps_some_text_existsb.
  - apply (detect_overlaps_from_bounds 0).
Qed.

Lemma existsb_perm {A} (f : A -> bool) l l' :
  Permutation l l' -> existsb f l = existsb f l'.
Proof.
  induction 1 as [|x l l' _ IH|x y l|l l' l'' _ IH1 _ IH2]; cbn.
  - reflexivity.
  - now rewrite IH.
  - now destruct (f x), (f y).
  - congruence.
Qed.

Lemma filter_length_perm {A} (f : A -> bool) l l' :
  Permutation l l' -> List.length (filter f l) = List.length (filter f l').
Proof.
  induction 1 as [|x l l' _ IH|x y l|l l' l'' _ IH1 _ IH2]; cbn.
  - reflexivity.
  - destruct (f x); cbn; now rewrite IH.
  - now destruct (f x), (f y).
  - congruence.
Qed.

(** X3.  Without early exit the count does not depend on the order of the
    black rectangles nor on the order of the text rectangles. *)
Theorem detect_overlaps_order_independent
    (black_rects black_rects' text_rects text_rects' : list Rect)
    (min_overlap_area : Q) :
  Permutation black_rects black_rects' ->
  Permutation text_rects text_rects' ->
  detect_overlaps black_rects text_rects min_overlap_area None
  = detect_overlaps black_rects' text_rects' min_overlap_area None.
Proof.
  intros Hb Ht. unfold detect_overlaps.
  rewrite !detect_overlaps_from_count. unfold len. do 2 f_equal.
  rewrite (filter_length_perm _ _ _ Hb). f_equal. apply filter_ext.
  intros b. rewrite !overlaps_some_text_existsb. apply existsb_perm, Ht.
Qed.

Lemma detect_overlaps_order_independent_witness :
  detect_overlaps [mkRect 0 0 20 20; mkRect 30 0 50 20]
    [mkRect 5 5 10 10; mkRect 100 100 110 110] 4.0 None
  = detect_overlaps [mkRect 30 0 50 20; mkRect 0 0 20 20]
      [mkRect 100 100 110 110; mkRect 5 5 10 10] 4.0 None.
Proof.
  apply detect_overlaps_order_independent; apply perm_swap.
Defined.

Lemma filter_length_le {A} (f g : A -> bool) l :
  (forall a, In a l -> f a = true -> g a = true) ->
  (List.length (filter f l) <= List.length (filter g l))%nat.
Proof.
  induction l as [|a l IH]; intros Himp; cbn; [lia|].
  assert (IH' := IH (fun x Hx => Himp x (or_intror Hx))).
  destruct (f a) eqn:Hf.
  - rewrite (Himp a (or_introl eq_refl) Hf). cbn. lia.
  - destruct (g a); cbn; lia.
Qed.

(** X4.  Raising [min_overlap_area] or dropping text rectangles never raises
    the count (without early exit). *)
Theorem detect_overlaps_antitone
    (black_rects text_rects text_rects' : list Rect) (m m' : Q) :
  m <= m' ->
  incl text_rects' text_rects ->
  (detect_overlaps black_rects text_rects' m' None
   <= detect_overlaps black_rects text_rects m None)%Z.
Proof.
  intros Hm Hincl. unfold detect_overlaps.
  rewrite !detect_overlaps_from_count. unfold len.
  apply Zplus_le_compat_l, Nat2Z.inj_le, filter_length_le.
  intros b _. rewrite !overlaps_some_text_existsb, !existsb_exists.
  intros (t & Ht & Harea). exists t. split; [apply Hincl, Ht|].
  rewrite Qgeb_true in *. lra.
Qed.

Lemma detect_overlaps_antitone_witness :
  (detect_overlaps [mkRect 0 0 10 10] [mkRect 9 9 15 15] 4.0 None
   <= detect_overlaps [mkRect 0 0 10 10]
        [mkRect 9 9 15 15; mkRect 2 2 8 8] 0.5 None)%Z.
Proof.
  apply detect_overlaps_antitone.
  - discriminate.
  - intros t Ht. left. destruct Ht as [<- | []]. reflexivity.
Defined.

(** ** When a page is flagged *)

Lemma audit_page_cases page page_num black_threshold min_overlap_area min_hits
    black_rects :
  extract_black_rectangles page black_threshold 2.0 0.95 = Ok black_rects ->
  audit_page page page_num black_threshold min_overlap_area min_hits
  = match black_rects, get_text_rectangles page with
    | [], _ | _, [] => Ok None
    | _, _ =>
        let c := detect_overlaps black_rects (get_text_rectangles page)
                   min_overlap_area (Some min_hits) in
        if (c >=? min_hits)%Z
        then Ok (Some {| page_number := page_num;
                         black_rect_count := len black_rects;
                         overlap_count := c;
                         confidence_score :=
                           (6 + shape_bonus black_rects + multiple_bonus black_rects)%Z;
                         heuristic := "black_fill_rect_overlap_text" |})
        else Ok None
    end.
Proof.
  intros Hex. unfold audit_page. rewrite Hex. cbn [bind].
  destruct black_rects as [|b0 bs]; [reflexivity|].
  destruct (get_text_rectangles page) as [|t0 ts]; [reflexivity|].
  cbv zeta.
  destruct (detect_overlaps (b0 :: bs) (t0 :: ts) min_overlap_area (Some min_hits)
            >=? min_hits)%Z; [|reflexivity].
  unfold shape_bonus, multiple_bonus.
  destruct (redaction_like (b0 :: bs) >? 0)%Z, (len (b0 :: bs) >=? 3)%Z; reflexivity.
Qed.

(** X5.  With [min_hits >= 1], a page is flagged exactly when it has at
    least one opaque fill, at least one text span, and at least
    [min_hits] fills that cover text, counted without early exit; in
    every other case the result is [None]. *)
Theorem audit_page_flags_iff
    (page : Page) (page_num : Z) (black_threshold min_overlap_area : Q)
    (min_hits : Z) (black_rects : list Rect) :
  (1 <= min_hits)%Z ->
  extract_black_rectangles page black_threshold 2.0 0.95 = Ok black_rects ->
  ((exists r, audit_page page page_num black_threshold min_overlap_area min_hits
              = Ok (Some r))
   <-> black_rects <> [] /\ get_text_rectangles page <> []
       /\ (min_hits <= detect_overlaps black_rects (get_text_rectangles page)
                         min_overlap_area None)%Z)
  /\ (audit_page page page_num black_threshold min_overlap_area min_hits = Ok None
      <-> black_rects = [] \/ get_text_rectangles page = []
          \/ (detect_overlaps black_rects (get_text_rectangles page)
                min_overlap_area None < min_hits)%Z).
Proof.
  intros Hk Hex. rewrite (audit_page_cases _ _ _ _ _ _ Hex).
  destruct black_rects as [|b0 bs].
  { split; split.
    - intros [r Hr]. discriminate Hr.
    - intros [H _]. now contradiction H.
    - intros _. now left.
    - reflexivity. }
  destruct (get_text_rectangles page) as [|t0 ts].
  { split; split.
    - intros [r Hr]. discriminate Hr.
    - intros (_ & H & _). now contradiction H.
    - intros _. right. now left.
    - reflexivity. }
  cbv zeta. unfold detect_overlaps.
  rewrite detect_overlaps_from_stop by lia.
  set (c := detect_overlaps_from 0 (b0 :: bs) (t0 :: ts) min_overlap_area None).
  destruct (Z.geb_spec (Z.min c min_hits) min_hits) as [Hge | Hlt].
  - split; split.
    + intros _. repeat split; try discriminate. lia.
    + intros _. eexists. reflexivity.
    + discriminate.
    + intros [H | [H | H]]; [discriminate H | discriminate H | lia].
  - split; split.
    + intros [r Hr]. discriminate Hr.
    + intros (_ & _ & H). lia.
    + intros _. right. right. lia.
    + reflexivity.
Qed.

Lemma audit_page_flags_iff_witness :
  exists r, audit_page scenario_page 1 0.15 4.0 1 = Ok (Some r).
Proof.
  apply (proj1 (audit_page_flags_iff scenario_page 1 0.15 4.0 1
                  [mkRect 0 0 20 20] ltac:(lia) eq_refl)).
  repeat split; discriminate.
Defined.

(** X6.  With [min_hits <= 0] the early exit fires after the first fill, so
    every page that has an opaque fill and a text span is flagged, with
    an [overlap_count] of 0 or 1 that only reflects the first fill. *)
Theorem audit_page_nonpositive_min_hits
    (page : Page) (page_num : Z) (black_threshold min_overlap_area : Q)
    (min_hits : Z) (b0 : Rect) (bs : list Rect) :
  (min_hits <= 0)%Z ->
  extract_black_rectangles page black_threshold 2.0 0.95 = Ok (b0 :: bs) ->
  get_text_rectangles page <> [] ->
  exists r,
    audit_page page page_num black_threshold min_overlap_area min_hits = Ok (Some r)
    /\ overlap_count r
       = (if overlaps_some_text b0 (get_text_rectangles page) min_overlap_area
          then 1 else 0)%Z.
Proof.
  intros Hk Hex Htext. rewrite (audit_page_cases _ _ _ _ _ _ Hex).
  destruct (get_text_rectangles page) as [|t0 ts]; [now contradiction Htext|].
  cbv zeta. unfold detect_overlaps. cbn [detect_overlaps_from].
  destruct (overlaps_some_text b0 (t0 :: ts) min_overlap_area).
  - destruct (Z.geb_spec (0 + 1) min_hits) as [H1 | H1]; [|lia].
    destruct (Z.geb_spec (0 + 1) min_hits) as [H2 | H2]; [|lia].
    eexists. split; reflexivity.
  - destruct (Z.geb_spec 0 min_hits) as [H1 | H1]; [|lia].
    destruct (Z.geb_spec 0 min_hits) as [H2 | H2]; [|lia].
    eexists. split; reflexivity.
Qed.

Lemma audit_page_nonpositive_min_hits_witness :
  exists r, audit_page far_text_page 1 0.15 4.0 0 = Ok (Some r)
            /\ overlap_count r = 0%Z.
Proof.
  destruct (audit_page_nonpositive_min_hits far_text_page 1 0.15 4.0 0
              (mkRect 0 0 20 20) [] ltac:(lia) eq_refl ltac:(discriminate))
    as (r & Hr & Hc).
  exists r. split; [exact Hr | exact Hc].
Defined.

(** X7.  Every returned PageRisk carries the page number it was asked for, a
    positive fill count, and an overlap count between 0 and the fill
    count. *)
Theorem audit_page_risk_fields
    (page : Page) (page_num : Z) (black_threshold min_overlap_area : Q)
    (min_hits : Z) (r : PageRisk) :
  audit_page page page_num black_threshold min_overlap_area min_hits = Ok (Some r) ->
  page_number r = page_num
  /\ (1 <= black_rect_count r)%Z
  /\ (0 <= overlap_count r <= black_rect_count r)%Z
  /\ heuristic r = "black_fill_rect_overlap_text"%string.
Proof.
  intros Hr.
  destruct (audit_page_flagged _ _ _ _ _ _ Hr) as (black_rects & _ & Hne & _ & _ & ->).
  cbn [page_number black_rect_count overlap_count heuristic].
  pose proof (detect_overlaps_from_bounds 0 black_rects (get_text_rectangles page)
                min_overlap_area (Some min_hits)) as Hb.
  fold (detect_overlaps black_rects (get_text_rectangles page) min_overlap_area
          (Some min_hits)) in Hb.
  assert (1 <= len black_rects)%Z.
  { unfold len. destruct black_rects; [now contradiction Hne|]. cbn [List.length]. lia. }
  repeat split; try lia.
Qed.

Lemma audit_page_risk_fields_witness :
  exists r, audit_page scenario_page 7 0.15 4.0 1 = Ok (Some r)
            /\ page_number r = 7%Z.
Proof.
  eexists. split; [reflexivity|].
  apply (audit_page_risk_fields scenario_page 7 0.15 4.0 1). reflexivity.
Defined.

(** ** Opaque fill extraction *)

Lemma filter_candidates_sound page_area min_dimension max_coverage_ratio
    candidates black_rects out :
  filter_candidates page_area min_dimension max_coverage_ratio candidates black_rects
  = Ok out ->
  forall r, In r out ->
    In r black_rects
    \/ (In r candidates
        /\ passes_filters page_area min_dimension max_coverage_ratio r).
Proof.
  revert black_rects.
  induction candidates as [|c rest IH]; intros black_rects Hrun r Hr; cbn in Hrun.
  - injection Hrun as <-. now left.
  - destruct (Qltb (width c) min_dimension) eqn:Hw; cbn [orb] in Hrun.
    { destruct (IH _ Hrun r Hr) as [H | [H1 H2]]; [now left | right; split; [now right | exact H2]]. }
    destruct (Qltb (height c) min_dimension) eqn:Hh; cbn [orb] in Hrun.
    { destruct (IH _ Hrun r Hr) as [H | [H1 H2]]; [now left | right; split; [now right | exact H2]]. }
    assert (Hdim : min_dimension <= width c /\ min_dimension <= height c).
    { unfold Qltb in Hw, Hh. rewrite negb_false_iff in Hw, Hh.
      split; now apply Qle_bool_iff. }
    destruct (Qgtb (get_area c) 0) eqn:Harea.
    + destruct (Qeq_bool page_area 0); [discriminate Hrun|].
      destruct (Qgtb (get_area c / page_area) max_coverage_ratio) eqn:Hcov.
      * destruct (IH _ Hrun r Hr) as [H | [H1 H2]];
          [now left | right; split; [now right | exact H2]].
      * destruct (IH _ Hrun r Hr) as [H | [H1 H2]].
        -- apply in_app_or in H as [H | [<- | []]]; [now left|].
           right. split; [now left|]. destruct Hdim. repeat split; try assumption.
           intros _. unfold Qgtb in Hcov. rewrite negb_false_iff in Hcov.
           now apply Qle_bool_iff.
        -- right. split; [now right | exact H2].
    + destruct (IH _ Hrun r Hr) as [H | [H1 H2]].
      * apply in_app_or in H as [H | [<- | []]]; [now left|].
        right. split; [now left|]. destruct Hdim. repeat split; try assumption.
        intros Hpos. unfold Qgtb in Harea. rewrite negb_false_iff in Harea.
        apply Qle_bool_iff in Harea. lra.
      * right. split; [now right | exact H2].
Qed.

Lemma scan_drawings_sound page_area black_threshold min_dimension max_coverage_ratio
    drawings black_rects out :
  scan_drawings page_area black_threshold min_dimension max_coverage_ratio
    drawings black_rects = Ok out ->
  forall r, In r out ->
    In r black_rects
    \/ exists d, In d drawings
         /\ is_color_black (drawing_fill d) black_threshold = true
         /\ In r (drawing_candidates d)
         /\ passes_filters page_area min_dimension max_coverage_ratio r.
Proof.
  revert black_rects.
  induction drawings as [|d rest IH]; intros black_rects Hrun r Hr;
    cbn [scan_drawings] in Hrun.
  - injection Hrun as <-. now left.
  - assert (Hskip : forall acc,
              scan_drawings page_area black_threshold min_dimension
                max_coverage_ratio rest acc = Ok out ->
              In r acc \/ exists d', In d' (d :: rest)
                /\ is_color_black (drawing_fill d') black_threshold = true
                /\ In r (drawing_candidates d')
                /\ passes_filters page_area min_dimension max_coverage_ratio r).
    { intros acc Hacc. destruct (IH _ Hacc r Hr) as [H | (d' & Hd' & H)];
        [now left | right; exists d'; split; [now right | exact H]]. }
    destruct (drawing_fill d) as [[|c0 cs]|] eqn:Hfill; try (now apply Hskip).
    destruct (is_color_black (Some (c0 :: cs)) black_threshold) eqn:Hblack;
      cbn [negb] in Hrun; [|now apply Hskip].
    destruct (filter_candidates page_area min_dimension max_coverage_ratio
                (drawing_candidates d) black_rects) as [mid|e] eqn:Hmid;
      cbn [bind] in Hrun; [|discriminate].
    destruct (Hskip _ Hrun) as [H | H]; [|now right].
    destruct (filter_candidates_sound _ _ _ _ _ _ Hmid r H) as [H' | [H1 H2]];
      [now left|].
    right. exists d. rewrite Hfill.
    split; [now left|]. split; [exact Hblack|]. split; [exact H1 | exact H2].
Qed.

Lemma dedup_from_incl unique black_rects r :
  In r (dedup_from unique black_rects) -> In r unique \/ In r black_rects.
Proof.
  revert unique. induction black_rects as [|b rest IH]; intros unique Hr; cbn in Hr.
  - now left.
  - destruct (existsb (near_identical b) unique); cbn [negb] in Hr.
    + destruct (IH _ Hr) as [H | H]; [now left | right; now right].
    + destruct (IH _ Hr) as [H | H]; [|right; now right].
      apply in_app_or in H as [H | [<- | []]]; [now left | right; now left].
Qed.

(** X8.  Every extracted rectangle is a candidate (the drawing's "rect" or a
    rectangle item) of a drawing whose fill is black at the threshold,
    is at least [min_dimension] wide and high, and, when its area is
    positive, covers at most [max_coverage_ratio] of the page. *)
Theorem extract_black_rectangles_sound
    (page : Page) (black_threshold min_dimension max_coverage_ratio : Q)
    (out : list Rect) (r : Rect) :
  extract_black_rectangles page black_threshold min_dimension max_coverage_ratio
  = Ok out ->
  In r out ->
  exists drawings d,
    get_drawings page = Ok drawings /\ In d drawings
    /\ is_color_black (drawing_fill d) black_threshold = true
    /\ In r (drawing_candidates d)
    /\ passes_filters (get_area (page_rect page)) min_dimension max_coverage_ratio r.
Proof.
  unfold extract_black_rectangles. intros Hrun Hr.
  destruct (get_drawings page) as [drawings|e]; [|injection Hrun as <-; contradiction].
  destruct (scan_drawings (get_area (page_rect page)) black_threshold min_dimension
              max_coverage_ratio drawings []) as [black_rects|e] eqn:Hscan;
    cbn [bind] in Hrun; [|discriminate].
  injection Hrun as <-.
  apply dedup_from_incl in Hr as [[] | Hr].
  destruct (scan_drawings_sound _ _ _ _ _ _ _ Hscan r Hr) as [[] | (d & Hd & H)].
  exists drawings, d. split; [reflexivity|]. split; assumption.
Qed.

Lemma extract_black_rectangles_sound_witness :
  exists drawings d,
    get_drawings scenario_page = Ok drawings /\ In d drawings
    /\ is_color_black (drawing_fill d) 0.15 = true
    /\ In (mkRect 0 0 20 20) (drawing_candidates d)
    /\ passes_filters (get_area (page_rect scenario_page)) 2.0 0.95 (mkRect 0 0 20 20).
Proof.
  apply (extract_black_rectangles_sound scenario_page 0.15 2.0 0.95
           [mkRect 0 0 20 20]); [reflexivity | left; reflexivity].
Defined.









Lemma filter_candidates_raise page_area min_dimension max_coverage_ratio
    candidates black_rects e :
  filter_candidates page_area min_dimension max_coverage_ratio candidates black_rects
  = Raise e ->
  e = division_by_zero /\ page_area == 0.
Proof.
  revert black_rects.
  induction candidates as [|c rest IH]; intros black_rects Hrun; cbn in Hrun;
    [discriminate|].
  destruct (Qltb (width c) min_dimension || Qltb (height c) min_dimension);
    [now apply IH in Hrun|].
  destruct (Qgtb (get_area c) 0); [|now apply IH in Hrun].
  destruct (Qeq_bool page_area 0) eqn:Hzero.
  - injection Hrun as <-. split; [reflexivity | now apply Qeq_bool_iff].
  - destruct (Qgtb (get_area c / page_area) max_coverage_ratio);
      now apply IH in Hrun.
Qed.

Lemma scan_drawings_raise page_area black_threshold min_dimension max_coverage_ratio
    drawings black_rects e :
  scan_drawings page_area black_threshold min_dimension max_coverage_ratio
    drawings black_rects = Raise e ->
  e = division_by_zero /\ page_area == 0.
Proof.
  revert black_rects.
  induction drawings as [|d rest IH]; intros black_rects Hrun;
    cbn [scan_drawings] in Hrun; [discriminate|].
  destruct (drawing_fill d) as [[|c0 cs]|]; try (now apply IH in Hrun).
  destruct (is_color_black (Some (c0 :: cs)) black_threshold); cbn [negb] in Hrun;
    [|now apply IH in Hrun].
  destruct (filter_candidates page_area min_dimension max_coverage_ratio
              (drawing_candidates d) black_rects) as [mid|e'] eqn:Hmid;
    cbn [bind] in Hrun.
  - now apply IH in Hrun.
  - injection Hrun as <-. now apply filter_candidates_raise in Hmid.
Qed.

Lemma extract_black_rectangles_failure_aux page black_threshold e :
  extract_black_rectangles page black_threshold 2.0 0.95 = Raise e ->
  e = division_by_zero /\ get_area (page_rect page) == 0.
Proof.
  unfold extract_black_rectangles.
  destruct (get_drawings page) as [drawings|e0]; [|discriminate].
  destruct (scan_drawings (get_area (page_rect page)) black_threshold 2.0 0.95
              drawings []) as [black_rects|e'] eqn:Hscan; cbn [bind]; [discriminate|].
  intros H. injection H as <-. now apply scan_drawings_raise in Hscan.
Qed.

(** X10.  The only way [extract_black_rectangles] (and so [audit_page]) can
    fail is a division by zero on a page whose rectangle has zero area;
    a failing [page.get_drawings()] is absorbed and gives an empty
    list. *)
Theorem extract_black_rectangles_failure
    (page : Page) (black_threshold min_dimension max_coverage_ratio : Q) (e : exn) :
  (get_drawings page = Raise e ->
   extract_black_rectangles page black_threshold min_dimension max_coverage_ratio
   = Ok [])
  /\ (extract_black_rectangles page black_threshold min_dimension max_coverage_ratio
      = Raise e ->
      e = division_by_zero /\ get_area (page_rect page) == 0)
  /\ (forall page_num min_overlap_area min_hits,
        audit_page page page_num black_threshold min_overlap_area min_hits = Raise e ->
        e = division_by_zero /\ get_area (page_rect page) == 0).
Proof.
  assert (Hex : forall md mc,
            extract_black_rectangles page black_threshold md mc = Raise e ->
            e = division_by_zero /\ get_area (page_rect page) == 0).
  { intros md mc. unfold extract_black_rectangles.
    destruct (get_drawings page) as [drawings|e0]; [|discriminate].
    destruct (scan_drawings (get_area (page_rect page)) black_threshold md mc
                drawings []) as [black_rects|e'] eqn:Hscan; cbn [bind]; [discriminate|].
    intros H. injection H as <-. now apply scan_drawings_raise in Hscan. }
  split; [|split].
  - unfold extract_black_rectangles. now intros ->.
  - apply Hex.
  - intros page_num min_overlap_area min_hits. unfold audit_page.
    destruct (extract_black_rectangles page black_threshold 2.0 0.95)
      as [black_rects|e'] eqn:Hrun; cbn [bind].
    + destruct black_rects; [discriminate|].
      destruct (get_text_rectangles page); [discriminate|]. cbv zeta.
      match goal with |- context [if ?c then _ else _] => destruct c end;
        discriminate.
    + intros H. injection H as <-. now apply (Hex 2.0 0.95).
Qed.

Lemma extract_black_rectangles_failure_witness :
  audit_page zero_area_page 1 0.15 4.0 1 = Raise division_by_zero
  /\ get_area (page_rect zero_area_page) == 0.
Proof.
  split; [reflexivity|].
  apply (extract_black_rectangles_failure zero_area_page 0.15 2.0 0.95
           division_by_zero).
  reflexivity.
Defined.

(** ** Text span bounds *)

(** X11.  A rectangle is returned exactly when it is the four-number bounding
    box of a span of a line of a text block (type 0); image blocks,
    spans without a four-number box and a failing [get_text] contribute
    nothing. *)
Theorem get_text_rectangles_membership (page : Page) (r : Rect) :
  In r (get_text_rectangles page)
  <-> exists raw bs b ls l ss s,
        get_text_rawdict page = Ok raw /\ blocks raw = Some bs /\ In b bs
        /\ block_type b = Some 0%Z /\ block_lines b = Some ls /\ In l ls
        /\ line_spans l = Some ss /\ In s ss
        /\ span_bbox s = Some [x0 r; y0 r; x1 r; y1 r].
Proof.
  unfold get_text_rectangles. split.
  - destruct (get_text_rawdict page) as [raw|e]; [|intros []].
    destruct (blocks raw) as [bs|] eqn:Hbs; [|intros []].
    rewrite in_flat_map. intros (b & Hb & Hr). unfold block_rects in Hr.
    destruct (block_type b) as [[| |]|] eqn:Hty; try contradiction.
    destruct (block_lines b) as [ls|] eqn:Hls; [|contradiction].
    apply in_flat_map in Hr as (l & Hl & Hr). unfold line_rects in Hr.
    destruct (line_spans l) as [ss|] eqn:Hss; [|contradiction].
    apply in_flat_map in Hr as (s & Hs & Hr). unfold span_rects in Hr.
    destruct (span_bbox s) as [[|a [|b' [|c [|d [|? ?]]]]]|] eqn:Hbox;
      try contradiction.
    destruct Hr as [<- | []].
    exists raw, bs, b, ls, l, ss, s. cbn. repeat split; assumption.
  - intros (raw & bs & b & ls & l & ss & s & Hraw & Hbs & Hb & Hty & Hls & Hl
            & Hss & Hs & Hbox).
    rewrite Hraw, Hbs. apply in_flat_map. exists b. split; [exact Hb|].
    unfold block_rects. rewrite Hty, Hls. apply in_flat_map. exists l.
    split; [exact Hl|]. unfold line_rects. rewrite Hss. apply in_flat_map.
    exists s. split; [exact Hs|]. unfold span_rects. rewrite Hbox.
    left. now destruct r.
Qed.

(** ** Document audit *)

Lemma audit_page_ok_of_extraction p page_num black_threshold min_overlap_area min_hits :
  extraction_succeeds black_threshold p ->
  exists res, audit_page p page_num black_threshold min_overlap_area min_hits = Ok res.
Proof.
  intros [fills Hf]. rewrite (audit_page_cases _ _ _ _ _ _ Hf).
  destruct fills; [eexists; reflexivity|].
  destruct (get_text_rectangles p); [eexists; reflexivity|]. cbv zeta.
  match goal with |- context [if ?c then _ else _] => destruct c end;
    eexists; reflexivity.
Qed.

Lemma audit_page_raise_of_extraction p page_num black_threshold min_overlap_area
    min_hits e :
  extract_black_rectangles p black_threshold 2.0 0.95 = Raise e ->
  audit_page p page_num black_threshold min_overlap_area min_hits = Raise e.
Proof. intros H. unfold audit_page. now rewrite H. Qed.

Lemma audit_pages_ok pages page_idx black_threshold min_overlap_area min_hits
    flagged trace :
  Forall (extraction_succeeds black_threshold) pages ->
  audit_pages pages page_idx black_threshold min_overlap_area min_hits flagged trace
  = (flagged ++ flagged_from pages page_idx black_threshold min_overlap_area min_hits,
     None,
     trace ++ loads_from (List.length pages) page_idx).
Proof.
  intros Hok. revert page_idx flagged trace.
  induction Hok as [|p rest Hp _ IH]; intros page_idx flagged trace.
  - cbn. now rewrite !app_nil_r.
  - cbn [audit_pages flagged_from loads_from List.length].
    destruct (audit_page_ok_of_extraction p (page_idx + 1) black_threshold
                min_overlap_area min_hits Hp) as [res Hres].
    rewrite Hres, IH. destruct res; rewrite <- ?app_assoc; reflexivity.
Qed.

Lemma audit_pages_fail before bad after page_idx black_threshold min_overlap_area
    min_hits flagged trace e :
  Forall (extraction_succeeds black_threshold) before ->
  extract_black_rectangles bad black_threshold 2.0 0.95 = Raise e ->
  audit_pages (before ++ bad :: after) page_idx black_threshold min_overlap_area
    min_hits flagged trace
  = (flagged ++ flagged_from before page_idx black_threshold min_overlap_area min_hits,
     Some e,
     trace ++ loads_from (S (List.length before)) page_idx).
Proof.
  intros Hok Hbad. revert page_idx flagged trace.
  induction Hok as [|p rest Hp _ IH]; intros page_idx flagged trace.
  - cbn [app audit_pages flagged_from loads_from List.length].
    rewrite (audit_page_raise_of_extraction _ _ _ _ _ _ Hbad).
    now rewrite app_nil_r.
  - cbn [app audit_pages flagged_from loads_from List.length].
    destruct (audit_page_ok_of_extraction p (page_idx + 1) black_threshold
                min_overlap_area min_hits Hp) as [res Hres].
    rewrite Hres, IH. destruct res; rewrite <- ?app_assoc; reflexivity.
Qed.

Lemma loads_from_no_close n page_idx : ~ In EvClose (loads_from n page_idx).
Proof.
  revert page_idx. induction n as [|n IH]; intros page_idx; cbn; [tauto|].
  intros [H | H]; [discriminate H | exact (IH _ H)].
Qed.

(** X12.  A document that opens, is not locked, and whose pages all have
    their fills extracted is audited to the end: no error, the page
    count of the document, the flagged pages in page order, every page
    loaded once in order, and the document closed last. *)
Theorem audit_pdf_clean_run
    (fs : FileSystem) (pdf_path : Path) (doc : Document)
    (black_threshold min_overlap_area : Q) (min_hits : Z) :
  fitz_open fs (path_str pdf_path) = Ok doc ->
  is_encrypted doc && (authenticate doc "" =? 0)%Z = false ->
  Forall (extraction_succeeds black_threshold) (doc_pages doc) ->
  audit_pdf fs pdf_path black_threshold min_overlap_area min_hits
  = ({| filename := path_name pdf_path;
        total_pages := len (doc_pages doc);
        flagged_pages :=
          flagged_from (doc_pages doc) 0 black_threshold min_overlap_area min_hits;
        error := None |},
     opening_calls pdf_path doc
     ++ loads_from (List.length (doc_pages doc)) 0 ++ [EvClose]).
Proof.
  intros Hopen Hlock Hok. unfold audit_pdf. rewrite Hopen, Hlock.
  rewrite (audit_pages_ok _ _ _ _ _ _ _ Hok). cbn [app].
  unfold opening_calls. destruct (is_encrypted doc); cbn [app];
    now rewrite <- ?app_assoc.
Qed.

Lemma audit_pdf_clean_run_witness :
  fst (audit_pdf example_fs path_a 0.15 4.0 1)
  = {| filename := "a.pdf"; total_pages := 1;
       flagged_pages := flagged_from [scenario_page] 0 0.15 4.0 1;
       error := None |}.
Proof.
  rewrite (audit_pdf_clean_run example_fs path_a plain_doc 0.15 4.0 1).
  - reflexivity.
  - reflexivity.
  - reflexivity.
  - repeat constructor. eexists. reflexivity.
Defined.

(** X13.  When the fill extraction of some page fails, the audit stops there:
    the report keeps the document's page count and the pages flagged
    before the failure, the error names the exception, later pages are
    never loaded, and the document is not closed. *)
Theorem audit_pdf_page_failure
    (fs : FileSystem) (pdf_path : Path) (doc : Document)
    (black_threshold min_overlap_area : Q) (min_hits : Z)
    (before after : list Page) (bad : Page) (e : exn) :
  fitz_open fs (path_str pdf_path) = Ok doc ->
  is_encrypted doc && (authenticate doc "" =? 0)%Z = false ->
  doc_pages doc = before ++ bad :: after ->
  Forall (extraction_succeeds black_threshold) before ->
  extract_black_rectangles bad black_threshold 2.0 0.95 = Raise e ->
  audit_pdf fs pdf_path black_threshold min_overlap_area min_hits
  = ({| filename := path_name pdf_path;
        total_pages := len (doc_pages doc);
        flagged_pages :=
          flagged_from before 0 black_threshold min_overlap_area min_hits;
        error :=
          Some "Unexpected error: ZeroDivisionError: float division by zero"%string |},
     opening_calls pdf_path doc ++ loads_from (S (List.length before)) 0)
  /\ ~ In EvClose
         (snd (audit_pdf fs pdf_path black_threshold min_overlap_area min_hits)).
Proof.
  intros Hopen Hlock Hpages Hok Hbad.
  assert (He : e = division_by_zero).
  { destruct (extract_black_rectangles_failure_aux bad black_threshold e Hbad).
    assumption. }
  assert (Hrun : audit_pdf fs pdf_path black_threshold min_overlap_area min_hits
    = ({| filename := path_name pdf_path;
        total_pages := len (doc_pages doc);
        flagged_pages :=
          flagged_from before 0 black_threshold min_overlap_area min_hits;
        error :=
          Some "Unexpected error: ZeroDivisionError: float division by zero"%string |},
     opening_calls pdf_path doc ++ loads_from (S (List.length before)) 0)).
  { unfold audit_pdf. rewrite Hopen, Hlock.
    assert (Hloop := audit_pages_fail before bad after 0 black_threshold
                       min_overlap_area min_hits []
                       (if is_encrypted doc
                        then [EvOpen (path_str pdf_path); EvPageCount; EvIsEncrypted]
                             ++ [EvAuthenticate ""]
                        else [EvOpen (path_str pdf_path); EvPageCount; EvIsEncrypted])
                       e Hok Hbad).
    rewrite <- Hpages in Hloop. rewrite Hloop. subst e. cbn [app].
    unfold opening_calls. destruct (is_encrypted doc); cbn [app];
      now rewrite <- ?app_assoc. }
  split; [exact Hrun|]. rewrite Hrun. cbn [snd]. intros Hin.
  apply in_app_or in Hin as [Hin | Hin].
  - unfold opening_calls in Hin. destruct (is_encrypted doc); cbn in Hin;
      repeat (destruct Hin as [Hin | Hin]; [discriminate Hin|]); exact Hin.
  - exact (loads_from_no_close _ _ Hin).
Qed.

Lemma audit_pdf_page_failure_witness :
  fst (audit_pdf (single_document_fs failing_doc) path_a 0.15 4.0 1)
  = {| filename := "a.pdf"; total_pages := 3;
       flagged_pages := flagged_from [scenario_page] 0 0.15 4.0 1;
       error :=
         Some "Unexpected error: ZeroDivisionError: float division by zero"%string |}.
Proof.
  destruct (audit_pdf_page_failure (single_document_fs failing_doc) path_a failing_doc
              0.15 4.0 1 [scenario_page] [scenario_page] zero_area_page
              division_by_zero) as [Hrun _].
  - reflexivity.
  - reflexivity.
  - reflexivity.
  - repeat constructor. eexists. reflexivity.
  - reflexivity.
  - rewrite Hrun. reflexivity.
Defined.

Lemma audit_pages_numbers pages page_idx black_threshold min_overlap_area min_hits
    flagged trace :
  exists extra,
    fst (fst (audit_pages pages page_idx black_threshold min_overlap_area min_hits
                flagged trace)) = flagged ++ extra
    /\ StronglySorted Z.lt (map page_number extra)
    /\ Forall (fun r => (page_idx < page_number r <= page_idx + len pages)%Z) extra
    /\ (len extra <= len pages)%Z.
Proof.
  revert page_idx flagged trace. unfold len.
  induction pages as [|p rest IH]; intros page_idx flagged trace;
    cbn [audit_pages List.length].
  - exists []. cbn. rewrite app_nil_r. repeat split; try constructor. lia.
  - rewrite Nat2Z.inj_succ.
    destruct (audit_page p (page_idx + 1) black_threshold min_overlap_area min_hits)
      as [[r|]|e] eqn:Hp.
    + destruct (IH (page_idx + 1)%Z (flagged ++ [r]) (trace ++ [EvLoadPage page_idx]))
        as (extra & Heq & Hsorted & Hrange & Hlen).
      exists (r :: extra). rewrite Heq, <- app_assoc.
      destruct (audit_page_flagged _ _ _ _ _ _ Hp) as (fills & _ & _ & _ & _ & Hr).
      assert (Hnum : page_number r = (page_idx + 1)%Z) by now rewrite Hr.
      split; [reflexivity|]. split; [|split].
      * cbn [map]. constructor; [exact Hsorted|].
        apply Forall_map. eapply Forall_impl; [|exact Hrange]. cbn. intros a Ha. lia.
      * constructor; [lia|]. eapply Forall_impl; [|exact Hrange]. cbn. intros a Ha. lia.
      * cbn [List.length]. lia.
    + destruct (IH (page_idx + 1)%Z flagged (trace ++ [EvLoadPage page_idx]))
        as (extra & Heq & Hsorted & Hrange & Hlen).
      exists extra. split; [exact Heq|]. split; [exact Hsorted|]. split; [|lia].
      eapply Forall_impl; [|exact Hrange]. cbn. intros a Ha. lia.
    + exists []. cbn. rewrite app_nil_r. repeat split; try constructor. lia.
Qed.

(** X14.  In every report of [audit_pdf], whether or not an error occurred,
    the flagged pages come in strictly increasing page order, each page
    number lies between 1 and [total_pages], and there are at most
    [total_pages] of them. *)
Theorem audit_pdf_flagged_pages_in_order
    (fs : FileSystem) (pdf_path : Path)
    (black_threshold min_overlap_area : Q) (min_hits : Z) :
  let report := fst (audit_pdf fs pdf_path black_threshold min_overlap_area min_hits) in
  StronglySorted Z.lt (map page_number (flagged_pages report))
  /\ Forall (fun r => (1 <= page_number r <= total_pages report)%Z)
       (flagged_pages report)
  /\ (0 <= len (flagged_pages report) <= total_pages report)%Z.
Proof.
  cbv zeta. unfold audit_pdf.
  destruct (fitz_open fs (path_str pdf_path)) as [doc|e].
  2: { cbn. repeat split; try constructor; unfold len; cbn; lia. }
  destruct (is_encrypted doc && (authenticate doc "" =? 0)%Z).
  { cbn. repeat split; try constructor; unfold len; cbn; lia. }
  match goal with
  | |- context [audit_pages ?ps ?i ?t ?m ?h ?f ?tr] =>
      destruct (audit_pages_numbers ps i t m h f tr)
        as (extra & Heq & Hsorted & Hrange & Hlen);
      destruct (audit_pages ps i t m h f tr) as [[flagged err] tr'] eqn:Hloop
  end.
  cbn [fst app] in Heq. subst flagged.
  assert (Hgoal : StronglySorted Z.lt (map page_number extra)
                  /\ Forall (fun r => (1 <= page_number r <= len (doc_pages doc))%Z) extra
                  /\ (0 <= len extra <= len (doc_pages doc))%Z).
  { split; [exact Hsorted|]. split.
    - eapply Forall_impl; [|exact Hrange]. cbn. intros a Ha. lia.
    - unfold len in *. lia. }
  destruct err; cbn [fst flagged_pages total_pages]; exact Hgoal.
Qed.

(** ** Order of strings *)

Lemma string_compare_cons a s b t :
  String.compare (String a s) (String b t)
  = match N.compare (N_of_ascii a) (N_of_ascii b) with
    | Eq => String.compare s t
    | c => c
    end.
Proof. reflexivity. Qed.

Lemma string_compare_trans s t u :
  String.compare s t <> Gt -> String.compare t u <> Gt -> String.compare s u <> Gt.
Proof.
  revert t u. induction s as [|a s IH]; intros [|b t] [|c u];
    try (cbn; congruence).
  rewrite !string_compare_cons.
  destruct (N.compare_spec (N_of_ascii a) (N_of_ascii b)) as [Hab | Hab | Hab];
    destruct (N.compare_spec (N_of_ascii b) (N_of_ascii c)) as [Hbc | Hbc | Hbc];
    destruct (N.compare_spec (N_of_ascii a) (N_of_ascii c)) as [Hac | Hac | Hac];
    try congruence; try lia.
  apply IH.
Qed.

Lemma string_leb_trans s t u :
  String.leb s t = true -> String.leb t u = true -> String.leb s u = true.
Proof.
  unfold String.leb. intros H1 H2.
  pose proof (string_compare_trans s t u) as H.
  destruct (String.compare s t), (String.compare t u), (String.compare s u);
    try reflexivity; try discriminate; exfalso; apply H; congruence.
Qed.

(** ** Directory audit *)

Lemma sorted_perm l : Permutation (sorted l) l.
Proof. apply sort_by_perm. Qed.

Lemma sorted_strongly l : StronglySorted path_le (sorted l).
Proof. apply (sort_by_sorted path_leb path_leb_total path_leb_trans). Qed.

Lemma filter_strongly_sorted {A} (R : A -> A -> Prop) (f : A -> bool) l :
  StronglySorted R l -> StronglySorted R (filter f l).
Proof.
  induction 1 as [|a l Hs IH Ha]; cbn; [constructor|].
  destruct (f a); [|exact IH]. constructor; [exact IH|].
  apply Forall_forall. intros x Hx. apply filter_In in Hx as [Hx _].
  rewrite Forall_forall in Ha. now apply Ha.
Qed.

Lemma filter_perm {A} (f : A -> bool) l l' :
  Permutation l l' -> Permutation (filter f l) (filter f l').
Proof.
  induction 1 as [|x l l' _ IH|x y l|l l' l'' _ IH1 _ IH2]; cbn.
  - constructor.
  - destruct (f x); [now constructor | exact IH].
  - destruct (f x), (f y); try reflexivity. apply perm_swap.
  - etransitivity; eassumption.
Qed.

(** X15.  The reports of a directory whose [is_file] checks all answer come
    in the order [pathlib] gives the paths found, component by component:
    they are the [audit_pdf] reports of the regular files found, arranged
    in non-decreasing path order, each file once, each report carrying
    the file's name. *)
Theorem audit_directory_reports_in_path_order
    (fs : FileSystem) (dir_path : Path) (recursive : bool) (found : list Path)
    (black_threshold min_overlap_area : Q) (min_hits : Z) :
  path_exists fs (path_str dir_path) = Ok true ->
  path_is_dir fs (path_str dir_path) = Ok true ->
  path_glob fs (path_str dir_path) (glob_pattern recursive) = Ok found ->
  (forall p, In p found -> exists b, path_is_file fs (path_str p) = Ok b) ->
  exists files,
    audit_directory fs dir_path recursive black_threshold min_overlap_area min_hits
    = Ok (map (fun p => fst (audit_pdf fs p black_threshold min_overlap_area min_hits))
            files)
    /\ StronglySorted path_le files
    /\ Permutation files (filter (is_regular_file fs) found)
    /\ map filename
         (map (fun p => fst (audit_pdf fs p black_threshold min_overlap_area min_hits))
            files)
       = map path_name files.
Proof.
  intros Hex Hdir Hglob Hfile.
  exists (filter (is_regular_file fs) (sorted found)). split; [|split; [|split]].
  - rewrite (audit_directory_listed _ _ _ _ _ _ _ Hex Hdir Hglob).
    rewrite audit_files_all; [reflexivity|].
    intros p Hp. apply Hfile, In_sorted, Hp.
  - apply filter_strongly_sorted, sorted_strongly.
  - apply filter_perm, sorted_perm.
  - rewrite map_map. apply map_ext. intros p. unfold audit_pdf.
    destruct (fitz_open fs (path_str p)) as [doc|e]; [|reflexivity].
    destruct (is_encrypted doc && (authenticate doc "" =? 0)%Z); [reflexivity|].
    match goal with |- context [audit_pages ?a ?b ?c ?d ?e ?f ?g] =>
      destruct (audit_pages a b c d e f g) as [[fl [err|]] tr] end; reflexivity.
Qed.

Lemma audit_directory_reports_in_path_order_witness :
  (exists files,
     audit_directory nested_fs docs_dir true 0.15 4.0 1
     = Ok (map (fun p => fst (audit_pdf nested_fs p 0.15 4.0 1)) files)
     /\ StronglySorted path_le files
     /\ Permutation files [path_a_b_x; path_a_x])
  /\ sorted [path_a_b_x; path_a_x] = [path_a_x; path_a_b_x]
  /\ String.ltb (path_str path_a_b_x) (path_str path_a_x) = true.
Proof.
  split; [|split; reflexivity].
  destruct (audit_directory_reports_in_path_order nested_fs docs_dir true
              [path_a_b_x; path_a_x] 0.15 4.0 1)
    as (files & Hrun & Hsorted & Hperm & _); try reflexivity.
  - intros p _. exists true. reflexivity.
  - exists files. split; [exact Hrun|]. split; [exact Hsorted | exact Hperm].
Defined.

Lemma audit_files_raise fs pdf_files black_threshold min_overlap_area min_hits
    reports e :
  audit_files fs pdf_files black_threshold min_overlap_area min_hits reports = Raise e ->
  exn_type e <> PermissionError.
Proof.
  revert reports. induction pdf_files as [|p rest IH]; intros reports Hrun;
    cbn in Hrun; [discriminate|].
  destruct (path_is_file fs (path_str p)) as [[|]|e'] eqn:Hfile.
  - now apply IH in Hrun.
  - now apply IH in Hrun.
  - destruct (exn_type e') eqn:Hty; try discriminate;
      injection Hrun as <-; rewrite Hty; discriminate.
Qed.

(** X16.  [audit_directory] gives an empty list for a path that does not
    exist or is not a directory, and when listing the directory raises
    [PermissionError].  Once the two directory checks have answered, no
    [PermissionError] leaves the function: one raised by the listing or
    by an [is_file] check ends the scan with the reports gathered so
    far.  What [exists()] or [is_dir()] themselves raise, a
    [PermissionError] included, leaves the function: these calls come
    before the [try]. *)
Theorem audit_directory_permission_errors
    (fs : FileSystem) (dir_path : Path) (recursive : bool)
    (black_threshold min_overlap_area : Q) (min_hits : Z) :
  (path_exists fs (path_str dir_path) = Ok false ->
   audit_directory fs dir_path recursive black_threshold min_overlap_area min_hits
   = Ok [])
  /\ (path_exists fs (path_str dir_path) = Ok true ->
      path_is_dir fs (path_str dir_path) = Ok false ->
      audit_directory fs dir_path recursive black_threshold min_overlap_area min_hits
      = Ok [])
  /\ (forall e,
        path_exists fs (path_str dir_path) = Ok true ->
        path_is_dir fs (path_str dir_path) = Ok true ->
        path_glob fs (path_str dir_path) (glob_pattern recursive) = Raise e ->
        exn_type e = PermissionError ->
        audit_directory fs dir_path recursive black_threshold min_overlap_area min_hits
        = Ok [])
  /\ (forall e,
        path_exists fs (path_str dir_path) = Ok true ->
        path_is_dir fs (path_str dir_path) = Ok true ->
        audit_directory fs dir_path recursive black_threshold min_overlap_area min_hits
        = Raise e ->
        exn_type e <> PermissionError)
  /\ (forall e,
        path_exists fs (path_str dir_path) = Raise e ->
        audit_directory fs dir_path recursive black_threshold min_overlap_area min_hits
        = Raise e)
  /\ (forall e,
        path_exists fs (path_str dir_path) = Ok true ->
        path_is_dir fs (path_str dir_path) = Raise e ->
        audit_directory fs dir_path recursive black_threshold min_overlap_area min_hits
        = Raise e).
Proof.
  unfold audit_directory. fold (glob_pattern recursive).
  repeat split.
  - now intros ->.
  - now intros -> ->.
  - intros e -> -> Hglob Hty. cbn [bind negb]. now rewrite Hglob, Hty.
  - intros e -> ->. cbn [bind negb].
    destruct (path_glob fs (path_str dir_path) (glob_pattern recursive))
      as [found|e'].
    + apply audit_files_raise.
    + destruct (exn_type e') eqn:Hty; try discriminate;
        intros H; injection H as <-; rewrite Hty; discriminate.
  - now intros e ->.
  - now intros e -> ->.
Qed.

Lemma audit_directory_permission_errors_witness :
  audit_directory guarded_fs (posix_path ["elsewhere"]%string) true 0.15 4.0 1 = Ok []
  /\ audit_directory guarded_fs (posix_path ["private"]%string) true 0.15 4.0 1 = Ok []
  /\ audit_directory guarded_fs (posix_path ["sealed"; "inner"]%string) true 0.15 4.0 1
     = Raise permission_denied.
Proof.
  split; [|split].
  - destruct (audit_directory_permission_errors guarded_fs
                (posix_path ["elsewhere"]%string) true 0.15 4.0 1) as (H & _).
    apply H. reflexivity.
  - destruct (audit_directory_permission_errors guarded_fs
                (posix_path ["private"]%string) true 0.15 4.0 1) as (_ & _ & H & _).
    apply (H permission_denied); reflexivity.
  - destruct (audit_directory_permission_errors guarded_fs
                (posix_path ["sealed"; "inner"]%string) true 0.15 4.0 1)
      as (_ & _ & _ & _ & H & _).
    apply H. reflexivity.
Defined.

(** * Further properties of the security audit *)

(** ** Risk score *)

Open Scope Z_scope.

Lemma sum_applicable_le_total l :
  Forall (fun s => 0 <= snd s) l ->
  sum_applicable l <= fold_right Z.add 0 (map snd l).
Proof.
  unfold sum_applicable. induction 1 as [|[b w] l Hw _ IH]; cbn; [lia|].
  destruct b; cbn in *; lia.
Qed.

Lemma sum_applicable_zero l :
  Forall (fun s => 0 < snd s) l ->
  (sum_applicable l = 0 <-> Forall (fun s => fst s = false) l).
Proof.
  unfold sum_applicable. induction 1 as [|[b w] l Hw Hl IH]; cbn.
  - split; [constructor | reflexivity].
  - assert (Hnn : 0 <= fold_right Z.add 0 (map snd (filter fst l))).
    { apply sum_applicable_nonneg. eapply Forall_impl; [|exact Hl].
      cbn. intros a Ha. lia. }
    cbn in Hw. destruct b; cbn.
    + split; [lia|]. intros H. inversion H as [|? ? Hb]. discriminate Hb.
    + rewrite IH. split; [now constructor|]. intros H. now inversion H.
Qed.

Lemma signals_weights_pos f : Forall (fun s => 0 < snd s) (signals f).
Proof.
  unfold signals. repeat constructor; cbn [snd]; try lia.
  destruct (overlay_risk f =? "YES")%string; lia.
Qed.

(** X17.  The score never exceeds 98, so the clamp at 100 is never reached;
    and it is 0 exactly when no signal applies. *)
Theorem calculate_risk_score_range (f : AdvancedSecurityFindings) :
  calculate_risk_score f = sum_applicable (signals f)
  /\ 0 <= calculate_risk_score f <= 98
  /\ (calculate_risk_score f = 0
      <-> Forall (fun s => fst s = false) (signals f)).
Proof.
  rewrite calculate_risk_score_fold, fold_apply_signal, Z.add_0_l.
  pose proof (sum_applicable_nonneg _ (signals_weights_nonneg f)) as Hlo.
  pose proof (sum_applicable_le_total _ (signals_weights_nonneg f)) as Hhi.
  assert (Htot : fold_right Z.add 0 (map snd (signals f)) <= 98).
  { unfold signals. cbn [map snd fold_right].
    destruct (overlay_risk f =? "YES")%string; lia. }
  assert (Hmin : Z.min (sum_applicable (signals f)) 100 = sum_applicable (signals f))
    by lia.
  rewrite Hmin. split; [reflexivity|]. split; [lia|].
  apply sum_applicable_zero, signals_weights_pos.
Qed.

Lemma sum_applicable_mono l l' :
  Forall (fun s => 0 <= snd s) l' ->
  Forall2 (fun s s' => fst s = true -> fst s' = true /\ snd s <= snd s') l l' ->
  sum_applicable l <= sum_applicable l'.
Proof.
  unfold sum_applicable. intros Hnn H. revert Hnn.
  induction H as [|[b w] [b' w'] l l' Hs _ IH]; intros Hnn; cbn; [lia|].
  inversion Hnn as [|? ? Hw' Hl']; subst. specialize (IH Hl'). cbn in *.
  destruct b.
  - destruct (Hs eq_refl) as [-> Hle]. cbn. lia.
  - destruct b'; cbn; lia.
Qed.

(** X18.  More evidence never lowers the score. *)
Theorem calculate_risk_score_monotone (f f' : AdvancedSecurityFindings) :
  no_less_evidence f f' ->
  calculate_risk_score f <= calculate_risk_score f'.
Proof.
  intros H. rewrite !calculate_risk_score_fold, !fold_apply_signal, !Z.add_0_l.
  pose proof (sum_applicable_mono _ _ (signals_weights_nonneg f') H). lia.
Qed.

Lemma calculate_risk_score_monotone_witness :
  calculate_risk_score example_findings_maybe <= calculate_risk_score example_findings.
Proof.
  apply calculate_risk_score_monotone. unfold no_less_evidence. cbn.
  repeat constructor; try discriminate; cbn; intros _; split;
    try reflexivity; lia.
Defined.

Close Scope Z_scope.

(** ** OCR layer heuristic *)

Lemma scan_ocr_pages_raise doc pages page_num ocr_pages image_pages text_pages :
  Exists accessor_raises pages ->
  exists e,
    scan_ocr_pages doc pages page_num ocr_pages image_pages text_pages = Raise e.
Proof.
  intros Hex. revert page_num ocr_pages image_pages text_pages.
  induction pages as [|p rest IH]; intros page_num ocr_pages image_pages text_pages.
  - inversion Hex.
  - cbn [scan_ocr_pages].
    destruct (get_images p) as [images|e1] eqn:Hi; cbn [bind];
      [|eexists; reflexivity].
    destruct (get_text p) as [text|e2] eqn:Ht; cbn [bind];
      [|eexists; reflexivity].
    apply IH. inversion Hex as [? ? [[e He] | [e He]] | ? ? Hrest]; subst;
      [congruence | congruence | exact Hrest].
Qed.

(** X19.  If any page accessor raises, the whole check reports nothing: no
    OCR layer, no pages, not scanned, even for pages already examined. *)
Theorem check_ocr_layer_accessor_failure (doc : Document) :
  Exists accessor_raises (doc_pages doc) ->
  check_ocr_layer doc = (false, [], false).
Proof.
  intros Hex. unfold check_ocr_layer.
  destruct (scan_ocr_pages_raise doc _ 1 [] 0 0 Hex) as [e He].
  now rewrite He.
Qed.

Lemma check_ocr_layer_accessor_failure_witness :
  check_ocr_layer (document_of [scanned_page; unreadable_page] image_2000)
  = (false, [], false).
Proof.
  apply check_ocr_layer_accessor_failure.
  apply Exists_cons_tl, Exists_cons_hd. right. eexists. reflexivity.
Defined.

Lemma scan_ocr_pages_numbers doc pages page_num ocr_pages image_pages text_pages
    ocr_pages' image_pages' text_pages' :
  scan_ocr_pages doc pages page_num ocr_pages image_pages text_pages
  = Ok (ocr_pages', image_pages', text_pages') ->
  exists extra,
    ocr_pages' = ocr_pages ++ extra
    /\ StronglySorted Z.lt extra
    /\ Forall (fun n => (page_num <= n < page_num + len pages)%Z) extra.
Proof.
  revert page_num ocr_pages image_pages text_pages. unfold len.
  induction pages as [|p rest IH]; intros page_num ocr_pages image_pages text_pages;
    cbn [scan_ocr_pages List.length].
  - intros H. injection H as <- _ _. exists []. rewrite app_nil_r.
    repeat split; constructor.
  - rewrite Nat2Z.inj_succ.
    destruct (get_images p) as [images|e1]; cbn [bind]; [|discriminate].
    destruct (get_text p) as [text|e2]; cbn [bind]; [|discriminate].
    cbv zeta. intros Hrun. apply IH in Hrun as (extra & Heq & Hsorted & Hrange).
    assert (Hshift : Forall (fun n => (page_num <= n < page_num + Z.succ (Z.of_nat (List.length rest)))%Z) extra
                     /\ Forall (Z.lt page_num) extra).
    { split; (eapply Forall_impl; [|exact Hrange]); intros a Ha;
        cbv beta in Ha |- *; lia. }
    destruct Hshift as [Hrange' Hgt].
    assert (Hnote : note_large_image doc images (len (strip text) >? 0)%Z
                      page_num ocr_pages = ocr_pages
                    \/ note_large_image doc images (len (strip text) >? 0)%Z
                         page_num ocr_pages = ocr_pages ++ [page_num]).
    { unfold note_large_image. destruct images as [|i ?]; [now left|].
      destruct (extract_image doc (image_xref i)); [|now left].
      match goal with |- context [if ?c then _ else _] => destruct c end;
        [now right | now left]. }
    destruct (len images >? 0)%Z.
    + destruct Hnote as [Hn | Hn]; rewrite Hn in Heq.
      * exists extra. repeat split; assumption.
      * exists (page_num :: extra). rewrite Heq, <- app_assoc.
        split; [reflexivity|]. split.
        -- constructor; assumption.
        -- constructor; [lia | exact Hrange'].
    + exists extra. repeat split; assumption.
Qed.

(** X20.  Whatever the document, the OCR page list is strictly increasing,
    every entry is a page number between 1 and the page count, and an
    OCR layer is reported exactly when the list is non-empty. *)
Theorem check_ocr_layer_page_numbers (doc : Document) :
  let '(has_ocr, ocr_pages, is_scanned) := check_ocr_layer doc in
  StronglySorted Z.lt ocr_pages
  /\ Forall (fun n => (1 <= n <= len (doc_pages doc))%Z) ocr_pages
  /\ (has_ocr = true <-> ocr_pages <> []).
Proof.
  unfold check_ocr_layer.
  destruct (scan_ocr_pages doc (doc_pages doc) 1 [] 0 0)
    as [[[ocr_pages image_pages] text_pages]|e] eqn:Hscan.
  - apply scan_ocr_pages_numbers in Hscan as (extra & Heq & Hsorted & Hrange).
    cbn [app] in Heq. subst ocr_pages. cbv zeta.
    split; [exact Hsorted|]. split.
    + eapply Forall_impl; [|exact Hrange]. intros a Ha. cbv beta in Ha |- *. lia.
    + unfold len. destruct extra; cbn; split; try congruence; discriminate.
  - repeat split; try constructor; try discriminate. intros H. now contradiction H.
Qed.

(** ** Hidden text scan *)

Lemma fold_exc_app {A S} (f : S -> A -> exc S) l1 l2 st :
  fold_exc f (l1 ++ l2) st = (st' <- fold_exc f l1 st ;; fold_exc f l2 st').
Proof.
  revert st. induction l1 as [|a l1 IH]; intros st; cbn; [reflexivity|].
  destruct (f st a); cbn; [apply IH | reflexivity].
Qed.

Lemma fold_exc_flat_map {A B S} (f : S -> B -> exc S) (g : A -> list B) l st :
  fold_exc (fun st a => fold_exc f (g a) st) l st = fold_exc f (flat_map g l) st.
Proof.
  revert st. induction l as [|a l IH]; intros st; cbn; [reflexivity|].
  rewrite fold_exc_app. destruct (fold_exc f (g a) st); cbn; [apply IH | reflexivity].
Qed.

Lemma blocks_fold_spans page_rect page_num bs st :
  fold_exc (block_step page_rect page_num) bs st
  = fold_exc (span_step page_rect page_num) (flat_map dict_block_spans bs) st.
Proof.
  rewrite <- fold_exc_flat_map. revert st.
  induction bs as [|b bs IH]; intros st; cbn [fold_exc]; [reflexivity|].
  assert (Hb : block_step page_rect page_num st b
               = fold_exc (span_step page_rect page_num) (dict_block_spans b) st).
  { unfold block_step, dict_block_spans.
    destruct (dblock_type b) as [[| |]|]; try reflexivity.
    rewrite <- fold_exc_flat_map. reflexivity. }
  rewrite Hb. destruct (fold_exc (span_step page_rect page_num) (dict_block_spans b) st);
    cbn [bind]; [apply IH | reflexivity].
Qed.

Lemma numbers_where_sorted {A} (pred : A -> bool) l n :
  StronglySorted Z.lt (numbers_where pred l n)
  /\ Forall (fun k => (n <= k < n + len l)%Z) (numbers_where pred l n).
Proof.
  revert n. unfold len. induction l as [|a l IH]; intros n; cbn [numbers_where List.length].
  - split; constructor.
  - destruct (IH (n + 1)%Z) as [Hs Hr]. rewrite Nat2Z.inj_succ.
    assert (Hr' : Forall (fun k => (n < k < n + Z.succ (Z.of_nat (List.length l)))%Z)
                    (numbers_where pred l (n + 1))).
    { eapply Forall_impl; [|exact Hr]. intros k Hk. cbv beta in Hk |- *. lia. }
    destruct (pred a); cbn [app].
    + split.
      * constructor; [exact Hs|]. eapply Forall_impl; [|exact Hr'].
        intros k Hk. cbv beta in Hk. lia.
      * constructor; [lia|]. eapply Forall_impl; [|exact Hr'].
        intros k Hk. cbv beta in Hk |- *. lia.
    + split; [exact Hs|]. eapply Forall_impl; [|exact Hr'].
      intros k Hk. cbv beta in Hk |- *. lia.
Qed.

Lemma numbers_where_nil {A} (pred : A -> bool) l n :
  numbers_where pred l n = [] <-> existsb pred l = false.
Proof.
  revert n. induction l as [|a l IH]; intros n; cbn; [tauto|].
  destruct (pred a); cbn; [split; discriminate | apply IH].
Qed.

Lemma In_numbers_where {A} (pred : A -> bool) l start n :
  In n (numbers_where pred l start)
  <-> (start <= n)%Z
      /\ exists a, nth_error l (Z.to_nat (n - start)) = Some a /\ pred a = true.
Proof.
  revert start. induction l as [|p rest IH]; intros start.
  - cbn. split; [tauto|]. intros (_ & q & Hq & _).
    destruct (Z.to_nat (n - start)); discriminate Hq.
  - cbn [numbers_where]. rewrite in_app_iff, IH. split.
    + intros [Hhere | (Hle & q & Hq & Hpred)].
      * destruct (pred p) eqn:Hp; [|contradiction].
        destruct Hhere as [<- | []]. split; [lia|].
        exists p. rewrite Z.sub_diag. split; [reflexivity | exact Hp].
      * split; [lia|]. exists q. split; [|exact Hpred].
        replace (Z.to_nat (n - start)) with (S (Z.to_nat (n - (start + 1)))) by lia.
        exact Hq.
    + intros (Hle & q & Hq & Hpred).
      destruct (Z.eq_dec n start) as [-> | Hne].
      * left. rewrite Z.sub_diag in Hq. cbn in Hq. injection Hq as ->.
        rewrite Hpred. left. reflexivity.
      * right. split; [lia|]. exists q. split; [|exact Hpred].
        replace (Z.to_nat (n - start)) with (S (Z.to_nat (n - (start + 1)))) in Hq by lia.
        exact Hq.
Qed.

Lemma str_in_In s l : str_in s l = true <-> In s l.
Proof.
  unfold str_in. rewrite existsb_exists. split.
  - intros (x & Hx & Heq). apply String.eqb_eq in Heq. now subst.
  - intros H. exists s. split; [exact H | apply String.eqb_refl].
Qed.

Lemma add_label_spec label types :
  let types' := if negb (str_in label types) then types ++ [label] else types in
  (forall l, In l types' <-> In l types \/ l = label)
  /\ (NoDup types -> NoDup types').
Proof.
  cbv zeta. destruct (str_in label types) eqn:Hin; cbn [negb].
  - apply str_in_In in Hin. split; [|tauto].
    intros l. split; [tauto|]. intros [H | ->]; assumption.
  - assert (Hnot : ~ In label types).
    { intros H. apply str_in_In in H. congruence. }
    split.
    + intros l. rewrite in_app_iff. cbn. intuition.
    + intros Hnd. apply NoDup_app; [exact Hnd | repeat constructor; intros [] |].
      intros x Hx [<- | []]. contradiction.
Qed.

Lemma scan_rel_refl n st : scan_rel n false false st st.
Proof.
  unfold scan_rel. rewrite !orb_false_r, !andb_false_r.
  repeat split; try tauto. intros [H | []]. exact H.
Qed.

Lemma In_labels_of l w o :
  In l (labels_of w o) <-> (w = true /\ l = white_label) \/ (o = true /\ l = off_label).
Proof.
  unfold labels_of. destruct w, o; cbn; intuition (try discriminate; auto).
Qed.

Lemma scan_rel_trans n w1 o1 w2 o2 a b c :
  scan_rel n w1 o1 a b -> scan_rel n w2 o2 b c ->
  scan_rel n (w1 || w2) (o1 || o2) a c.
Proof.
  intros (Hw1 & Ho1 & Hwp1 & Hop1 & Ht1 & Hn1) (Hw2 & Ho2 & Hwp2 & Hop2 & Ht2 & Hn2).
  unfold scan_rel. split; [|split; [|split; [|split; [|split]]]].
  - rewrite Hw2, Hw1. now rewrite orb_assoc.
  - rewrite Ho2, Ho1. now rewrite orb_assoc.
  - rewrite Hwp2, Hwp1, Hw1.
    destruct (white_on_white_found a), w1, w2; reflexivity.
  - rewrite Hop2, Hop1, Ho1.
    destruct (offpage_found a), o1, o2; reflexivity.
  - intros l. rewrite Ht2, Ht1, !In_labels_of.
    destruct w1, w2, o1, o2; cbn; intuition (try discriminate; auto).
  - auto.
Qed.

Lemma span_step_rel page_rect n st s st' :
  span_step page_rect n st s = Ok st' ->
  scan_rel n (span_is_white s) (span_is_off_page page_rect s) st st'.
Proof.
  unfold span_step, span_is_white, span_is_off_page.
  fold (span_bbox_or_default s).
  set (color := match dspan_color s with Some c => c | None => 0%Z end).
  destruct (bbox_off_page (span_bbox_or_default s) page_rect) as [off|e];
    cbn [bind]; [|discriminate].
  assert (Hwhite : scan_rel n (color >? 16710886)%Z false st
            (if (color >? 16710886)%Z then
               {| hidden_types :=
                    if negb (str_in white_label (hidden_types st))
                    then hidden_types st ++ [white_label] else hidden_types st;
                  white_on_white_pages :=
                    if negb (white_on_white_found st)
                    then white_on_white_pages st ++ [n] else white_on_white_pages st;
                  offpage_pages := offpage_pages st;
                  white_on_white_found := true;
                  offpage_found := offpage_found st |}
             else st)).
  { destruct (color >? 16710886)%Z; [|apply scan_rel_refl].
    destruct (add_label_spec white_label (hidden_types st)) as [Hin Hnd].
    unfold scan_rel.
    cbn [hidden_types white_on_white_pages offpage_pages white_on_white_found
         offpage_found].
    rewrite orb_true_r, orb_false_r, andb_true_r, andb_false_r.
    split; [reflexivity|]. split; [reflexivity|]. split; [reflexivity|].
    split; [reflexivity|]. split; [|exact Hnd].
    intros l. rewrite Hin, In_labels_of. intuition discriminate. }
  set (mid := if (color >? 16710886)%Z then _ else st) in *.
  intros H.
  assert (Hoff : scan_rel n false off mid st').
  { destruct off; injection H as <-; [|apply scan_rel_refl].
    destruct (add_label_spec off_label (hidden_types mid)) as [Hin Hnd].
    unfold scan_rel.
    cbn [hidden_types white_on_white_pages offpage_pages white_on_white_found
         offpage_found].
    rewrite orb_true_r, orb_false_r, andb_true_r, andb_false_r.
    split; [reflexivity|]. split; [reflexivity|]. split; [reflexivity|].
    split; [reflexivity|]. split; [|exact Hnd].
    intros l. rewrite Hin, In_labels_of. intuition discriminate. }
  pose proof (scan_rel_trans _ _ _ _ _ _ _ _ Hwhite Hoff) as Hrel.
  now rewrite orb_false_r in Hrel.
Qed.

Lemma spans_fold_rel page_rect n spans st st' :
  fold_exc (span_step page_rect n) spans st = Ok st' ->
  scan_rel n (existsb span_is_white spans)
    (existsb (span_is_off_page page_rect) spans) st st'.
Proof.
  revert st. induction spans as [|s rest IH]; intros st; cbn [fold_exc existsb].
  - intros H. injection H as <-. apply scan_rel_refl.
  - destruct (span_step page_rect n st s) as [mid|e] eqn:Hstep; cbn [bind];
      [|discriminate].
    intros H. eapply scan_rel_trans; [apply span_step_rel, Hstep | apply IH, H].
Qed.

Lemma spans_fold_ok page_rect n spans st :
  Forall (fun s => exists b, bbox_off_page (span_bbox_or_default s) page_rect = Ok b)
    spans ->
  exists st', fold_exc (span_step page_rect n) spans st = Ok st'.
Proof.
  intros H. revert st. induction H as [|s rest [b Hb] _ IH]; intros st; cbn.
  - eexists. reflexivity.
  - unfold span_step. fold (span_bbox_or_default s). rewrite Hb. cbn [bind].
    destruct b; apply IH.
Qed.

Lemma spans_fold_raise page_rect n spans st s e :
  In s spans ->
  bbox_off_page (span_bbox_or_default s) page_rect = Raise e ->
  exists e', fold_exc (span_step page_rect n) spans st = Raise e'.
Proof.
  intros Hin Hbad. revert st. induction spans as [|s0 rest IH]; intros st;
    [contradiction|].
  cbn [fold_exc].
  destruct (span_step page_rect n st s0) as [mid|e0] eqn:Hstep; cbn [bind];
    [|eexists; reflexivity].
  destruct Hin as [-> | Hin]; [|now apply IH].
  unfold span_step in Hstep. fold (span_bbox_or_default s) in Hstep.
  rewrite Hbad in Hstep. discriminate Hstep.
Qed.

Lemma page_step_spec n st p st' :
  page_step n st p = Ok st' ->
  white_on_white_pages st'
  = white_on_white_pages st ++ (if page_has_white_text p then [n] else [])
  /\ offpage_pages st'
     = offpage_pages st ++ (if page_has_off_page_text p then [n] else [])
  /\ (forall l, In l (hidden_types st')
                <-> In l (hidden_types st)
                    \/ In l (labels_of (page_has_white_text p)
                               (page_has_off_page_text p)))
  /\ (NoDup (hidden_types st) -> NoDup (hidden_types st')).
Proof.
  unfold page_step, page_has_white_text, page_has_off_page_text.
  destruct (get_text_dict p) as [td|e]; cbn [bind]; [|discriminate].
  rewrite blocks_fold_spans. fold (text_dict_spans td). intros Hrun.
  apply spans_fold_rel in Hrun as (_ & _ & Hwp & Hop & Ht & Hnd).
  cbn [hidden_types white_on_white_pages offpage_pages white_on_white_found
       offpage_found negb andb] in *.
  rewrite Hwp, Hop. split; [|split; [|split; assumption]].
  - destruct (existsb span_is_white (text_dict_spans td)); now rewrite ?app_nil_r.
  - destruct (existsb (span_is_off_page (apage_rect p)) (text_dict_spans td));
      now rewrite ?app_nil_r.
Qed.

Lemma scan_hidden_pages_spec pages n st st' :
  scan_hidden_pages pages n st = Ok st' ->
  white_on_white_pages st'
  = white_on_white_pages st ++ numbers_where page_has_white_text pages n
  /\ offpage_pages st'
     = offpage_pages st ++ numbers_where page_has_off_page_text pages n
  /\ (forall l, In l (hidden_types st')
                <-> In l (hidden_types st)
                    \/ In l (labels_of (existsb page_has_white_text pages)
                               (existsb page_has_off_page_text pages)))
  /\ (NoDup (hidden_types st) -> NoDup (hidden_types st')).
Proof.
  revert n st. induction pages as [|p rest IH]; intros n st;
    cbn [scan_hidden_pages numbers_where existsb].
  - intros H. injection H as <-. rewrite !app_nil_r.
    repeat split; try tauto. intros [H | []]. exact H.
  - destruct (page_step n st p) as [mid|e] eqn:Hpage; cbn [bind]; [|discriminate].
    intros Hrest. apply page_step_spec in Hpage as (Hwp1 & Hop1 & Ht1 & Hn1).
    apply IH in Hrest as (Hwp2 & Hop2 & Ht2 & Hn2).
    rewrite Hwp2, Hop2, Hwp1, Hop1, <- !app_assoc.
    split; [reflexivity|]. split; [reflexivity|]. split; [|auto].
    intros l. rewrite Ht2, Ht1, !In_labels_of.
    destruct (page_has_white_text p), (page_has_off_page_text p),
      (existsb page_has_white_text rest), (existsb page_has_off_page_text rest);
      cbn; intuition (try discriminate; auto).
Qed.

Lemma page_step_ok n st p :
  page_scannable p -> exists st', page_step n st p = Ok st'.
Proof.
  intros (td & Htd & Hspans). unfold page_step. rewrite Htd. cbn [bind].
  rewrite blocks_fold_spans. now apply spans_fold_ok.
Qed.

Lemma page_step_raise n st p :
  page_unscannable p -> exists e, page_step n st p = Raise e.
Proof.
  unfold page_step. intros [[e He] | (td & s & e & Htd & Hs & Hbad)].
  - rewrite He. eexists. reflexivity.
  - rewrite Htd. cbn [bind]. rewrite blocks_fold_spans.
    eapply spans_fold_raise; eassumption.
Qed.

Lemma page_scannable_not_unscannable p :
  page_scannable p -> ~ page_unscannable p.
Proof.
  intros (td & Htd & Hspans) [[e He] | (td' & s & e & Htd' & Hs & Hbad)].
  - congruence.
  - rewrite Htd in Htd'. injection Htd' as <-.
    rewrite Forall_forall in Hspans. destruct (Hspans s Hs) as [b Hb]. congruence.
Qed.

(** X21.  When every page can be scanned, the white-on-white list holds
    exactly the numbers of the pages with a text-block span whose colour
    exceeds 16710886, the off-page list exactly the numbers of the pages
    with a text-block span reaching more than 100 units beyond the page
    rectangle, hidden text is reported exactly when one of the two lists
    is non-empty, and the type list names, without repetition, exactly
    the kinds that occurred. *)
Theorem check_hidden_text_characterised (doc : AuditDocument) :
  Forall page_scannable (adoc_pages doc) ->
  let white := existsb page_has_white_text (adoc_pages doc) in
  let off := existsb page_has_off_page_text (adoc_pages doc) in
  exists types,
    check_hidden_text doc
    = (white || off, types,
       numbers_where page_has_white_text (adoc_pages doc) 1,
       numbers_where page_has_off_page_text (adoc_pages doc) 1)
    /\ NoDup types
    /\ (forall l, In l types <-> In l (labels_of white off)).
Proof.
  intros Hok. cbv zeta. unfold check_hidden_text. fold initial_scan.
  assert (Hrun : exists st, scan_hidden_pages (adoc_pages doc) 1 initial_scan = Ok st).
  { generalize 1%Z, initial_scan.
    induction Hok as [|p rest Hp _ IH]; intros n st; cbn [scan_hidden_pages].
    - eexists. reflexivity.
    - destruct (page_step_ok n st p Hp) as [mid Hmid]. rewrite Hmid. cbn [bind].
      apply IH. }
  destruct Hrun as [st Hst]. rewrite Hst.
  apply scan_hidden_pages_spec in Hst as (Hwp & Hop & Ht & Hnd).
  cbn [initial_scan hidden_types white_on_white_pages offpage_pages app] in *.
  exists (hidden_types st). rewrite Hwp, Hop.
  assert (Hin : forall l, In l (hidden_types st)
            <-> In l (labels_of (existsb page_has_white_text (adoc_pages doc))
                        (existsb page_has_off_page_text (adoc_pages doc)))).
  { intros l. rewrite Ht.
    split; [intros [[] | H]; exact H | intros H; right; exact H]. }
  split; [|split; [apply Hnd; constructor | exact Hin]].
  do 3 f_equal. unfold len.
  destruct (hidden_types st) as [|t ts] eqn:Htypes.
  - destruct (existsb page_has_white_text (adoc_pages doc)) eqn:Hw.
    + exfalso. apply (proj2 (Hin white_label)). now left.
    + destruct (existsb page_has_off_page_text (adoc_pages doc)) eqn:Ho;
        [|reflexivity].
      exfalso. apply (proj2 (Hin off_label)). now left.
  - assert (Hl : In t (labels_of (existsb page_has_white_text (adoc_pages doc))
                         (existsb page_has_off_page_text (adoc_pages doc)))).
    { apply Hin. now left. }
    apply In_labels_of in Hl as [[-> _] | [-> _]]; cbn; now rewrite ?orb_true_r.
Qed.

Lemma check_hidden_text_characterised_witness :
  exists types,
    check_hidden_text hidden_text_doc = (true, types, [2%Z; 3%Z], [2%Z])
    /\ NoDup types.
Proof.
  destruct (check_hidden_text_characterised hidden_text_doc)
    as (types & Hrun & Hnd & _).
  - repeat constructor; eexists; (split; [reflexivity|]);
      repeat constructor; eexists; reflexivity.
  - exists types. split; [exact Hrun | exact Hnd].
Defined.

(** X22.  Whatever the document, the result of [check_hidden_text] is
    consistent: hidden text is reported exactly when the type list is
    non-empty; the type list has no repetition and only names the two
    kinds; a kind is named exactly when its page list is non-empty; and
    both page lists are strictly increasing page numbers between 1 and
    the page count. *)
Theorem check_hidden_text_consistent (doc : AuditDocument) :
  let '(has_hidden, types, white_pages, off_pages) := check_hidden_text doc in
  (has_hidden = true <-> types <> [])
  /\ NoDup types
  /\ incl types [white_label; off_label]
  /\ (In white_label types <-> white_pages <> [])
  /\ (In off_label types <-> off_pages <> [])
  /\ StronglySorted Z.lt white_pages
  /\ StronglySorted Z.lt off_pages
  /\ Forall (fun n => (1 <= n <= len (adoc_pages doc))%Z) (white_pages ++ off_pages).
Proof.
  unfold check_hidden_text. fold initial_scan.
  destruct (scan_hidden_pages (adoc_pages doc) 1 initial_scan) as [st|e] eqn:Hst.
  2: { repeat split; try constructor; try discriminate; try contradiction;
       intros H; now contradiction H. }
  apply scan_hidden_pages_spec in Hst as (Hwp & Hop & Ht & Hnd).
  cbn [initial_scan hidden_types white_on_white_pages offpage_pages app] in *.
  cbv zeta. rewrite Hwp, Hop.
  destruct (numbers_where_sorted page_has_white_text (adoc_pages doc) 1) as [Hs1 Hr1].
  destruct (numbers_where_sorted page_has_off_page_text (adoc_pages doc) 1) as [Hs2 Hr2].
  assert (Hin : forall l, In l (hidden_types st)
            <-> In l (labels_of (existsb page_has_white_text (adoc_pages doc))
                        (existsb page_has_off_page_text (adoc_pages doc)))).
  { intros l. rewrite Ht.
    split; [intros [[] | H]; exact H | intros H; right; exact H]. }
  assert (Hnil : forall (pred : AuditPage -> bool),
            numbers_where pred (adoc_pages doc) 1 <> [] <-> existsb pred (adoc_pages doc) = true).
  { intros pred. rewrite numbers_where_nil. now destruct (existsb pred (adoc_pages doc)). }
  split; [|split; [apply Hnd; constructor|split; [|split; [|split; [|split; [|split]]]]]].
  - unfold len. destruct (hidden_types st); cbn; split; try congruence; discriminate.
  - intros l Hl. apply Hin, In_labels_of in Hl as [[_ ->] | [_ ->]];
      [now left | right; now left].
  - rewrite Hin, In_labels_of, Hnil. unfold white_label, off_label.
    intuition discriminate.
  - rewrite Hin, In_labels_of, Hnil. unfold white_label, off_label.
    intuition discriminate.
  - exact Hs1.
  - exact Hs2.
  - apply Forall_app. split; (eapply Forall_impl; [|eassumption]);
      intros k Hk; cbv beta in Hk |- *; lia.
Qed.

(** X23.  If the text dictionary of some page cannot be read, or a visited
    span has a bounding box too short for the off-page test, the scan
    reports nothing at all, also for the pages before the failure. *)
Theorem check_hidden_text_failure (doc : AuditDocument) :
  Exists page_unscannable (adoc_pages doc) ->
  check_hidden_text doc = (false, [], [], []).
Proof.
  intros Hex. unfold check_hidden_text.
  assert (Hrun : forall n st, exists e,
            scan_hidden_pages (adoc_pages doc) n st = Raise e).
  { induction (adoc_pages doc) as [|p rest IH]; intros n st; [inversion Hex|].
    cbn [scan_hidden_pages].
    destruct (page_step n st p) as [mid|e] eqn:Hpage; cbn [bind];
      [|eexists; reflexivity].
    apply IH. inversion Hex as [? ? Hbad | ? ? Hrest]; subst; [|exact Hrest].
    destruct (page_step_raise n st p Hbad) as [e He]. congruence. }
  destruct (Hrun 1%Z {| hidden_types := []; white_on_white_pages := [];
                        offpage_pages := []; white_on_white_found := false;
                        offpage_found := false |}) as [e He].
  now rewrite He.
Qed.

Lemma check_hidden_text_failure_witness :
  check_hidden_text short_box_doc = (false, [], [], []).
Proof.
  apply check_hidden_text_failure.
  apply Exists_cons_tl, Exists_cons_hd. right.
  exists (mkTextDict (Some [mkDictBlock (Some 0%Z)
                              (Some [mkDictLine (Some [short_box_span])])])),
    short_box_span, index_error.
  repeat split. left. reflexivity.
Defined.

(** ** External links *)

Lemma insert_string_perm s l : Permutation (insert_string s l) (s :: l).
Proof.
  induction l as [|t rest IH]; cbn; [reflexivity|].
  destruct (String.leb s t); [reflexivity|].
  rewrite IH. apply perm_swap.
Qed.

Lemma sort_strings_perm l : Permutation (sort_strings l) l.
Proof.
  induction l as [|s rest IH]; cbn; [constructor|].
  rewrite insert_string_perm. now constructor.
Qed.

Lemma insert_string_sorted s l :
  StronglySorted str_le l -> StronglySorted str_le (insert_string s l).
Proof.
  induction 1 as [|t rest Hs IH Ht]; cbn.
  - repeat constructor.
  - destruct (String.leb s t) eqn:Hst.
    + constructor; [constructor; assumption|].
      constructor; [exact Hst|].
      eapply Forall_impl; [|exact Ht]. intros r Hr.
      unfold str_le in *. eapply string_leb_trans; eassumption.
    + constructor; [exact IH|].
      assert (Hts : str_le t s).
      { unfold str_le. destruct (String.leb_total s t); congruence. }
      eapply Permutation_Forall; [symmetry; apply insert_string_perm|].
      constructor; assumption.
Qed.

Lemma sort_strings_sorted l : StronglySorted str_le (sort_strings l).
Proof.
  induction l as [|s rest IH]; cbn; [constructor|].
  now apply insert_string_sorted.
Qed.

Lemma str_le_neq_lt s t : str_le s t -> s <> t -> str_lt s t.
Proof.
  unfold str_le, str_lt, String.leb, String.ltb. intros Hle Hne.
  destruct (String.compare s t) eqn:Hc; try reflexivity; try discriminate.
  apply String.compare_eq_iff in Hc. contradiction.
Qed.

Lemma sorted_nodup_strict l :
  StronglySorted str_le l -> NoDup l -> StronglySorted str_lt l.
Proof.
  induction 1 as [|s rest Hs IH Hall]; intros Hnd; [constructor|].
  inversion Hnd as [|? ? Hnotin Hnd']; subst. constructor; [now apply IH|].
  apply Forall_forall. intros t Ht. rewrite Forall_forall in Hall.
  apply str_le_neq_lt; [now apply Hall|]. intros ->. contradiction.
Qed.

Lemma sort_strings_strict l : NoDup l -> StronglySorted str_lt (sort_strings l).
Proof.
  intros Hnd. apply sorted_nodup_strict; [apply sort_strings_sorted|].
  eapply Permutation_NoDup; [symmetry; apply sort_strings_perm | exact Hnd].
Qed.

Lemma In_sort_strings s l : In s (sort_strings l) <-> In s l.
Proof.
  split; apply Permutation_in; [|symmetry]; apply sort_strings_perm.
Qed.

Lemma set_add_spec s set :
  (forall t, In t (set_add s set) <-> In t set \/ t = s)
  /\ (NoDup set -> NoDup (set_add s set)).
Proof.
  unfold set_add. destruct (str_in s set) eqn:Hin.
  - apply str_in_In in Hin. split; [|tauto].
    intros t. split; [tauto|]. intros [H | ->]; assumption.
  - assert (Hnot : ~ In s set).
    { intros H. apply str_in_In in H. congruence. }
    split.
    + intros t. rewrite in_app_iff. cbn. intuition.
    + intros Hnd. apply NoDup_app; [exact Hnd | repeat constructor; intros [] |].
      intros x Hx [<- | []]. contradiction.
Qed.

Lemma links_fold_spec links urls :
  (forall u, In u (fold_left link_step links urls)
             <-> In u urls
                 \/ (is_http u = true
                     /\ exists l, In l links /\ link_uri l = Some u))
  /\ (NoDup urls -> NoDup (fold_left link_step links urls)).
Proof.
  revert urls. induction links as [|l rest IH]; intros urls; cbn [fold_left].
  - split; [|tauto]. intros u. split; [tauto|].
    intros [H | (_ & l & [] & _)]. exact H.
  - destruct (IH (link_step urls l)) as [Hin Hnd]. clear IH.
    assert (Hstep : (forall u, In u (link_step urls l)
                       <-> In u urls \/ (is_http u = true /\ link_uri l = Some u))
                    /\ (NoDup urls -> NoDup (link_step urls l))).
    { unfold link_step, default_string, str_truthy.
      destruct (link_uri l) as [uri|] eqn:Huri.
      - destruct (uri =? "")%string eqn:Hempty; cbn [negb andb].
        + apply String.eqb_eq in Hempty. subst uri. split; [|tauto].
          intros u. split; [tauto|]. intros [H | [Hh Heq]]; [exact H|].
          injection Heq as <-. discriminate Hh.
        + destruct (is_http uri) eqn:Hhttp.
          * destruct (set_add_spec uri urls) as [Hs1 Hs2]. split; [|exact Hs2].
            intros u. rewrite Hs1. split.
            -- intros [H | ->]; [now left | right; now split].
            -- intros [H | [_ Heq]]; [now left | right; congruence].
          * split; [|tauto]. intros u. split; [tauto|].
            intros [H | [Hh Heq]]; [exact H|]. injection Heq as <-. congruence.
      - cbn. split; [|tauto]. intros u. split; [tauto|].
        intros [H | [_ Heq]]; [exact H | discriminate Heq]. }
    destruct Hstep as [Hs1 Hs2]. split; [|auto].
    intros u. rewrite Hin, Hs1. split.
    + intros [[H | [Hh Hu]] | (Hh & l' & Hl' & Hu)].
      * now left.
      * right. split; [exact Hh|]. exists l. split; [now left | exact Hu].
      * right. split; [exact Hh|]. exists l'. split; [now right | exact Hu].
    + intros [H | (Hh & l' & [<- | Hl'] & Hu)].
      * left. now left.
      * left. right. now split.
      * right. split; [exact Hh|]. exists l'. now split.
Qed.

Lemma scan_links_spec pages urls out :
  scan_links pages urls = Ok out ->
  (forall u, In u out
             <-> In u urls
                 \/ (is_http u = true
                     /\ exists page links l,
                          In page pages /\ get_links page = Ok links /\ In l links
                          /\ link_uri l = Some u))
  /\ (NoDup urls -> NoDup out).
Proof.
  revert urls. induction pages as [|p rest IH]; intros urls; cbn [scan_links].
  - intros H. injection H as <-. split; [|tauto]. intros u. split; [tauto|].
    intros [H | (_ & ? & ? & ? & [] & _)]. exact H.
  - destruct (get_links p) as [links|e] eqn:Hlinks; cbn [bind]; [|discriminate].
    intros Hrun. apply IH in Hrun as [Hin Hnd].
    destruct (links_fold_spec links urls) as [Hf1 Hf2]. split; [|auto].
    intros u. rewrite Hin, Hf1. split.
    + intros [[H | (Hh & l & Hl & Hu)] | (Hh & page & ls & l & Hp & Hg & Hl & Hu)].
      * now left.
      * right. split; [exact Hh|]. exists p, links, l. repeat split; auto. now left.
      * right. split; [exact Hh|]. exists page, ls, l. repeat split; auto. now right.
    + intros [H | (Hh & page & ls & l & [<- | Hp] & Hg & Hl & Hu)].
      * left. now left.
      * left. right. split; [exact Hh|]. rewrite Hlinks in Hg. injection Hg as <-.
        exists l. now split.
      * right. split; [exact Hh|]. exists page, ls, l. repeat split; auto.
Qed.

(** X24.  Whatever the document, the URL list is strictly increasing (so
    free of duplicates), every entry starts with "http://" or
    "https://", every entry is the URI of some link of the document, and
    links are reported exactly when the list is non-empty. *)
Theorem check_external_links_sorted_http (doc : AuditDocument) :
  let '(has_links, urls) := check_external_links doc in
  StronglySorted str_lt urls
  /\ Forall (fun u => is_http u = true /\ linked_uri doc u) urls
  /\ (has_links = true <-> urls <> []).
Proof.
  unfold check_external_links.
  destruct (scan_links (adoc_pages doc) []) as [urls|e] eqn:Hscan.
  2: { repeat split; try constructor; try discriminate. intros H. now contradiction H. }
  apply scan_links_spec in Hscan as [Hin Hnd]. cbv zeta.
  split; [apply sort_strings_strict, Hnd; constructor|]. split.
  - apply Forall_forall. intros u Hu. apply In_sort_strings, Hin in Hu.
    destruct Hu as [[] | [Hh Hex]]. split; [exact Hh | exact Hex].
  - unfold len. destruct (sort_strings urls); cbn; split; try congruence; discriminate.
Qed.

(** X25.  When the links of every page can be read, a URL is listed exactly
    when it is the URI of some link and starts with "http://" or
    "https://"; when the links of some page cannot be read, nothing is
    reported. *)
Theorem check_external_links_complete (doc : AuditDocument) :
  (Forall (fun p => exists links, get_links p = Ok links) (adoc_pages doc) ->
   forall u, In u (snd (check_external_links doc))
             <-> is_http u = true /\ linked_uri doc u)
  /\ (Exists (fun p => exists e, get_links p = Raise e) (adoc_pages doc) ->
      check_external_links doc = (false, [])).
Proof.
  unfold check_external_links. split.
  - intros Hok u.
    assert (Hrun : exists out, scan_links (adoc_pages doc) [] = Ok out).
    { generalize (@nil string).
      induction Hok as [|p rest [links Hl] _ IH]; intros urls; cbn.
      - eexists. reflexivity.
      - rewrite Hl. cbn. apply IH. }
    destruct Hrun as [out Hout]. rewrite Hout. cbn [snd].
    apply scan_links_spec in Hout as [Hin _].
    rewrite In_sort_strings, Hin. unfold linked_uri. split.
    + intros [[] | H]. exact H.
    + intros H. now right.
  - intros Hex.
    assert (Hrun : forall urls, exists e, scan_links (adoc_pages doc) urls = Raise e).
    { induction Hex as [p rest [e He] | p rest _ IH]; intros urls; cbn.
      - rewrite He. eexists. reflexivity.
      - destruct (get_links p); cbn; [apply IH | eexists; reflexivity]. }
    destruct (Hrun []) as [e He]. now rewrite He.
Qed.

Lemma check_external_links_complete_witness :
  check_external_links links_doc
  = (true, ["http://example.org/a"; "https://example.org/b"]%string)
  /\ In "http://example.org/a"%string (snd (check_external_links links_doc)).
Proof.
  split; [reflexivity|].
  apply (proj1 (check_external_links_complete links_doc)).
  - repeat constructor; eexists; reflexivity.
  - split; [reflexivity|].
    exists (links_page [Some "http://example.org/a"; Some "https://example.org/b"]%string).
    eexists. exists (mkLink (Some "http://example.org/a"%string)).
    split; [right; left; reflexivity|]. split; [reflexivity|].
    split; [left; reflexivity | reflexivity].
Defined.

(** ** Digital signatures *)

Lemma widgets_fold_spec widgets count names :
  fold_left widget_step widgets (count, names)
  = ((count + len (filter is_signature_field widgets))%Z,
     names ++ flat_map signer_name_of (filter is_signature_field widgets)).
Proof.
  revert count names. unfold len.
  induction widgets as [|w rest IH]; intros count names; cbn [fold_left filter].
  - cbn. now rewrite Z.add_0_r, app_nil_r.
  - assert (Hstep : widget_step (count, names) w
                    = if is_signature_field w
                      then ((count + 1)%Z, names ++ signer_name_of w)
                      else (count, names)).
    { unfold widget_step, is_signature_field, signer_name_of.
      destruct (field_type w =? 7)%Z; [|reflexivity].
      destruct (field_name w) as [name|]; [destruct (str_truthy name)|];
        now rewrite ?app_nil_r. }
    rewrite Hstep. destruct (is_signature_field w); rewrite IH; [|reflexivity].
    cbn [List.length flat_map]. f_equal; [lia | now rewrite app_assoc].
Qed.

Lemma scan_widgets_spec pages count names :
  Forall (fun p => exists ws, get_widgets p = Ok ws) pages ->
  scan_widgets pages (count, names)
  = Ok ((count + len (filter is_signature_field (flat_map widgets_of pages)))%Z,
        names ++ flat_map signer_name_of
                   (filter is_signature_field (flat_map widgets_of pages))).
Proof.
  intros Hok. revert count names. unfold len.
  induction Hok as [|p rest [ws Hws] _ IH]; intros count names;
    cbn [scan_widgets flat_map].
  - cbn. now rewrite Z.add_0_r, app_nil_r.
  - unfold widgets_of at 1 3. rewrite Hws. cbn [bind].
    rewrite widgets_fold_spec, IH, !filter_app, !flat_map_app, !length_app.
    unfold len. f_equal. f_equal; [lia | now rewrite app_assoc].
Qed.

Lemma flat_map_signer_length ws :
  (List.length (flat_map signer_name_of ws) <= List.length ws)%nat.
Proof.
  induction ws as [|w rest IH]; cbn; [lia|].
  rewrite length_app. unfold signer_name_of at 1.
  destruct (field_name w) as [name|]; [destruct (str_truthy name)|]; cbn; lia.
Qed.

(** X26.  When the widgets of every page can be read, the signature count is
    the number of widgets of field type 7 over all pages, the signer
    names are the non-empty field names of those widgets in page order
    (so never more names than signatures), and signatures are reported
    exactly when the count is positive. *)
Theorem check_signatures_counts (doc : AuditDocument) :
  Forall (fun p => exists ws, get_widgets p = Ok ws) (adoc_pages doc) ->
  let signature_fields :=
    filter is_signature_field (flat_map widgets_of (adoc_pages doc)) in
  check_signatures doc
  = ((len signature_fields >? 0)%Z, len signature_fields,
     flat_map signer_name_of signature_fields)
  /\ (len (flat_map signer_name_of signature_fields) <= len signature_fields)%Z.
Proof.
  intros Hok. cbv zeta. unfold check_signatures.
  rewrite (scan_widgets_spec _ 0 [] Hok). cbn [app]. rewrite Z.add_0_l.
  split; [reflexivity|]. unfold len. apply Nat2Z.inj_le, flat_map_signer_length.
Qed.

Lemma check_signatures_counts_witness :
  check_signatures signed_doc = (true, 3%Z, ["Signature1"%string]).
Proof.
  destruct (check_signatures_counts signed_doc) as [Hrun _].
  - repeat constructor; eexists; reflexivity.
  - rewrite Hrun. reflexivity.
Defined.

(** ** Metadata *)

Lemma substring_length_le m s : (String.length (String.substring 0 m s) <= m)%nat.
Proof.
  revert s. induction m as [|m IH]; intros [|c s]; cbn; try lia.
  specialize (IH s). lia.
Qed.

Lemma dict_set_fresh k v d :
  ~ In k (map fst d) -> dict_set k v d = d ++ [(k, v)].
Proof.
  induction d as [|[k' v'] rest IH]; cbn; [reflexivity|].
  intros Hnot. destruct (String.eqb_spec k k') as [-> | Hne]; [tauto|].
  rewrite IH; tauto.
Qed.

Lemma metadata_fold_spec metadata keys details :
  NoDup (map fst details ++ map fst metadata) ->
  fold_left metadata_step metadata (keys, details)
  = (keys ++ map fst (truncated_entries metadata),
     details ++ truncated_entries metadata).
Proof.
  revert keys details. unfold truncated_entries.
  induction metadata as [|[k v] rest IH]; intros keys details Hnd;
    cbn [fold_left filter map].
  - now rewrite !app_nil_r.
  - cbn [map fst] in Hnd.
    assert (Hk : ~ In k (map fst details)).
    { intros H. apply NoDup_remove_2 in Hnd. apply Hnd, in_or_app. now left. }
    unfold metadata_step at 2. cbn [snd].
    destruct (value_truthy v) eqn:Hv.
    + rewrite dict_set_fresh by exact Hk. rewrite IH.
      * cbn [map fst snd]. now rewrite <- !app_assoc.
      * rewrite map_app. cbn [map fst]. rewrite <- app_assoc. exact Hnd.
    + apply IH. apply NoDup_remove_1 in Hnd. exact Hnd.
Qed.

Lemma existsb_filter_length {A} (f : A -> bool) l :
  existsb f l = (Z.of_nat (List.length (filter f l)) >? 0)%Z.
Proof.
  induction l as [|x l IH]; [reflexivity|]. cbn [filter existsb].
  destruct (f x); [reflexivity | exact IH].
Qed.

(** X27.  For a metadata dictionary (keys distinct), the reported keys are
    the keys with a non-empty value in dictionary order, the details hold
    exactly those keys with the value cut to its first 100 characters,
    and metadata is reported exactly when some value is non-empty; a
    missing, empty or unreadable dictionary reports nothing. *)
Theorem check_metadata_detailed_spec (doc : AuditDocument) :
  (forall metadata,
      adoc_metadata doc = Ok (Some metadata) ->
      NoDup (map fst metadata) ->
      check_metadata_detailed doc
      = (existsb (fun kv => value_truthy (snd kv)) metadata,
         map fst (truncated_entries metadata),
         truncated_entries metadata)
      /\ Forall (fun kv => (String.length (snd kv) <= 100)%nat)
           (truncated_entries metadata))
  /\ ((adoc_metadata doc = Ok None \/ adoc_metadata doc = Ok (Some [])
       \/ exists e, adoc_metadata doc = Raise e) ->
      check_metadata_detailed doc = (false, [], [])).
Proof.
  unfold check_metadata_detailed. split.
  - intros metadata Hmeta Hnd. rewrite Hmeta. split.
    + destruct metadata as [|kv rest]; [reflexivity|].
      rewrite (metadata_fold_spec (kv :: rest) [] []) by exact Hnd.
      cbn [app]. f_equal. f_equal. unfold truncated_entries, len.
      rewrite !length_map. symmetry. apply existsb_filter_length.
    + unfold truncated_entries. apply Forall_map, Forall_forall.
      intros kv _. cbn [snd]. apply substring_length_le.
  - intros [H | [H | [e H]]]; now rewrite H.
Qed.

Lemma check_metadata_detailed_spec_witness :
  check_metadata_detailed metadata_doc
  = (true, ["title"; "producer"]%string,
     [("title", "Report"); ("producer", "Scanner 1.0")]%string).
Proof.
  destruct (proj1 (check_metadata_detailed_spec metadata_doc)
              [("title", Some "Report"); ("author", None);
               ("subject", Some ""); ("producer", Some "Scanner 1.0")]%string
              eq_refl) as [Hrun _].
  - repeat constructor; cbn; intuition discriminate.
  - rewrite Hrun. reflexivity.
Defined.

(** ** Reviewer names *)

Lemma text_eqb_eq s t : text_eqb s t = true <-> s = t.
Proof.
  unfold text_eqb. split.
  - destruct (text_compare s t) eqn:H; try discriminate. intros _.
    now apply text_compare_eq.
  - intros ->. now rewrite text_compare_refl.
Qed.

Lemma text_in_In s l : text_in s l = true <-> In s l.
Proof.
  unfold text_in. rewrite existsb_exists. split.
  - intros (t & Ht & Heq). apply text_eqb_eq in Heq. now subst.
  - intros H. exists s. split; [exact H | now apply text_eqb_eq].
Qed.

Lemma set_add_text_spec s set :
  (forall t, In t (set_add_text s set) <-> In t set \/ t = s)
  /\ (NoDup set -> NoDup (set_add_text s set)).
Proof.
  unfold set_add_text. destruct (text_in s set) eqn:Hin.
  - apply text_in_In in Hin. split; [|tauto].
    intros t. split; [tauto|]. intros [H | ->]; assumption.
  - assert (Hnot : ~ In s set).
    { intros H. apply text_in_In in H. congruence. }
    split.
    + intros t. rewrite in_app_iff. cbn. intuition.
    + intros Hnd. apply NoDup_app; [exact Hnd | repeat constructor; intros [] |].
      intros x Hx [<- | []]. contradiction.
Qed.

Lemma text_leb_total s t : text_leb s t = true \/ text_leb t s = true.
Proof. apply (not_gt_total text_compare), text_compare_antisym. Qed.

Lemma text_leb_trans s t u :
  text_leb s t = true -> text_leb t u = true -> text_leb s u = true.
Proof.
  apply (not_gt_trans text_compare); [apply text_compare_eq | apply text_compare_trans].
Qed.

Lemma sort_texts_strict l :
  NoDup l -> StronglySorted text_lt (sort_by text_leb l).
Proof.
  intros Hnd.
  assert (Hnd' : NoDup (sort_by text_leb l)).
  { eapply Permutation_NoDup; [symmetry; apply sort_by_perm | exact Hnd]. }
  pose proof (sort_by_sorted text_leb text_leb_total text_leb_trans l) as Hs.
  induction Hs as [|s rest Hs IH Hall]; [constructor|].
  inversion Hnd' as [|? ? Hnotin Hrest]; subst.
  constructor; [now apply IH|].
  apply Forall_forall. intros t Ht. rewrite Forall_forall in Hall.
  apply (not_gt_neq_lt text_compare text_compare_eq); [now apply Hall|].
  intros ->. contradiction.
Qed.

Lemma annots_fold_spec annots reviewers :
  (forall r, In r (fold_left annot_step annots reviewers)
             <-> In r reviewers
                 \/ (is_reviewer_name r = true
                     /\ exists a info, In a annots /\ annot_get_info a = Ok info
                          /\ (r = strip (default_text (info_title info))
                              \/ r = strip (default_text (info_subject info)))))
  /\ (NoDup reviewers -> NoDup (fold_left annot_step annots reviewers)).
Proof.
  revert reviewers. induction annots as [|a rest IH]; intros reviewers; cbn [fold_left].
  - split; [|tauto]. intros r. split; [tauto|].
    intros [H | (_ & ? & ? & [] & _)]. exact H.
  - destruct (IH (annot_step reviewers a)) as [Hin Hnd]. clear IH.
    assert (Hadd : forall s set,
              (forall r, In r (if is_reviewer_name s then set_add_text s set else set)
                         <-> In r set \/ (is_reviewer_name r = true /\ r = s))
              /\ (NoDup set ->
                  NoDup (if is_reviewer_name s then set_add_text s set else set))).
    { intros s set. destruct (is_reviewer_name s) eqn:Hs.
      - destruct (set_add_text_spec s set) as [H1 H2]. split; [|exact H2].
        intros r. rewrite H1. split.
        + intros [H | ->]; [now left | right; now split].
        + intros [H | [_ ->]]; [now left | now right].
      - split; [|tauto]. intros r. split; [tauto|].
        intros [H | [Hr ->]]; [exact H | congruence]. }
    assert (Hstep : (forall r, In r (annot_step reviewers a)
                       <-> In r reviewers
                           \/ (is_reviewer_name r = true
                               /\ exists info, annot_get_info a = Ok info
                                    /\ (r = strip (default_text (info_title info))
                                        \/ r = strip (default_text (info_subject info)))))
                    /\ (NoDup reviewers -> NoDup (annot_step reviewers a))).
    { unfold annot_step. destruct (annot_get_info a) as [info|e].
      - cbv zeta.
        destruct (Hadd (strip (default_text (info_title info))) reviewers)
          as [Ha1 Ha2].
        destruct (Hadd (strip (default_text (info_subject info)))
                    (if is_reviewer_name (strip (default_text (info_title info)))
                     then set_add_text (strip (default_text (info_title info))) reviewers
                     else reviewers)) as [Hb1 Hb2].
        split; [|auto]. intros r. rewrite Hb1, Ha1. split.
        + intros [[H | [Hr Heq]] | [Hr Heq]].
          * now left.
          * right. split; [exact Hr|]. exists info. split; [reflexivity | now left].
          * right. split; [exact Hr|]. exists info. split; [reflexivity | now right].
        + intros [H | (Hr & info' & Hinfo & [Heq | Heq])].
          * left. now left.
          * injection Hinfo as <-. left. right. now split.
          * injection Hinfo as <-. right. now split.
      - split; [|tauto]. intros r. split; [tauto|].
        intros [H | (_ & info & Hinfo & _)]; [exact H | discriminate Hinfo]. }
    destruct Hstep as [Hs1 Hs2]. split; [|auto].
    intros r. rewrite Hin, Hs1. split.
    + intros [[H | (Hr & info & Hinfo & Heq)] | (Hr & a' & info & Ha' & Hinfo & Heq)].
      * now left.
      * right. split; [exact Hr|]. exists a, info. repeat split; auto. now left.
      * right. split; [exact Hr|]. exists a', info. repeat split; auto. now right.
    + intros [H | (Hr & a' & info & [<- | Ha'] & Hinfo & Heq)].
      * left. now left.
      * left. right. split; [exact Hr|]. exists info. now split.
      * right. split; [exact Hr|]. exists a', info. now repeat split.
Qed.

Lemma scan_annots_spec pages reviewers out :
  scan_annots pages reviewers = Ok out ->
  (forall r, In r out
             <-> In r reviewers
                 \/ (is_reviewer_name r = true /\ annotated_name pages r))
  /\ (NoDup reviewers -> NoDup out).
Proof.
  revert reviewers. induction pages as [|p rest IH]; intros reviewers;
    cbn [scan_annots].
  - intros H. injection H as <-. split; [|tauto]. intros r. split; [tauto|].
    intros [H | (_ & ? & ? & ? & ? & [] & _)]. exact H.
  - destruct (get_annots p) as [annots|e] eqn:Hannots; cbn [bind]; [|discriminate].
    intros Hrun. apply IH in Hrun as [Hin Hnd].
    destruct (annots_fold_spec annots reviewers) as [Hf1 Hf2]. split; [|auto].
    intros r. rewrite Hin, Hf1. unfold annotated_name. split.
    + intros [[H | (Hr & a & info & Ha & Hinfo & Heq)]
             | (Hr & page & ans & a & info & Hp & Hg & Ha & Hinfo & Heq)].
      * now left.
      * right. split; [exact Hr|]. exists p, annots, a, info.
        repeat split; auto. now left.
      * right. split; [exact Hr|]. exists page, ans, a, info.
        repeat split; auto. now right.
    + intros [H | (Hr & page & ans & a & info & [<- | Hp] & Hg & Ha & Hinfo & Heq)].
      * left. now left.
      * left. right. split; [exact Hr|]. rewrite Hannots in Hg. injection Hg as <-.
        exists a, info. now repeat split.
      * right. split; [exact Hr|]. exists page, ans, a, info. now repeat split.
Qed.

(** X28.  Whatever the document, the reviewer list is strictly increasing (so
    free of duplicates), no entry is empty or the string "None", and
    every entry is the stripped title or subject of an annotation of the
    document.  When the annotations of every page can be listed, every
    such name is in the list; annotations whose info cannot be read are
    skipped. *)
Theorem check_reviewer_info_spec (doc : AuditDocument) :
  StronglySorted text_lt (check_reviewer_info doc)
  /\ Forall (fun r => r <> text_of "" /\ r <> text_of "None"
                      /\ annotated_name (adoc_pages doc) r)
       (check_reviewer_info doc)
  /\ (Forall (fun p => exists annots, get_annots p = Ok annots) (adoc_pages doc) ->
      forall r, annotated_name (adoc_pages doc) r ->
                r <> text_of "" -> r <> text_of "None" ->
                In r (check_reviewer_info doc)).
Proof.
  assert (Hname : forall r, is_reviewer_name r = true
                    <-> r <> text_of "" /\ r <> text_of "None").
  { intros r. unfold is_reviewer_name, text_in. cbn [existsb].
    pose proof (text_eqb_eq r (text_of "")) as H1.
    pose proof (text_eqb_eq r (text_of "None")) as H2.
    destruct (text_eqb r (text_of "")), (text_eqb r (text_of "None"));
      destruct r as [|c r]; cbn [text_truthy andb orb negb];
      intuition (try discriminate; auto). }
  unfold check_reviewer_info.
  destruct (scan_annots (adoc_pages doc) []) as [reviewers|e] eqn:Hscan.
  - apply scan_annots_spec in Hscan as [Hin Hnd]. split; [|split].
    + apply sort_texts_strict, Hnd. constructor.
    + apply Forall_forall. intros r Hr. apply In_sort_by, Hin in Hr.
      destruct Hr as [[] | [Hr Hex]]. apply Hname in Hr. tauto.
    + intros _ r Hex Hne1 Hne2. apply In_sort_by, Hin. right.
      split; [apply Hname; tauto | exact Hex].
  - split; [constructor|]. split; [constructor|].
    intros Hok. exfalso. revert Hscan. generalize (@nil text).
    induction Hok as [|p rest [annots Ha] _ IH]; intros reviewers; cbn.
    + discriminate.
    + rewrite Ha. cbn. apply IH.
Qed.

Lemma check_reviewer_info_spec_witness :
  check_reviewer_info reviewed_doc = [text_of "A. Jones"; text_of "J. Smith"]
  /\ In (text_of "A. Jones") (check_reviewer_info reviewed_doc).
Proof.
  split; [reflexivity|].
  destruct (check_reviewer_info_spec reviewed_doc) as (_ & _ & Hall).
  apply Hall; try discriminate.
  - repeat constructor; eexists; reflexivity.
  - exists (annots_page [Ok (mkAnnotInfo (Some (160 :: text_of "A. Jones" ++ [160])%Z)
                               None);
                         Ok (mkAnnotInfo (Some (text_of "J. Smith" ++ [8195])%Z)
                               (Some (text_of "  ")))]).
    eexists.
    exists (mkAnnot (Ok (mkAnnotInfo (Some (160 :: text_of "A. Jones" ++ [160])%Z)
                           None))).
    eexists. split; [right; left; reflexivity|]. split; [reflexivity|].
    split; [left; reflexivity|]. split; [reflexivity|]. left. reflexivity.
Defined.

(** ** Overlap area bounds *)

(** X29.  The overlap area is never negative and never exceeds the area of
    either rectangle. *)
Theorem compute_overlap_area_bounds (a b : Rect) :
  0 <= compute_overlap_area a b
  /\ compute_overlap_area a b <= get_area a
  /\ compute_overlap_area a b <= get_area b.
Proof.
  split; [apply overlap_area_nonneg|]. split; [apply overlap_area_le_l|].
  rewrite overlap_area_comm. apply overlap_area_le_l.
Qed.

(** ** Incremental updates ([pdf_security_audit.py]) *)

Lemma prefix_length sub data :
  String.prefix sub data = true -> (String.length sub <= String.length data)%nat.
Proof.
  revert data. induction sub as [|c sub IH]; intros [|d data]; cbn; try lia;
    try discriminate.
  destruct (Ascii.ascii_dec c d); [|discriminate].
  intros H. apply IH in H. lia.
Qed.

Lemma count_from_bound sub data skip :
  (1 <= String.length sub)%nat ->
  (String.length sub * count_from sub data skip <= String.length data - skip)%nat.
Proof.
  intros Hsub. revert skip. induction data as [|c rest IH]; intros skip.
  - cbn. lia.
  - cbn [count_from]. destruct skip as [|k].
    + destruct (String.prefix sub (String c rest)) eqn:Hp.
      * apply prefix_length in Hp. cbn [String.length] in *.
        specialize (IH (String.length sub - 1)%nat). nia.
      * specialize (IH 0%nat). cbn [String.length]. lia.
    + specialize (IH k). cbn [String.length]. lia.
Qed.

Lemma bytes_from_length offset data :
  String.length (bytes_from offset data) = (String.length data - offset)%nat.
Proof.
  revert data. induction offset as [|k IH]; intros [|c rest]; cbn; try lia.
  apply IH.
Qed.

Lemma bytes_from_add k p data :
  bytes_from (String.length p + k) (p ++ data) = bytes_from k data.
Proof. induction p as [|c p IH]; cbn; [reflexivity | exact IH]. Qed.

Lemma append_length p data :
  String.length (p ++ data) = (String.length p + String.length data)%nat.
Proof. induction p as [|c p IH]; cbn; [reflexivity | now rewrite IH]. Qed.

(** X30.  Incremental updates are suspected only for a readable file whose
    last 65536 bytes hold the marker "startxref" at least twice, which
    takes at least 18 bytes; and only those last bytes matter: bytes put
    in front of a file of 65536 bytes or more do not change the answer. *)
Theorem check_incremental_updates_tail (bytes : string) :
  (check_incremental_updates (Ok bytes) = true -> (18 <= String.length bytes)%nat)
  /\ (forall front,
        (65536 <= Z.of_nat (String.length bytes))%Z ->
        check_incremental_updates (Ok (front ++ bytes)%string)
        = check_incremental_updates (Ok bytes))
  /\ (forall e, check_incremental_updates (Raise e) = false).
Proof.
  split; [|split; [|reflexivity]].
  - unfold check_incremental_updates. cbv zeta. intros H.
    apply Z.gtb_lt in H.
    set (data := bytes_from _ bytes) in H.
    pose proof (count_from_bound "startxref" data 0 ltac:(cbn; lia)) as Hb.
    fold (bytes_count "startxref" data) in Hb.
    change (String.length "startxref") with 9%nat in Hb.
    assert (Hlen : (String.length data <= String.length bytes)%nat).
    { unfold data. rewrite bytes_from_length. lia. }
    lia.
  - intros front Hbig. unfold check_incremental_updates. cbv zeta.
    rewrite append_length.
    replace (Z.to_nat (Z.max 0 (Z.of_nat (String.length front + String.length bytes)
                          - Z.min 65536 (Z.of_nat (String.length front
                                                   + String.length bytes)))))
      with (String.length front
            + Z.to_nat (Z.max 0 (Z.of_nat (String.length bytes)
                                 - Z.min 65536 (Z.of_nat (String.length bytes)))))%nat
      by lia.
    now rewrite bytes_from_add.
Qed.

Lemma check_incremental_updates_tail_witness :
  (18 <= String.length twice_saved)%nat.
Proof.
  apply (proj1 (check_incremental_updates_tail twice_saved)). reflexivity.
Defined.
